(** * K-DATAELECT: the import / normalise / aggregate / export pipeline

    A shallow embedding of the data service of the repository
    ([parseValue], [parseDateTime], [parseExcelFiles],
    [aggregateToHourly], [generateCSV]) and of the records of
    [types.ts], with the properties that the specification states about
    them.

    Modelling decisions, fixed once for the whole development:

    - a JavaScript [number] is an IEEE-754 binary64 value: Rocq's
      primitive [float], whose operations are the ones the engine runs;
    - a JavaScript string is the [string] of the bytes of its UTF-8
      encoding; white space is that of ECMAScript, the no-break space
      and the other Unicode spaces included;
    - a [Date] object is its time value: a whole number of milliseconds
      since the Unix epoch, or "Invalid Date"; the date arithmetic is
      that of ECMAScript, done on integers;
    - whatever ECMAScript leaves to the host (the local time zone, the
      clock, the parsing of free-form date strings, number and date
      printing, the [Intl] formatters) is a field of a [Host] record;
      the local time zone is a constant offset from UTC (no daylight
      saving transitions);
    - a spreadsheet file is the row matrix that
      [XLSX.utils.sheet_to_json(sheet, {header: 1})] returns for its
      first sheet; reading the file and handing the CSV text to the
      browser are outside the model. *)

From Stdlib Require Import ZArith List String Ascii Bool Lia Floats.
From Stdlib Require Import Permutation Sorted DecimalString.
Import ListNotations.

(** A decimal literal such as [0.1] denotes the nearest binary64 value,
    as it does in JavaScript. *)
Set Warnings "-inexact-float".

Local Open Scope string_scope.
Local Open Scope list_scope.
Local Open Scope Z_scope.

(* ================================================================== *)
(** * JavaScript numbers *)
(* ================================================================== *)

Definition number : Set := float.

(** The Number nearest to an integer (round to nearest, ties to even). *)
Definition ofZ (n : Z) : number :=
  SF2Prim (binary_normalize prec emax n 0 false).

Definition NaN : number := nan.

Definition isNaN (x : number) : bool := is_nan x.

(** [Number.isFinite(x)] *)
Definition isFinite (x : number) : bool :=
  match Prim2SF x with
  | S754_zero _ | S754_finite _ _ _ => true
  | _ => false
  end.

(** [x === y] on numbers. *)
Definition numEq (x y : number) : bool := (x =? y)%float.

(** [truncFinite x] is the integer part of a finite [x] (rounded toward
    zero); [None] for NaN and the infinities.  It is what the Date
    algorithms of ECMAScript do with a numeric argument: "if x is not
    finite, return NaN" followed by [ToIntegerOrInfinity]. *)
Definition SFtrunc (x : spec_float) : option Z :=
  match x with
  | S754_zero _ => Some 0
  | S754_finite s m e =>
      let a := if 0 <=? e then Zpos m * 2 ^ e else Zpos m / 2 ^ (- e) in
      Some (if s then - a else a)
  | S754_infinity _ | S754_nan => None
  end.

Definition truncFinite (x : number) : option Z := SFtrunc (Prim2SF x).

(** [Math.floor]. *)
Definition SFfloor (x : spec_float) : spec_float :=
  match x with
  | S754_finite s m e =>
      if 0 <=? e then x
      else binary_normalize prec emax
             ((if s then Zneg m else Zpos m) / 2 ^ (- e)) 0 false
  | _ => x
  end.

Definition Math_floor (x : number) : number := SF2Prim (SFfloor (Prim2SF x)).

(** [Math.round]: the nearest integer, ties toward +infinity; a result
    of zero keeps the sign of the argument. *)
Definition SFround (x : spec_float) : spec_float :=
  match x with
  | S754_finite s m e =>
      if 0 <=? e then x
      else binary_normalize prec emax
             ((2 * (if s then Zneg m else Zpos m) + 2 ^ (- e)) / (2 * 2 ^ (- e)))
             0 s
  | _ => x
  end.

Definition Math_round (x : number) : number := SF2Prim (SFround (Prim2SF x)).

(** The remainder operator [x % y]: exact, with the sign of the
    dividend. *)
Definition SFrem (x y : spec_float) : spec_float :=
  match x, y with
  | S754_nan, _ | _, S754_nan => S754_nan
  | S754_infinity _, _ => S754_nan
  | _, S754_zero _ => S754_nan
  | _, S754_infinity _ => x
  | S754_zero _, _ => x
  | S754_finite sx mx ex, S754_finite _ my ey =>
      let e0 := Z.min ex ey in
      let r := Z.rem (Zpos mx * 2 ^ (ex - e0)) (Zpos my * 2 ^ (ey - e0)) in
      binary_normalize prec emax (if sx then - r else r) e0 sx
  end.

Definition rem (x y : number) : number := SF2Prim (SFrem (Prim2SF x) (Prim2SF y)).

(** The Number nearest to the decimal [m / 10^k]. *)
Definition decimalToNumber (m : Z) (k : nat) : number :=
  match m with
  | Zpos p =>
      SF2Prim (SFdiv prec emax (S754_finite false p 0)
                 (S754_finite false (Z.to_pos (10 ^ Z.of_nat k)) 0))
  | _ => zero
  end.

(** [Math.max(...xs)] and [Math.min(...xs)], as ECMAScript defines them:
    NaN as soon as one argument is NaN, otherwise a left-to-right scan
    from -infinity (resp. +infinity) in which +0 counts as larger than
    -0. *)
Definition isPosZero (x : number) : bool := is_zero x && negb (get_sign x).
Definition isNegZero (x : number) : bool := is_zero x && get_sign x.

Definition maxStep (highest x : number) : number :=
  if isPosZero x && isNegZero highest then x
  else if (highest <? x)%float then x else highest.

Definition minStep (lowest x : number) : number :=
  if isNegZero x && isPosZero lowest then x
  else if (x <? lowest)%float then x else lowest.

Definition Math_max (xs : list number) : number :=
  if existsb isNaN xs then NaN else fold_left maxStep xs neg_infinity.

Definition Math_min (xs : list number) : number :=
  if existsb isNaN xs then NaN else fold_left minStep xs infinity.

(* ================================================================== *)
(** * JavaScript strings *)
(* ================================================================== *)

(** A string is kept as the bytes of its UTF-8 encoding.  Every
    character that the code tests for (a digit, a sign, a dot, a comma,
    a colon, a slash) is one byte there, and no such byte occurs inside
    the encoding of another character.  The white space of ECMAScript
    ([WhiteSpace] and [LineTerminator]: what [trim], the class [\s] and
    the number parsers skip) has characters of one, two and three
    bytes: U+0009 to U+000D and U+0020; U+00A0; U+1680, U+2000 to
    U+200A, U+2028, U+2029, U+202F, U+205F, U+3000 and U+FEFF. *)

(** U+0009 to U+000D and U+0020 *)
Definition oneByteSpace (c : ascii) : bool :=
  let n := nat_of_ascii c in
  (((9 <=? n) && (n <=? 13)) || (n =? 32))%nat.

(** U+00A0, the bytes C2 A0 *)
Definition twoByteSpace (c c2 : ascii) : bool :=
  ((nat_of_ascii c =? 194) && (nat_of_ascii c2 =? 160))%nat.

(** U+1680 (E1 9A 80); U+2000 to U+200A, U+2028, U+2029 and U+202F
    (E2 80 80 to 8A, A8, A9 and AF); U+205F (E2 81 9F); U+3000
    (E3 80 80); U+FEFF (EF BB BF) *)
Definition threeByteSpace (c c2 c3 : ascii) : bool :=
  let n := nat_of_ascii c in
  let n2 := nat_of_ascii c2 in
  let n3 := nat_of_ascii c3 in
  (((n =? 225) && (n2 =? 154) && (n3 =? 128))
   || ((n =? 226) && (n2 =? 128)
       && (((128 <=? n3) && (n3 <=? 138)) || (n3 =? 168) || (n3 =? 169) || (n3 =? 175)))
   || ((n =? 226) && (n2 =? 129) && (n3 =? 159))
   || ((n =? 227) && (n2 =? 128) && (n3 =? 128))
   || ((n =? 239) && (n2 =? 187) && (n3 =? 191)))%nat.

(** The number of bytes of the white-space character with which the
    string begins; 0 when it begins with none. *)
Definition whiteSpaceAt (s : string) : nat :=
  match s with
  | String c r =>
      if oneByteSpace c then 1%nat
      else
        match r with
        | String c2 r2 =>
            if twoByteSpace c c2 then 2%nat
            else
              match r2 with
              | String c3 _ => if threeByteSpace c c2 c3 then 3%nat else 0%nat
              | EmptyString => 0%nat
              end
        | EmptyString => 0%nat
        end
  | EmptyString => 0%nat
  end.

Definition isDigit (c : ascii) : bool :=
  let n := nat_of_ascii c in ((48 <=? n) && (n <=? 57))%nat.

Definition digitValue (c : ascii) : Z := Z.of_nat (nat_of_ascii c) - 48.

(** Value of a hexadecimal digit, if [c] is one. *)
Definition hexValue (c : ascii) : option Z :=
  let n := nat_of_ascii c in
  if ((48 <=? n) && (n <=? 57))%nat then Some (Z.of_nat n - 48)
  else if ((97 <=? n) && (n <=? 102))%nat then Some (Z.of_nat n - 87)
  else if ((65 <=? n) && (n <=? 70))%nat then Some (Z.of_nat n - 55)
  else None.

Definition isEmpty (s : string) : bool :=
  match s with EmptyString => true | _ => false end.

(** [s.trimStart()] *)
Fixpoint trimStart (s : string) : string :=
  match s with
  | String _ r =>
      match whiteSpaceAt s with
      | 0%nat => s
      | 1%nat => trimStart r
      | 2%nat => match r with
                 | String _ r2 => trimStart r2
                 | EmptyString => s
                 end
      | _ => match r with
             | String _ (String _ r3) => trimStart r3
             | _ => s
             end
      end
  | EmptyString => EmptyString
  end.

(** The string holds white space only. *)
Fixpoint allWhiteSpace (s : string) : bool :=
  match s with
  | String _ r =>
      match whiteSpaceAt s with
      | 0%nat => false
      | 1%nat => allWhiteSpace r
      | 2%nat => match r with
                 | String _ r2 => allWhiteSpace r2
                 | EmptyString => false
                 end
      | _ => match r with
             | String _ (String _ r3) => allWhiteSpace r3
             | _ => false
             end
      end
  | EmptyString => true
  end.

(** [s.trimEnd()]: the string is cut where what remains is white space
    only. *)
Fixpoint trimEnd (s : string) : string :=
  match s with
  | String c r => if allWhiteSpace s then EmptyString else String c (trimEnd r)
  | EmptyString => EmptyString
  end.

(** [s.trim()] *)
Definition trim (s : string) : string := trimEnd (trimStart s).

(** [s.replace(a, b)] with a one-character string pattern: only the
    first occurrence is replaced. *)
Fixpoint replaceFirst (a b : ascii) (s : string) : string :=
  match s with
  | String c r => if Ascii.eqb c a then String b r else String c (replaceFirst a b r)
  | EmptyString => EmptyString
  end.

(** [s.replace(/[^...]/g, '')]: keep the characters satisfying [keep]. *)
Fixpoint keepChars (keep : ascii -> bool) (s : string) : string :=
  match s with
  | String c r => if keep c then String c (keepChars keep r) else keepChars keep r
  | EmptyString => EmptyString
  end.

(** [s.split(sep)] where every separator is one character. *)
Fixpoint splitBy (sep : ascii -> bool) (s : string) : list string :=
  match s with
  | EmptyString => [EmptyString]
  | String c r =>
      if sep c then EmptyString :: splitBy sep r
      else match splitBy sep r with
           | h :: t => String c h :: t
           | [] => [String c EmptyString]
           end
  end.

(** [s.split(re)] for a regular expression [re] that matches one
    character at a time; [sepAt] gives the number of bytes of the
    separator with which a string begins, 0 when it begins with none. *)
Fixpoint splitWhere (sepAt : string -> nat) (s : string) : list string :=
  match s with
  | EmptyString => [EmptyString]
  | String c r =>
      match sepAt s with
      | 0%nat =>
          match splitWhere sepAt r with
          | h :: t => String c h :: t
          | [] => [String c EmptyString]
          end
      | 1%nat => EmptyString :: splitWhere sepAt r
      | 2%nat =>
          match r with
          | String _ r2 => EmptyString :: splitWhere sepAt r2
          | EmptyString => [EmptyString; EmptyString]
          end
      | _ =>
          match r with
          | String _ (String _ r3) => EmptyString :: splitWhere sepAt r3
          | _ => [EmptyString; EmptyString]
          end
      end
  end.

(** [xs[i]] on an array of strings, used where the length was checked. *)
Definition part (i : nat) (xs : list string) : string := nth i xs EmptyString.

(** The longest prefix of decimal digits, and what follows it. *)
Fixpoint spanDigits (s : string) : string * string :=
  match s with
  | String c r =>
      if isDigit c then let (d, rest) := spanDigits r in (String c d, rest)
      else (EmptyString, s)
  | EmptyString => (EmptyString, EmptyString)
  end.

Fixpoint digitsValue (acc : Z) (s : string) : Z :=
  match s with
  | String c r => digitsValue (10 * acc + digitValue c) r
  | EmptyString => acc
  end.

(** The longest prefix of hexadecimal digits: its value and its length. *)
Fixpoint hexPrefix (acc : Z) (n : nat) (s : string) : Z * nat :=
  match s with
  | String c r =>
      match hexValue c with
      | Some v => hexPrefix (16 * acc + v) (S n) r
      | None => (acc, n)
      end
  | EmptyString => (acc, n)
  end.

Definition splitSign (s : string) : bool * string :=
  match s with
  | String "-" r => (true, r)
  | String "+" r => (false, r)
  | _ => (false, s)
  end.

Definition signed (neg : bool) (x : number) : number :=
  if neg then (- x)%float else x.

(** [parseInt(s)] with no radix argument. *)
Definition parseInt (s : string) : number :=
  let (neg, s1) := splitSign (trimStart s) in
  match s1 with
  | String "0" (String x r) =>
      if Ascii.eqb x "x" || Ascii.eqb x "X" then
        let (v, n) := hexPrefix 0 0 r in
        match n with O => NaN | _ => signed neg (ofZ v) end
      else
        signed neg (ofZ (digitsValue 0 (fst (spanDigits s1))))
  | _ =>
      let d := fst (spanDigits s1) in
      if isEmpty d then NaN else signed neg (ofZ (digitsValue 0 d))
  end.

(** [parseFloat(s)] on the strings [parseValue] passes to it, which
    hold only digits, dots and minus signs: an optional sign, then
    digits with an optional fraction; the exponent and [Infinity] forms
    of the full grammar cannot occur there. *)
Definition parseFloat (s : string) : number :=
  let (neg, s1) := splitSign (trimStart s) in
  let (ip, r1) := spanDigits s1 in
  let fp := match r1 with
            | String "." r2 => fst (spanDigits r2)
            | _ => EmptyString
            end in
  if isEmpty ip && isEmpty fp then NaN
  else signed neg (decimalToNumber (digitsValue 0 (ip ++ fp)) (String.length fp)).

(* ================================================================== *)
(** * Dates: the time-value arithmetic of ECMAScript (section 21.4.1) *)
(* ================================================================== *)

(** A [Date] object, reduced to its time value. *)
Inductive Date : Set :=
  | InvalidDate
  | DateOf (tv : Z).

(** [d.getTime()]; [None] stands for NaN. *)
Definition getTime (d : Date) : option Z :=
  match d with DateOf t => Some t | InvalidDate => None end.

Definition isValidDate (d : Date) : bool :=
  match d with DateOf _ => true | InvalidDate => false end.

Definition msPerSecond : Z := 1000.
Definition msPerMinute : Z := 60000.
Definition msPerHour : Z := 3600000.
Definition msPerDay : Z := 86400000.

Definition maxTime : Z := 8640000000000000.

Definition TimeClip (t : Z) : Date :=
  if Z.abs t <=? maxTime then DateOf t else InvalidDate.

Definition Day (t : Z) : Z := t / msPerDay.
Definition HourFromTime (t : Z) : Z := (t / msPerHour) mod 24.
Definition MinFromTime (t : Z) : Z := (t / msPerMinute) mod 60.

Definition DayFromYear (y : Z) : Z :=
  365 * (y - 1970) + (y - 1969) / 4 - (y - 1901) / 100 + (y - 1601) / 400.

Definition TimeFromYear (y : Z) : Z := msPerDay * DayFromYear y.

Definition isLeapYear (y : Z) : bool :=
  (y mod 4 =? 0) && (negb (y mod 100 =? 0) || (y mod 400 =? 0)).

(** [YearFromTime t] is the largest [y] with [TimeFromYear y <= t]; it is
    found by stepping up from an under-estimate. *)
Fixpoint yearLoop (fuel : nat) (d y : Z) : Z :=
  match fuel with
  | O => y
  | S fuel' => if DayFromYear (y + 1) <=? d then yearLoop fuel' d (y + 1) else y
  end.

Definition YearFromDay (d : Z) : Z :=
  let y0 := 1970 + Z.min (d / 365) (d / 366) in
  yearLoop (Z.to_nat ((d - DayFromYear y0) / 365 + 1)) d y0.

Definition YearFromTime (t : Z) : Z := YearFromDay (Day t).

(** Days from 1 January to the first day of month [mn] (0 = January). *)
Definition monthStart (leap : bool) (mn : Z) : Z :=
  nth (Z.to_nat mn) [0; 31; 59; 90; 120; 151; 181; 212; 243; 273; 304; 334] 0
  + (if leap && (2 <=? mn) then 1 else 0).

Definition MakeTime (hour min sec ms : Z) : Z :=
  hour * msPerHour + min * msPerMinute + sec * msPerSecond + ms.

Definition MakeDate (day time : Z) : Z := day * msPerDay + time.

(** [None] when the month does not start on a representable time value. *)
Definition MakeDay (year month date : Z) : option Z :=
  let ym := year + month / 12 in
  let mn := month mod 12 in
  let day0 := DayFromYear ym + monthStart (isLeapYear ym) mn in
  if Z.abs (day0 * msPerDay) <=? maxTime then Some (day0 + date - 1) else None.

Definition TimeWithinDay (t : Z) : Z := t mod msPerDay.

Definition DayWithinYear (t : Z) : Z := Day t - DayFromYear (YearFromTime t).

(** Month number, 0 = January. *)
Definition MonthFromTime (t : Z) : Z :=
  let leap := isLeapYear (YearFromTime t) in
  let d := DayWithinYear t in
  Z.of_nat (List.length (filter (fun mn => monthStart leap mn <=? d)
                           [1; 2; 3; 4; 5; 6; 7; 8; 9; 10; 11])).

(** Day of the month, from 1. *)
Definition DateFromTime (t : Z) : Z :=
  DayWithinYear t - monthStart (isLeapYear (YearFromTime t)) (MonthFromTime t) + 1.

(** [new Date(x)] for a number [x]. *)
Definition newDateOfNumber (x : number) : Date :=
  match truncFinite x with
  | Some t => TimeClip t
  | None => InvalidDate
  end.

(** The conversion that [parseDateTime] applies to a spreadsheet serial:
    [new Date((serial - 25569) * 86400 * 1000)]. *)
Definition serialToDate (serial : number) : Date :=
  newDateOfNumber ((serial - 25569) * 86400 * 1000)%float.

(* ================================================================== *)
(** * Cell values and the host *)
(* ================================================================== *)

(** What a cell of the row matrix can hold. *)
Inductive value : Set :=
  | VUndefined
  | VNull
  | VBoolean (b : bool)
  | VNumber (x : number)
  | VString (s : string)
  | VDate (d : Date).

(** What ECMAScript leaves to the implementation. *)
Record Host : Set := {
  (** offset of local time from UTC, in milliseconds *)
  LocalTZA : Z;
  (** the time value of [new Date()] *)
  currentTime : Z;
  (** [new Date(s)] for a string [s] *)
  DateParse : string -> Date;
  (** [String(x)] for a number and for a Date *)
  NumberToString : number -> string;
  DateToString : Date -> string;
  (** [d.toLocaleDateString('pt-PT')] *)
  toLocaleDateString : Date -> string;
  (** [d.toLocaleTimeString('pt-PT', {hour: '2-digit', minute: '2-digit'})] *)
  toLocaleTimeString : Date -> string;
  (** [d.toLocaleString('pt-PT')] *)
  toLocaleString : Date -> string;
  (** [d.toLocaleString('pt-PT', {month: 'long', year: 'numeric'})] *)
  toLocaleMonthString : Date -> string;
  (** [d.toLocaleString('pt-PT', {month: 'short', day: '2-digit',
      hour: '2-digit', minute: '2-digit'})] *)
  toLocaleHourLabel : Date -> string
}.

(* ================================================================== *)
(** * The records of [types.ts] and of [dataService.ts] *)
(* ================================================================== *)

Module TelemetryRow.
Record t : Set := mk {
  timestamp : Date;
  activePower : number;
  inductivePower : number;
  capacitivePower : number
}.
End TelemetryRow.

Module HourlyData.
Record t : Set := mk {
  timestamp : Date;
  hourLabel : string;
  activeAvg : number;
  activeMax : number;
  activeMin : number;
  inductiveAvg : number;
  inductiveMax : number;
  inductiveMin : number;
  capacitiveAvg : number;
  capacitiveMax : number;
  capacitiveMin : number
}.
End HourlyData.

(** Row and column anchors are array indices; an optional field is
    [None] when it is [undefined]. *)
Record ColumnMapping : Set := {
  dateCol : Z;
  dateRow : Z;
  timeCol : option Z;
  timeRow : option Z;
  activeCol : Z;
  activeRow : Z;
  inductiveCol : Z;
  inductiveRow : Z;
  capacitiveCol : Z;
  capacitiveRow : Z;
  cpeRow : option Z;
  cpeCol : option Z
}.

Inductive Resolution : Set := hourly | daily | monthly.

Record ExportColumns : Set := {
  active : bool;
  inductive : bool;
  capacitive : bool
}.

Record ExportConfig : Set := {
  resolution : Resolution;
  splitDateTime : bool;
  columns : ExportColumns
}.

(** An element of [processedData] in [generateCSV]. *)
Module Processed.
Record t : Set := mk {
  timestamp : Date;
  date : string;
  time : string;
  dateTime : string;
  active : number;
  inductive : number;
  capacitive : number
}.
End Processed.

(** A value of the [grouped] object of [generateCSV]. *)
Module DayGroup.
Record t : Set := mk {
  timestamp : Date;
  count : Z;
  actSum : number;
  indSum : number;
  capSum : number
}.
End DayGroup.

(** The row matrix of a sheet: [jsonData]. *)
Definition grid : Set := list (list value).

(** [jsonData[i]]; [None] is [undefined] (index out of bounds). *)
Definition rowAt (jsonData : grid) (i : Z) : option (list value) :=
  if i <? 0 then None else nth_error jsonData (Z.to_nat i).

(** [row[j]] *)
Definition cellAt (row : list value) (j : Z) : value :=
  if j <? 0 then VUndefined else nth (Z.to_nat j) row VUndefined.

(** Truthiness of a cell value. *)
Definition truthy (v : value) : bool :=
  match v with
  | VUndefined | VNull => false
  | VBoolean b => b
  | VNumber x => negb (is_zero x || isNaN x)
  | VString s => negb (isEmpty s)
  | VDate _ => true
  end.

(* ================================================================== *)
(** * [Array.prototype.sort] *)
(* ================================================================== *)

(** ECMAScript requires the sort to be stable and leaves the algorithm
    open; for a consistent comparator every stable sort returns the same
    array, here computed by insertion.  A comparator returns a number;
    [None] stands for NaN, which the sort treats as [+0]. *)
Definition notAfter (v : option Z) : bool :=
  match v with Some z => z <=? 0 | None => true end.

Fixpoint insertSorted {A : Type} (cmp : A -> A -> option Z) (x : A) (l : list A) : list A :=
  match l with
  | [] => [x]
  | y :: l' => if notAfter (cmp x y) then x :: l else y :: insertSorted cmp x l'
  end.

Fixpoint sortBy {A : Type} (cmp : A -> A -> option Z) (l : list A) : list A :=
  match l with
  | [] => []
  | x :: l' => insertSorted cmp x (sortBy cmp l')
  end.

(** [a.getTime() - b.getTime()] *)
Definition timeDiff (a b : Date) : option Z :=
  match getTime a, getTime b with
  | Some x, Some y => Some (x - y)
  | _, _ => None
  end.

(** [xs.reduce((a, b) => a + b, 0)] *)
Definition sum (xs : list number) : number :=
  fold_left (fun a b => (a + b)%float) xs 0%float.

(** [xs.join(sep)] *)
Fixpoint join (sep : string) (xs : list string) : string :=
  match xs with
  | [] => ""
  | [x] => x
  | x :: rest => x ++ sep ++ join sep rest
  end.

Section WithHost.

Context (h : Host).

Definition LocalTime (t : Z) : Z := t + LocalTZA h.
Definition UTC (t : Z) : Z := t - LocalTZA h.

(** [String(v)] *)
Definition ToString (v : value) : string :=
  match v with
  | VUndefined => "undefined"
  | VNull => "null"
  | VBoolean true => "true"
  | VBoolean false => "false"
  | VNumber x => NumberToString h x
  | VString s => s
  | VDate d => DateToString h d
  end.

(** [d.getFullYear()]; [None] stands for NaN. *)
Definition getFullYear (d : Date) : option Z :=
  match d with
  | DateOf t => Some (YearFromTime (LocalTime t))
  | InvalidDate => None
  end.

(** [d.setHours(hours, minutes, 0, 0)] *)
Definition setHours (d : Date) (hours minutes : number) : Date :=
  match d, truncFinite hours, truncFinite minutes with
  | DateOf tv, Some hh, Some mm =>
      let t := LocalTime tv in
      TimeClip (UTC (MakeDate (Day t) (MakeTime hh mm 0 0)))
  | _, _, _ => InvalidDate
  end.

(** [d.setMinutes(0, 0, 0)] *)
Definition setMinutes0 (d : Date) : Date :=
  match d with
  | DateOf tv =>
      let t := LocalTime tv in
      TimeClip (UTC (MakeDate (Day t) (MakeTime (HourFromTime t) 0 0 0)))
  | InvalidDate => InvalidDate
  end.

(** [d.setSeconds(0, 0)] *)
Definition setSeconds0 (d : Date) : Date :=
  match d with
  | DateOf tv =>
      let t := LocalTime tv in
      TimeClip (UTC (MakeDate (Day t) (MakeTime (HourFromTime t) (MinFromTime t) 0 0)))
  | InvalidDate => InvalidDate
  end.

(** [new Date(year, month, date, hours, minutes)], in local time; the
    three-argument form is the case [hours = minutes = 0]. *)
Definition newDateLocal (year month date hours minutes : number) : Date :=
  match truncFinite year, truncFinite month, truncFinite date,
        truncFinite hours, truncFinite minutes with
  | Some y, Some m, Some dt, Some hh, Some mm =>
      let yr := if (0 <=? y) && (y <=? 99) then 1900 + y else y in
      match MakeDay yr m dt with
      | Some day => TimeClip (UTC (MakeDate day (MakeTime hh mm 0 0)))
      | None => InvalidDate
      end
  | _, _, _, _, _ => InvalidDate
  end.

(* ================================================================== *)
(** * [parseValue] *)
(* ================================================================== *)

(** The characters that [/[^0-9.-]/g] leaves in place. *)
Definition isNumberChar (c : ascii) : bool :=
  isDigit c || Ascii.eqb c "." || Ascii.eqb c "-".

Definition parseValue (val : value) : number :=
  match val with
  | VNumber x => x
  | VString s =>
      let cleanStr := replaceFirst "," "." (trim s) in
      let numberOnly := keepChars isNumberChar cleanStr in
      let num := parseFloat numberOnly in
      if isNaN num then 0%float else num
  | _ => 0%float
  end.

(* ================================================================== *)
(** * [parseDateTime] *)
(* ================================================================== *)

(** [timeVal !== undefined && timeVal !== null &&
     String(timeVal).trim() !== ''] *)
Definition hasTimeCell (timeVal : value) : bool :=
  match timeVal with
  | VUndefined | VNull => false
  | _ => negb (isEmpty (trim (ToString timeVal)))
  end.

(** [/[\/\-\s]/] and [/[\/\-\s:]/]: the number of bytes of the
    separator with which a string begins. *)
Definition dateSepAt (s : string) : nat :=
  match s with
  | String c _ =>
      if Ascii.eqb c "/" || Ascii.eqb c "-" then 1%nat else whiteSpaceAt s
  | EmptyString => 0%nat
  end.

Definition dateTimeSepAt (s : string) : nat :=
  match s with
  | String c _ => if Ascii.eqb c ":" then 1%nat else dateSepAt s
  | EmptyString => 0%nat
  end.

Definition isColon (c : ascii) : bool := Ascii.eqb c ":".

(** Sub-case 1.2, step 1: the date part [d]. *)
Definition datePart (dateVal : value) : Date :=
  match dateVal with
  | VNumber x => serialToDate x
  | VDate d0 => d0
  | _ =>
      let dStr := trim (ToString dateVal) in
      let parts := splitWhere dateSepAt dStr in
      if (3 <=? List.length parts)%nat then
        let p1 := parseInt (part 0 parts) in
        let p2 := parseInt (part 1 parts) in
        let p3 := parseInt (part 2 parts) in
        if (1000 <? p3)%float then newDateLocal p3 (p2 - 1)%float p1 0%float 0%float
        else if (1000 <? p1)%float then newDateLocal p1 (p2 - 1)%float p3 0%float 0%float
        else DateOf (currentTime h)
      else DateParse h dStr
  end.

(** Sub-case 1.2, step 2: [(hours, minutes)]. *)
Definition timePart (timeVal : value) : number * number :=
  match timeVal with
  | VNumber x =>
      let totalSeconds := Math_round (x * 86400)%float in
      (Math_floor (totalSeconds / 3600)%float,
       Math_floor (rem totalSeconds 3600%float / 60)%float)
  | _ =>
      let tStr := trim (ToString timeVal) in
      let tParts := splitBy isColon tStr in
      if (2 <=? List.length tParts)%nat then
        (parseInt (part 0 tParts), parseInt (part 1 tParts))
      else (0%float, 0%float)
  end.

(** The value of [finalDate] when control reaches the validity gate;
    [None] is [null]. *)
Definition resolveDate (dateVal timeVal : value) : option Date :=
  if hasTimeCell timeVal then
    match dateVal, timeVal with
    | VNumber dv, VNumber tv =>
        let total := (Math_floor dv + rem tv 1)%float in
        Some (serialToDate total)
    | _, _ =>
        let d := datePart dateVal in
        let (hours, minutes) := timePart timeVal in
        if isValidDate d then Some (setHours d hours minutes) else None
    end
  else
    match dateVal with
    | VNumber dv => Some (serialToDate dv)
    | VString s =>
        let d := DateParse h s in
        let d :=
          if isValidDate d then d
          else
            let parts := splitWhere dateTimeSepAt s in
            if (5 <=? List.length parts)%nat then
              newDateLocal (parseInt (part 2 parts))
                           (parseInt (part 1 parts) - 1)%float
                           (parseInt (part 0 parts))
                           (parseInt (part 3 parts))
                           (parseInt (part 4 parts))
            else d in
        if isValidDate d then Some d else None
    | _ => None
    end.

(** The validity gate: [finalDate && !isNaN(finalDate.getTime()) &&
    finalDate.getFullYear() > 1990]. *)
Definition passesGate (finalDate : option Date) : bool :=
  match finalDate with
  | Some d =>
      isValidDate d &&
      match getFullYear d with Some y => 1990 <? y | None => false end
  | None => false
  end.

Definition parseDateTime (dateVal timeVal : value) : option Date :=
  let finalDate := resolveDate dateVal timeVal in
  if passesGate finalDate then
    match finalDate with
    | Some d => Some (setSeconds0 d)
    | None => None
    end
  else None.

(* ================================================================== *)
(** * [parseExcelFiles] *)
(* ================================================================== *)

(** [jsonData[i + offset] ? parseValue(jsonData[i + offset][col]) : 0] *)
Definition readQuantity (jsonData : grid) (i offset col : Z) : number :=
  match rowAt jsonData (i + offset) with
  | Some r => parseValue (cellAt r col)
  | None => 0%float
  end.

Definition timeOffset (mapping : ColumnMapping) : Z :=
  match timeRow mapping with
  | Some tr => tr - dateRow mapping
  | None => 0
  end.

(** The time cell of data row [i]. *)
Definition readTimeVal (jsonData : grid) (mapping : ColumnMapping) (i : Z) : value :=
  match timeCol mapping with
  | Some tc =>
      match rowAt jsonData (i + timeOffset mapping) with
      | Some r => cellAt r tc
      | None => VUndefined
      end
  | None => VUndefined
  end.

(** One turn of the inner loop, for data row [i]: [allRows] after it. *)
Definition extractRow (jsonData : grid) (mapping : ColumnMapping) (i : Z)
    (allRows : list TelemetryRow.t) : list TelemetryRow.t :=
  match rowAt jsonData i with
  | None | Some [] => allRows
  | Some row =>
      let dateVal := cellAt row (dateCol mapping) in
      let timeVal := readTimeVal jsonData mapping i in
      match parseDateTime dateVal timeVal with
      | Some date =>
          let activeOffset := activeRow mapping - dateRow mapping in
          let inductiveOffset := inductiveRow mapping - dateRow mapping in
          let capacitiveOffset := capacitiveRow mapping - dateRow mapping in
          allRows ++
          [TelemetryRow.mk date
             (readQuantity jsonData i activeOffset (activeCol mapping))
             (readQuantity jsonData i inductiveOffset (inductiveCol mapping))
             (readQuantity jsonData i capacitiveOffset (capacitiveCol mapping))]
      | None => allRows
      end
  end.

(** [for (let i = ...; i < jsonData.length; i++)], with [n] turns left. *)
Fixpoint rowLoop (jsonData : grid) (mapping : ColumnMapping) (n : nat) (i : Z)
    (allRows : list TelemetryRow.t) : list TelemetryRow.t :=
  match n with
  | O => allRows
  | S n' => rowLoop jsonData mapping n' (i + 1) (extractRow jsonData mapping i allRows)
  end.

(** The inner loop over one file. *)
Definition extractFile (jsonData : grid) (mapping : ColumnMapping)
    (allRows : list TelemetryRow.t) : list TelemetryRow.t :=
  rowLoop jsonData mapping
    (Z.to_nat (Z.of_nat (List.length jsonData) - dateRow mapping))
    (dateRow mapping) allRows.

(** The CPE cell, read from the first file only. *)
Definition readCpe (jsonData : grid) (mapping : ColumnMapping) (fIndex : nat)
    (detectedCpe : option string) : option string :=
  match fIndex, cpeRow mapping, cpeCol mapping with
  | O, Some cr, Some cc =>
      match rowAt jsonData cr with
      | Some row =>
          if truthy (cellAt row cc) then Some (trim (ToString (cellAt row cc)))
          else detectedCpe
      | None => detectedCpe
      end
  | _, _, _ => detectedCpe
  end.

(** The outer loop over the files, threading [allRows] and
    [detectedCpe]. *)
Fixpoint fileLoop (files : list grid) (mapping : ColumnMapping) (fIndex : nat)
    (allRows : list TelemetryRow.t) (detectedCpe : option string)
    : list TelemetryRow.t * option string :=
  match files with
  | [] => (allRows, detectedCpe)
  | jsonData :: rest =>
      let detectedCpe := readCpe jsonData mapping fIndex detectedCpe in
      let allRows := extractFile jsonData mapping allRows in
      fileLoop rest mapping (S fIndex) allRows detectedCpe
  end.

Definition byTimestamp (a b : TelemetryRow.t) : option Z :=
  timeDiff (TelemetryRow.timestamp a) (TelemetryRow.timestamp b).

(** Each file is given as the row matrix of its first sheet. *)
Definition parseExcelFiles (files : list grid) (mapping : ColumnMapping)
    : list TelemetryRow.t * option string :=
  let (allRows, detectedCpe) := fileLoop files mapping 0 [] None in
  (sortBy byTimestamp allRows, detectedCpe).

(* ================================================================== *)
(** * [aggregateToHourly] *)
(* ================================================================== *)

(** The object [grouped]: its keys in insertion order.  A key is the
    ISO-8601 string of an hour start; [toISOString] and [new Date(key)]
    are inverse bijections between the valid time values and these
    strings, so the key is kept as the time value it denotes. *)
Definition hourGroups : Set := list (Z * list TelemetryRow.t).

(** [if (!grouped[key]) grouped[key] = []; grouped[key].push(row)] *)
Fixpoint pushGroup (key : Z) (row : TelemetryRow.t) (grouped : hourGroups) : hourGroups :=
  match grouped with
  | [] => [(key, [row])]
  | (k, rs) :: rest =>
      if k =? key then (k, rs ++ [row]) :: rest
      else (k, rs) :: pushGroup key row rest
  end.

(** The key of a row; [None] when [toISOString] throws a [RangeError]
    (invalid date). *)
Definition hourKey (row : TelemetryRow.t) : option Z :=
  getTime (setMinutes0 (TelemetryRow.timestamp row)).

Fixpoint groupRows (rows : list TelemetryRow.t) (grouped : hourGroups) : option hourGroups :=
  match rows with
  | [] => Some grouped
  | row :: rest =>
      match hourKey row with
      | Some key => groupRows rest (pushGroup key row grouped)
      | None => None
      end
  end.

(** [xs.reduce((a, b) => a + b, 0) / group.length], where [xs] has the
    length of the group. *)
Definition average (xs : list number) : number :=
  (sum xs / ofZ (Z.of_nat (List.length xs)))%float.

Definition hourlyRecord (key : Z) (group : list TelemetryRow.t) : HourlyData.t :=
  let date := DateOf key in
  let actives := map TelemetryRow.activePower group in
  let activeAvg := average actives in
  let inductives := map TelemetryRow.inductivePower group in
  let inductiveAvg := average inductives in
  let capacitives := map TelemetryRow.capacitivePower group in
  let capAvg := average capacitives in
  HourlyData.mk date (toLocaleHourLabel h date)
    activeAvg (Math_max actives) (Math_min actives)
    inductiveAvg (Math_max inductives) (Math_min inductives)
    capAvg (Math_max capacitives) (Math_min capacitives).

Definition byHour (a b : HourlyData.t) : option Z :=
  timeDiff (HourlyData.timestamp a) (HourlyData.timestamp b).

(** [None] when the function throws. *)
Definition aggregateToHourly (rows : list TelemetryRow.t) : option (list HourlyData.t) :=
  match groupRows rows [] with
  | Some grouped =>
      Some (sortBy byHour (map (fun kg => hourlyRecord (fst kg) (snd kg)) grouped))
  | None => None
  end.

(* ================================================================== *)
(** * [generateCSV] *)
(* ================================================================== *)

(** Decimal digits of a natural number. *)
Definition decimalDigits (n : Z) : string :=
  NilZero.string_of_uint (N.to_uint (Z.to_N n)).

(** [x.toFixed(2)]: the integer [n] nearest to [100 * |x|] (the larger
    one on a tie), printed with a dot before its last two digits. *)
Definition toFixed2 (x : number) : string :=
  match Prim2SF x with
  | S754_nan => "NaN"
  | S754_infinity s => if s then "-Infinity" else "Infinity"
  | S754_zero _ => "0.00"
  | S754_finite s m e =>
      if (1e21 <=? abs x)%float then NumberToString h x
      else
        let n := if 0 <=? e then Zpos m * 2 ^ e * 100
                 else (2 * (Zpos m * 100) + 2 ^ (- e)) / (2 * 2 ^ (- e)) in
        let ds := decimalDigits n in
        let ds := match String.length ds with
                  | 1%nat => ("00" ++ ds)%string
                  | 2%nat => ("0" ++ ds)%string
                  | _ => ds
                  end in
        let k := String.length ds in
        ((if s then "-" else "")
         ++ substring 0 (k - 2) ds ++ "." ++ substring (k - 2) 2 ds)%string
  end.

(** [x.toFixed(2).replace('.', ',')] *)
Definition formatValue (x : number) : string :=
  replaceFirst "." "," (toFixed2 x).

(** [d.setDate(1)] *)
Definition setDate1 (d : Date) : Date :=
  match d with
  | DateOf tv =>
      let t := LocalTime tv in
      match MakeDay (YearFromTime t) (MonthFromTime t) 1 with
      | Some day => TimeClip (UTC (MakeDate day (TimeWithinDay t)))
      | None => InvalidDate
      end
  | InvalidDate => InvalidDate
  end.

(** The object [grouped] of the daily and monthly branch: keys in
    insertion order (a date or month label is never an array index, so
    [Object.keys] lists the keys in that order). *)
Definition periodGroups : Set := list (string * DayGroup.t).

(** [grouped[key].count++; grouped[key].actSum += d.activeAvg; ...] *)
Definition accumulate (g : DayGroup.t) (d : HourlyData.t) : DayGroup.t :=
  DayGroup.mk (DayGroup.timestamp g) (DayGroup.count g + 1)
    (DayGroup.actSum g + HourlyData.activeAvg d)%float
    (DayGroup.indSum g + HourlyData.inductiveAvg d)%float
    (DayGroup.capSum g + HourlyData.capacitiveAvg d)%float.

Fixpoint addToGroup (key : string) (ts : Date) (d : HourlyData.t)
    (grouped : periodGroups) : periodGroups :=
  match grouped with
  | [] => [(key, accumulate (DayGroup.mk ts 0 0%float 0%float 0%float) d)]
  | (k, g) :: rest =>
      if String.eqb k key then (k, accumulate g d) :: rest
      else (k, g) :: addToGroup key ts d rest
  end.

(** The key and the period start of a record, for [daily] and for
    [monthly]. *)
Definition periodKey (res : Resolution) (d : HourlyData.t) : string * Date :=
  let ts := HourlyData.timestamp d in
  match res with
  | daily => (toLocaleDateString h ts, setHours ts 0%float 0%float)
  | _ => (toLocaleMonthString h ts, setHours (setDate1 ts) 0%float 0%float)
  end.

Definition groupPeriods (res : Resolution) (data : list HourlyData.t) : periodGroups :=
  fold_left (fun grouped d =>
               let (key, ts) := periodKey res d in addToGroup key ts d grouped)
            data [].

(** Step 1: [processedData]. *)
Definition processData (data : list HourlyData.t) (config : ExportConfig)
    : list Processed.t :=
  match resolution config with
  | hourly =>
      map (fun d =>
             let ts := HourlyData.timestamp d in
             Processed.mk ts (toLocaleDateString h ts) (toLocaleTimeString h ts)
               (toLocaleString h ts)
               (HourlyData.activeAvg d) (HourlyData.inductiveAvg d)
               (HourlyData.capacitiveAvg d))
          data
  | res =>
      map (fun kg =>
             let k := fst kg in
             let g := snd kg in
             Processed.mk (DayGroup.timestamp g) k "" k
               (DayGroup.actSum g) (DayGroup.indSum g) (DayGroup.capSum g))
          (groupPeriods res data)
  end.

Definition isHourly (config : ExportConfig) : bool :=
  match resolution config with hourly => true | _ => false end.

(** [arr.push(x)] under a condition. *)
Definition pushIf (c : bool) (x : string) (arr : list string) : list string :=
  if c then arr ++ [x] else arr.

(** Step 2: the header row. *)
Definition headers (config : ExportConfig) : list string :=
  let hs := if splitDateTime config
            then pushIf (isHourly config) "Hora" ["Data"]
            else ["Período"] in
  let hs := pushIf (active (columns config))
              (if isHourly config then "Ativa (kW)" else "Ativa (kWh)") hs in
  let hs := pushIf (inductive (columns config))
              (if isHourly config then "Indutiva (kVAr)" else "Indutiva (kVArh)") hs in
  pushIf (capacitive (columns config))
    (if isHourly config then "Capacitiva (kVAr)" else "Capacitiva (kVArh)") hs.

(** Step 3: one data row. *)
Definition buildRow (config : ExportConfig) (d : Processed.t) : list string :=
  let row := if splitDateTime config
             then pushIf (isHourly config) (Processed.time d) [Processed.date d]
             else [Processed.dateTime d] in
  let row := pushIf (active (columns config)) (formatValue (Processed.active d)) row in
  let row := pushIf (inductive (columns config)) (formatValue (Processed.inductive d)) row in
  pushIf (capacitive (columns config)) (formatValue (Processed.capacitive d)) row.

Definition exportRows (data : list HourlyData.t) (config : ExportConfig)
    : list (list string) :=
  map (buildRow config) (processData data config).

(** The byte-order mark, as its three UTF-8 bytes. *)
Definition BOM : string :=
  String (ascii_of_nat 239) (String (ascii_of_nat 187) (String (ascii_of_nat 191) "")).

Definition newline : string := String (ascii_of_nat 10) "".

(** Step 4: [csvContent], the text that step 5 hands to the browser as a
    download. *)
Definition generateCSV (data : list HourlyData.t) (config : ExportConfig) : string :=
  (BOM ++ join newline
            (join ";" (headers config) :: map (join ";") (exportRows data config)))%string.

End WithHost.

(* ================================================================== *)
(** * Hosts *)
(* ================================================================== *)

(** What the properties below assume of a host: a zone offset of a
    whole number of minutes, less than a day; a [String(x)] that is
    never blank for a number [x] (ECMAScript prints a number as [NaN],
    [Infinity] or with digits); and a [Date] parser whose results are
    time values (at most 8.64e15 ms from the epoch). *)
Record HostOK (h : Host) : Prop := {
  tza_bounded : Z.abs (LocalTZA h) < msPerDay;
  tza_whole_minutes : LocalTZA h mod msPerMinute = 0;
  number_string_not_blank : forall x, isEmpty (trim (NumberToString h x)) = false;
  date_parse_in_range : forall s t, DateParse h s = DateOf t -> Z.abs t <= maxTime
}.

Definition pad2 (n : Z) : string :=
  let s := decimalDigits n in
  if (String.length s <? 2)%nat then ("0" ++ s)%string else s.

(** [dd/mm/yyyy] and [hh:mm] of a local time. *)
Definition ptDate (t : Z) : string :=
  (pad2 (DateFromTime t) ++ "/" ++ pad2 (MonthFromTime t + 1) ++ "/"
   ++ decimalDigits (YearFromTime t))%string.

Definition ptTime (t : Z) : string :=
  (pad2 (HourFromTime t) ++ ":" ++ pad2 (MinFromTime t))%string.

Definition ptMonthName (mn : Z) : string :=
  nth (Z.to_nat mn)
    ["janeiro"; "fevereiro"; "março"; "abril"; "maio"; "junho"; "julho";
     "agosto"; "setembro"; "outubro"; "novembro"; "dezembro"] "".

Definition onLocal (tza : Z) (f : Z -> string) (d : Date) : string :=
  match d with
  | DateOf t => f (t + tza)
  | InvalidDate => "Invalid Date"
  end.

Definition printNumber (x : number) : string :=
  match Prim2SF x with
  | S754_nan => "NaN"
  | S754_infinity s => if s then "-Infinity" else "Infinity"
  | S754_zero _ => "0"
  | S754_finite s m e =>
      let a := if 0 <=? e then Zpos m * 2 ^ e else Zpos m / 2 ^ (- e) in
      ((if s then "-" else "") ++ decimalDigits a)%string
  end.

(** A host for the examples: a Portuguese locale at a fixed offset
    [tza] from UTC.  Its [Date] parser recognises no free-form string
    (none of the strings of the examples is in a format that ECMAScript
    requires a host to recognise), and it prints a number by its integer
    part, with a minus sign when negative: the text of [String(x)] for a
    whole number [x] below 1e21 in size (no example prints another
    number). *)
Definition ptHost (tza : Z) : Host := {|
  LocalTZA := tza;
  currentTime := 1767225600000;
  DateParse := fun _ => InvalidDate;
  NumberToString := printNumber;
  DateToString := onLocal tza (fun t => (ptDate t ++ " " ++ ptTime t)%string);
  toLocaleDateString := onLocal tza ptDate;
  toLocaleTimeString := onLocal tza ptTime;
  toLocaleString :=
    onLocal tza (fun t => (ptDate t ++ ", " ++ ptTime t ++ ":"
                           ++ pad2 ((t / msPerSecond) mod 60))%string);
  toLocaleMonthString :=
    onLocal tza (fun t => (ptMonthName (MonthFromTime t) ++ " de "
                           ++ decimalDigits (YearFromTime t))%string);
  toLocaleHourLabel :=
    onLocal tza (fun t => (pad2 (DateFromTime t) ++ "/" ++ pad2 (MonthFromTime t + 1)
                           ++ ", " ++ ptTime t)%string)
|}.

(* ================================================================== *)
(** * Notions used to state the properties *)
(* ================================================================== *)


(** [x <= y] on numbers. *)
Definition numLe (x y : number) : Prop := (x <=? y)%float = true.



(** [numberOnly] in [parseValue]: the text that is parsed. *)
Definition numberOnly (s : string) : string :=
  keepChars isNumberChar (replaceFirst "," "." (trim s)).

Definition minusSign (neg : bool) : string := if neg then "-" else "".

(** The text does not begin with a digit. *)
Definition noDigitAt (s : string) : Prop :=
  match s with
  | String c _ => isDigit c = false
  | EmptyString => True
  end.

(** The text begins with no number: neither with a digit nor with a
    dot that a digit follows. *)
Definition noNumberAt (s : string) : Prop :=
  match s with
  | String c r => isDigit c = false /\ (c = "."%char -> noDigitAt r)
  | EmptyString => True
  end.



(** What holds of the statistics [avg], [max], [min] that a record keeps
    for the values [xs] of one quantity in its hour.  The average is the
    binary64 sum from 0 in reading order, divided by the count.  With a
    NaN among the values all three are NaN.  Without one, the maximum
    and the minimum are values of the hour that bound every value of
    the hour.  The average lies between them when the hour has a single
    reading, and when it has two readings with finite values whose sum
    does not overflow. *)
Definition statisticsOf (xs : list number) (avg mx mn : number) : Prop :=
  avg = (fold_left (fun a b => (a + b)%float) xs 0%float
         / ofZ (Z.of_nat (List.length xs)))%float /\
  mx = Math_max xs /\ mn = Math_min xs /\
  (existsb isNaN xs = true ->
     isNaN avg = true /\ isNaN mx = true /\ isNaN mn = true) /\
  (existsb isNaN xs = false ->
     In mx xs /\ In mn xs /\
     (forall x, In x xs -> numLe mn x /\ numLe x mx) /\
     numLe mn mx) /\
  (List.length xs = 1%nat -> existsb isNaN xs = false -> numLe mn avg /\ numLe avg mx) /\
  (List.length xs = 2%nat -> forallb isFinite xs = true -> isFinite (sum xs) = true ->
   numLe mn avg /\ numLe avg mx).


(** A timestamp on an hour boundary of local time, within the range of
    time values. *)
Definition hourAligned (h : Host) (d : Date) : Prop :=
  exists t, d = DateOf t /\ Z.abs t <= maxTime /\ LocalTime h t mod msPerHour = 0.

(** The time order on readings with valid timestamps. *)
Definition timeOrdered (a b : TelemetryRow.t) : Prop :=
  exists x y, TelemetryRow.timestamp a = DateOf x /\
              TelemetryRow.timestamp b = DateOf y /\ x <= y.

Definition atTime (t : Z) (r : TelemetryRow.t) : bool :=
  match TelemetryRow.timestamp r with
  | DateOf x => x =? t
  | InvalidDate => false
  end.

(** Re-summing by day, as the specification words it: the rows of an
    hourly export are grouped by their date, in order of first
    appearance, and each quantity is added up from zero. *)
Definition DaySums : Set := string * (number * number * number).

Fixpoint addToDay (key : string) (a i c : number) (acc : list DaySums) : list DaySums :=
  match acc with
  | [] => [(key, ((0 + a)%float, (0 + i)%float, (0 + c)%float))]
  | (k, (sa, si, sc)) :: rest =>
      if String.eqb k key then (k, ((sa + a)%float, (si + i)%float, (sc + c)%float)) :: rest
      else (k, (sa, si, sc)) :: addToDay key a i c rest
  end.

(** ... on the values of [processedData], before they are printed; *)
Definition resumByDay (hourlyRows : list Processed.t) : list DaySums :=
  fold_left (fun acc p =>
               addToDay (Processed.date p) (Processed.active p)
                 (Processed.inductive p) (Processed.capacitive p) acc)
            hourlyRows [].

Definition periodValues (p : Processed.t) : DaySums :=
  (Processed.date p,
   (Processed.active p, Processed.inductive p, Processed.capacitive p)).

(** The sums that a group of the daily export carries. *)
Definition daySumsOfGroup (kg : string * DayGroup.t) : DaySums :=
  (fst kg, (DayGroup.actSum (snd kg), DayGroup.indSum (snd kg), DayGroup.capSum (snd kg))).

(** ... and on the printed rows [date; time; active; inductive;
    capacitive] of an export, read back with [parseValue]. *)
Definition resumExportedByDay (rows : list (list string)) : list DaySums :=
  fold_left (fun acc row =>
               addToDay (part 0 row) (parseValue (VString (part 2 row)))
                 (parseValue (VString (part 3 row)))
                 (parseValue (VString (part 4 row))) acc)
            rows [].

(** The printed rows [date; active; inductive; capacitive] of a daily
    export, read back with [parseValue]. *)
Definition exportedDayValues (rows : list (list string)) : list DaySums :=
  map (fun row => (part 0 row,
                   (parseValue (VString (part 1 row)),
                    parseValue (VString (part 2 row)),
                    parseValue (VString (part 3 row)))))
      rows.

Definition allColumns : ExportColumns :=
  {| active := true; inductive := true; capacitive := true |}.

(** The time value of a reading with a valid timestamp. *)
Definition rowTime (r : TelemetryRow.t) : Z :=
  match TelemetryRow.timestamp r with
  | DateOf t => t
  | InvalidDate => 0
  end.

Definition validRow (r : TelemetryRow.t) : Prop :=
  isValidDate (TelemetryRow.timestamp r) = true.

(** The order of an array sorted by an integer key. *)
Definition keyLe {A : Type} (key : A -> Z) (a b : A) : Prop := key a <= key b.

(* ================================================================== *)
(** * Example data *)
(* ================================================================== *)

(** The mapping the import wizard starts from: the date in column 0,
    the three quantities in columns 1 to 3, data from row 1 on. *)
Definition defaultMapping : ColumnMapping := {|
  dateCol := 0; dateRow := 1;
  timeCol := None; timeRow := None;
  activeCol := 1; activeRow := 1;
  inductiveCol := 2; inductiveRow := 1;
  capacitiveCol := 3; capacitiveRow := 1;
  cpeRow := None; cpeCol := None
|}.

(** A sheet with three readings in the hour from 08:00 and one at
    09:00 on 1 January 2024, followed by a totals row. *)
Definition morningSheet : grid :=
  [ [VString "Data"; VString "Ativa"; VString "Indutiva"; VString "Capacitiva"];
    [VString "01/01/2024 08:00"; VString "0,1"; VString "0,004"; VNumber 0%float];
    [VString "01/01/2024 08:15"; VString "0,1"; VString "0,004"; VNumber 0%float];
    [VString "01/01/2024 08:30"; VString "0,1"; VString "0,004"; VNumber 0%float];
    [VString "01/01/2024 09:00"; VString "0,2"; VString "0,004"; VNumber 0%float];
    [VString "Total"; VString "0,5"] ].

(** A second file, whose first reading repeats the 09:00 instant. *)
Definition overlapSheet : grid :=
  [ [VString "Data"; VString "Ativa"; VString "Indutiva"; VString "Capacitiva"];
    [VString "01/01/2024 09:00"; VString "0,3"; VString "0"; VNumber 0%float];
    [VString "01/01/2024 07:00"; VString "0,4"; VString "0"; VNumber 0%float] ].

(** A mapping whose inductive column is anchored two rows below the date
    row and whose capacitive column is anchored one row above it. *)
Definition staggeredMapping : ColumnMapping := {|
  dateCol := 0; dateRow := 1;
  timeCol := None; timeRow := None;
  activeCol := 1; activeRow := 1;
  inductiveCol := 2; inductiveRow := 3;
  capacitiveCol := 3; capacitiveRow := 0;
  cpeRow := None; cpeCol := None
|}.

Definition exportAll (res : Resolution) : ExportConfig :=
  {| resolution := res; splitDateTime := true; columns := allColumns |}.

(** The readings of [morningSheet] and their hourly records. *)
Definition morningReadings : list TelemetryRow.t :=
  fst (parseExcelFiles (ptHost 0) [morningSheet] defaultMapping).

Definition morningRecords : list HourlyData.t :=
  match aggregateToHourly (ptHost 0) morningReadings with
  | Some recs => recs
  | None => []
  end.

(** The record of the hour from 09:00, which holds one reading. *)
Definition nineOClock : HourlyData.t :=
  hourlyRecord (ptHost 0) 1704099600000
    [TelemetryRow.mk (DateOf 1704099600000) 0.2%float 0.004%float 0%float].

(** Two readings in the hour from 10:00, and their record. *)
Definition tenOClockReadings : list TelemetryRow.t :=
  [ TelemetryRow.mk (DateOf 1704103200000) 0.1%float 0.004%float 0%float;
    TelemetryRow.mk (DateOf 1704105000000) 0.7%float 0.002%float 0%float ].

Definition tenOClock : HourlyData.t :=
  hourlyRecord (ptHost 0) 1704103200000 tenOClockReadings.

(** Two hours of a small load on 1 January 2024, and their records. *)
Definition smallLoadReadings : list TelemetryRow.t :=
  [ TelemetryRow.mk (DateOf 1704096000000) 1.5%float 0.004%float 0%float;
    TelemetryRow.mk (DateOf 1704099600000) 2.25%float 0.004%float 0%float ].

Definition smallLoadRecords : list HourlyData.t :=
  match aggregateToHourly (ptHost 0) smallLoadReadings with
  | Some recs => recs
  | None => []
  end.

(** The inductive value of a one-day list of sums. *)
Definition inductiveOfDay (days : list DaySums) : number :=
  match days with
  | [(_, (_, i, _))] => i
  | _ => NaN
  end.

(** A sheet with the date and the time of day in separate columns. *)
Definition splitSheet : grid :=
  [ [VString "Data"; VString "Hora"; VString "Ativa"];
    [VNumber 45000%float; VString "14:30"; VString "12,5"] ].

Definition splitMapping : ColumnMapping := {|
  dateCol := 0; dateRow := 1;
  timeCol := Some 1; timeRow := Some 1;
  activeCol := 2; activeRow := 1;
  inductiveCol := 3; inductiveRow := 1;
  capacitiveCol := 4; capacitiveRow := 1;
  cpeRow := Some 0; cpeCol := Some 2
|}.

(* ================================================================== *)
(** * Further notions used to state properties *)
(* ================================================================== *)

(** Every character of a string is a decimal digit. *)
Definition allDigits (s : string) : bool := forallb isDigit (list_ascii_of_string s).

(** Strictly earlier, on records with valid timestamps. *)
Definition hourBefore (a b : HourlyData.t) : Prop :=
  exists x y, HourlyData.timestamp a = DateOf x /\
              HourlyData.timestamp b = DateOf y /\ x < y.

(** The time value of a record with a valid timestamp. *)
Definition recordTime (rec : HourlyData.t) : Z :=
  match HourlyData.timestamp rec with
  | DateOf t => t
  | InvalidDate => 0
  end.

Definition validRecord (rec : HourlyData.t) : Prop :=
  isValidDate (HourlyData.timestamp rec) = true.

(** A reading belongs to the hour that starts at [key]. *)
Definition inHour (h : Host) (key : Z) (r : TelemetryRow.t) : bool :=
  match hourKey h r with
  | Some k => k =? key
  | None => false
  end.

(** The buckets [grouped] hold exactly the readings [seen] so far: each
    key once, with the readings of its hour in the order seen. *)
Definition bucketsOf (h : Host) (seen : list TelemetryRow.t) (grouped : hourGroups) : Prop :=
  NoDup (map fst grouped) /\
  (forall k group, In (k, group) grouped ->
     group = filter (inHour h k) seen /\ group <> []) /\
  (forall r, In r seen -> exists k, hourKey h r = Some k /\ In k (map fst grouped)).


(** The label under which the daily or monthly export files a record. *)
Definition periodLabel (h : Host) (res : Resolution) (d : HourlyData.t) : string :=
  fst (periodKey h res d).

(** The distinct labels of a list, in order of first appearance. *)
Definition firstSeen (labels : list string) : list string :=
  fold_left (fun acc k => if existsb (String.eqb k) acc then acc else acc ++ [k])
            labels [].

(** The number of value columns an export configuration selects. *)
Definition selectedColumns (config : ExportConfig) : nat :=
  ((if active (columns config) then 1 else 0)
   + (if inductive (columns config) then 1 else 0)
   + (if capacitive (columns config) then 1 else 0))%nat.

(* ================================================================== *)
(** * [generateReportAnalysis]: the summary of the data *)
(* ================================================================== *)

(** An entry of [monthlyStats]. *)
Module MonthStat.
Record t : Set := mk {
  active : number;
  ind : number;
  cap : number;
  count : Z
}.
End MonthStat.

(** The object [monthlyStats]: its keys in insertion order, which is the
    order of [Object.entries]. *)
Definition monthlyStatsMap : Set := list (string * MonthStat.t).

(** [arr.reduce(f)] without an initial value; [None] when it throws a
    [TypeError] (empty array). *)
Definition reduce1 {A : Type} (f : A -> A -> A) (arr : list A) : option A :=
  match arr with
  | [] => None
  | x :: rest => Some (fold_left f rest x)
  end.

Section ReportAnalysis.

Context (h : Host).

(** [monthlyStats[key].active += h.activeAvg; ...; .count += 1] *)
Definition addHour (s : MonthStat.t) (d : HourlyData.t) : MonthStat.t :=
  MonthStat.mk (MonthStat.active s + HourlyData.activeAvg d)%float
               (MonthStat.ind s + HourlyData.inductiveAvg d)%float
               (MonthStat.cap s + HourlyData.capacitiveAvg d)%float
               (MonthStat.count s + 1).

Fixpoint addMonthStat (key : string) (d : HourlyData.t) (stats : monthlyStatsMap)
    : monthlyStatsMap :=
  match stats with
  | [] => [(key, addHour (MonthStat.mk 0%float 0%float 0%float 0) d)]
  | (k, s) :: rest =>
      if String.eqb k key then (k, addHour s d) :: rest
      else (k, s) :: addMonthStat key d rest
  end.

Definition monthlyStats (hourlyData : list HourlyData.t) : monthlyStatsMap :=
  fold_left (fun stats d =>
               addMonthStat (toLocaleMonthString h (HourlyData.timestamp d)) d stats)
            hourlyData [].

(** One line of the summary. *)
Definition summaryLine (month : string) (stats : MonthStat.t) : string :=
  let n := ofZ (MonthStat.count stats) in
  ("- " ++ month ++ ": Média Ativa " ++ toFixed2 h (MonthStat.active stats / n)%float
   ++ " kW, Indutiva " ++ toFixed2 h (MonthStat.ind stats / n)%float
   ++ " kVAr, Capacitiva " ++ toFixed2 h (MonthStat.cap stats / n)%float
   ++ " kVAr." ++ newline)%string.

(** [hourlyData.reduce((prev, curr) =>
       (prev.activeMax > curr.activeMax) ? prev : curr)] *)
Definition maxActive (hourlyData : list HourlyData.t) : option HourlyData.t :=
  reduce1 (fun prev curr =>
             if (HourlyData.activeMax curr <? HourlyData.activeMax prev)%float
             then prev else curr)
          hourlyData.

(** [summaryText], the part of the prompt that depends on the data;
    [None] when the function throws before it sends anything.
    [localeString] is [toLocaleString()] in the default locale of the
    host. *)
Definition summaryText (localeString : Date -> string) (name location : string)
    (hourlyData : list HourlyData.t) : option string :=
  let text := ("Resumo de dados para " ++ name ++ " em " ++ location ++ ":"
               ++ newline)%string in
  let text := fold_left (fun text ks => (text ++ summaryLine (fst ks) (snd ks))%string)
                (monthlyStats hourlyData) text in
  match maxActive hourlyData with
  | Some peak =>
      Some (text ++ newline ++ "Pico Máximo de Potência Ativa Registado: "
            ++ toFixed2 h (HourlyData.activeMax peak) ++ " kW em "
            ++ localeString (HourlyData.timestamp peak) ++ "." ++ newline)%string
  | None => None
  end.

(** [generateReportAnalysis] up to the request it sends: without an API
    key (unset or empty) it answers at once with a fixed message and
    reads no data; otherwise it builds [summaryText] for the prompt, or
    throws with it. *)
Inductive AnalysisStart : Set :=
  | Answers (text : string)
  | Asks (summary : string)
  | Throws.

Definition noKeyMessage : string :=
  "API Key não configurada. A análise automática por IA não está disponível.".

Definition analysisStart (apiKey : option string) (localeString : Date -> string)
    (name location : string) (hourlyData : list HourlyData.t) : AnalysisStart :=
  match apiKey with
  | None | Some EmptyString => Answers noKeyMessage
  | Some _ =>
      match summaryText localeString name location hourlyData with
      | Some summary => Asks summary
      | None => Throws
      end
  end.

End ReportAnalysis.

(** The sums and the count that an entry of [monthlyStats] carries. *)
Definition monthSums (ks : string * MonthStat.t) : DaySums :=
  (fst ks, (MonthStat.active (snd ks), MonthStat.ind (snd ks), MonthStat.cap (snd ks))).

(** The count of the entry filed under [key], 0 when there is none. *)
Fixpoint countOf (key : string) (stats : monthlyStatsMap) : Z :=
  match stats with
  | [] => 0
  | (k, s) :: rest => if String.eqb k key then MonthStat.count s else countOf key rest
  end.

(* ================================================================== *)
(** * The dashboard *)
(* ================================================================== *)

Inductive Period : Set := DAILY | WEEKLY | MONTHLY | YEARLY.

Inductive LoadType : Set := ACTIVE | INDUCTIVE | CAPACITIVE.

(** The statistics of one quantity in [globalStats]. *)
Module Stat.
Record t : Set := mk {
  max : number;
  min : number;
  avg : number;
  sum : number
}.
End Stat.

Module GlobalStats.
Record t : Set := mk {
  active : Stat.t;
  inductive : Stat.t;
  capacitive : Stat.t;
  count : Z
}.
End GlobalStats.

(** [s.max = Math.max(s.max, mx); s.min = Math.min(s.min, mn);
     s.sum += av] *)
Definition statStep (s : Stat.t) (mx mn av : number) : Stat.t :=
  Stat.mk (Math_max [Stat.max s; mx]) (Math_min [Stat.min s; mn])
          (Stat.avg s) (Stat.sum s + av)%float.

(** [s.avg = s.sum / stats.count] *)
Definition setAvg (s : Stat.t) (count : Z) : Stat.t :=
  Stat.mk (Stat.max s) (Stat.min s) (Stat.sum s / ofZ count)%float (Stat.sum s).

(** [globalStats]; [None] is [null]. *)
Definition globalStats (data : list HourlyData.t) : option GlobalStats.t :=
  match data with
  | [] => None
  | _ =>
      let init := Stat.mk 0%float infinity 0%float 0%float in
      let stats :=
        fold_left
          (fun stats d =>
             GlobalStats.mk
               (statStep (GlobalStats.active stats) (HourlyData.activeMax d)
                  (HourlyData.activeMin d) (HourlyData.activeAvg d))
               (statStep (GlobalStats.inductive stats) (HourlyData.inductiveMax d)
                  (HourlyData.inductiveMin d) (HourlyData.inductiveAvg d))
               (statStep (GlobalStats.capacitive stats) (HourlyData.capacitiveMax d)
                  (HourlyData.capacitiveMin d) (HourlyData.capacitiveAvg d))
               (GlobalStats.count stats))
          data
          (GlobalStats.mk init init init (Z.of_nat (List.length data))) in
      Some (GlobalStats.mk
              (setAvg (GlobalStats.active stats) (GlobalStats.count stats))
              (setAvg (GlobalStats.inductive stats) (GlobalStats.count stats))
              (setAvg (GlobalStats.capacitive stats) (GlobalStats.count stats))
              (GlobalStats.count stats))
  end.

(** A row of the view: [timestamp] is [d.timestamp.getTime()], NaN
    being [None]. *)
Module ViewRow.
Record t : Set := mk {
  timestamp : option Z;
  label : string;
  val : number;
  max : number;
  min : number
}.
End ViewRow.

Module ViewStats.
Record t : Set := mk {
  min : number;
  max : number;
  avg : number;
  sum : number
}.
End ViewStats.

(** [viewStats]; [None] is [null]. *)
Definition viewStats (filteredData : list ViewRow.t) : option ViewStats.t :=
  match filteredData with
  | [] => None
  | _ =>
      let vals := map ViewRow.val filteredData in
      let maxes := map ViewRow.max filteredData in
      let total := sum vals in
      Some (ViewStats.mk (Math_min vals) (Math_max maxes)
              (total / ofZ (Z.of_nat (List.length vals)))%float total)
  end.

(** [arr.filter((x, i) => p(x, i))], from index [i] on. *)
Fixpoint filterIndexed {A : Type} (p : A -> nat -> bool) (i : nat) (arr : list A) : list A :=
  match arr with
  | [] => []
  | x :: rest =>
      if p x i then x :: filterIndexed p (S i) rest else filterIndexed p (S i) rest
  end.

Definition MAX_POINTS : nat := 2000.

(** [Math.ceil(a / b)] for an array length [a] and a positive integer
    [b]: the quotient of two integers below 2^32 is rounded to a double
    that lies strictly between the same two integers, or is the integer
    itself, so the ceiling is that of the exact quotient. *)
Definition ceilDiv (a b : nat) : nat := ((a + b - 1) / b)%nat.

(** [chartData]: what the chart draws of the rows of the view. *)
Definition chartData {A : Type} (filteredData : list A) : list A :=
  if (List.length filteredData <=? MAX_POINTS)%nat then filteredData
  else
    let factor := ceilDiv (List.length filteredData) MAX_POINTS in
    filterIndexed (fun _ i => (i mod factor =? 0)%nat) 0 filteredData.

(** What holds of the statistics [s] that [globalStats] gives for a
    quantity with hourly maxima [mx], minima [mn] and averages [av]. *)
Definition globalStatOf (mx mn av : list number) (s : Stat.t) : Prop :=
  (existsb isNaN mx = false ->
   numLe 0%float (Stat.max s) /\ forall x, In x mx -> numLe x (Stat.max s)) /\
  ((forall x, In x mx -> (x <? 0)%float = true) -> Stat.max s = 0%float) /\
  (existsb isNaN mn = false -> forall x, In x mn -> numLe (Stat.min s) x) /\
  Stat.sum s = sum av /\
  Stat.avg s = (sum av / ofZ (Z.of_nat (List.length av)))%float.

(** Day of the week of a time value, 0 = Sunday. *)
Definition WeekDay (t : Z) : Z := (Day t + 4) mod 7.


(** What the export dialog offers as resolution: the three values of
    [ExportConfig] and ['raw'], which the dialog stores by a cast. *)
Inductive DialogResolution : Set :=
  | raw
  | ofConfig (r : Resolution).

Inductive ExportRange : Set := current | all.

Section DashboardView.

Context (h : Host).

(** The getters of a [Date] in local time; [None] stands for NaN. *)
Definition getMonth (d : Date) : option Z :=
  match d with
  | DateOf t => Some (MonthFromTime (LocalTime h t))
  | InvalidDate => None
  end.

Definition getDate (d : Date) : option Z :=
  match d with
  | DateOf t => Some (DateFromTime (LocalTime h t))
  | InvalidDate => None
  end.

Definition getDay (d : Date) : option Z :=
  match d with
  | DateOf t => Some (WeekDay (LocalTime h t))
  | InvalidDate => None
  end.

(** [x + k] for a Number [x] that is an integer or NaN. *)
Definition plus (x : option Z) (k : Z) : option Z :=
  match x with
  | Some n => Some (n + k)
  | None => None
  end.

(** [new Date(year, month, date, hours, minutes, seconds)], in local
    time.  The first three arguments are results of getters, integer
    literals or sums of these: integers, or NaN ([None]); the last three
    are integer literals. *)
Definition newDateAt (year month date : option Z) (hours minutes seconds : Z) : Date :=
  match year, month, date with
  | Some y, Some m, Some dt =>
      let yr := if (0 <=? y) && (y <=? 99) then 1900 + y else y in
      match MakeDay yr m dt with
      | Some day => TimeClip (UTC h (MakeDate day (MakeTime hours minutes seconds 0)))
      | None => InvalidDate
      end
  | _, _, _ => InvalidDate
  end.

(** [d.setDate(date)] *)
Definition setDate (d : Date) (date : option Z) : Date :=
  match d, date with
  | DateOf tv, Some dt =>
      let t := LocalTime h tv in
      match MakeDay (YearFromTime t) (MonthFromTime t) dt with
      | Some day => TimeClip (UTC h (MakeDate day (TimeWithinDay t)))
      | None => InvalidDate
      end
  | _, _ => InvalidDate
  end.



(** [d.setHours(hours, minutes, seconds, ms)] with integer literals *)
Definition setHoursTo (d : Date) (hours minutes seconds ms : Z) : Date :=
  match d with
  | DateOf tv =>
      let t := LocalTime h tv in
      TimeClip (UTC h (MakeDate (Day t) (MakeTime hours minutes seconds ms)))
  | InvalidDate => InvalidDate
  end.

(** [a >= b] and [a <= b] on [Date] objects: a comparison of their time
    values, false when one of them is NaN. *)
Definition dateGe (a b : Date) : bool :=
  match getTime a, getTime b with
  | Some x, Some y => y <=? x
  | _, _ => false
  end.

Definition dateLe (a b : Date) : bool :=
  match getTime a, getTime b with
  | Some x, Some y => x <=? y
  | _, _ => false
  end.

(** [start] and [end] of the period around the focus date, as the view
    and the export compute them (with the same statements). *)
Definition periodWindow (period : Period) (focusDate : Date) : Date * Date :=
  let year := getFullYear h focusDate in
  let month := getMonth focusDate in
  let day := getDate focusDate in
  match period with
  | DAILY =>
      (newDateAt year month day 0 0 0, newDateAt year month day 23 59 59)
  | WEEKLY =>
      let dayOfWeek := getDay focusDate in
      let diff := match getDate focusDate, dayOfWeek with
                  | Some d, Some w => Some (d - w + (if w =? 0 then -6 else 1))
                  | _, _ => None
                  end in
      let start := setHoursTo (setDate focusDate diff) 0 0 0 0 in
      let end_ := setHoursTo (setDate start (plus (getDate start) 6)) 23 59 59 999 in
      (start, end_)
  | MONTHLY =>
      (newDateAt year month (Some 1) 0 0 0,
       newDateAt year (plus month 1) (Some 0) 23 59 59)
  | YEARLY =>
      (newDateAt year (Some 0) (Some 1) 0 0 0,
       newDateAt year (Some 11) (Some 31) 23 59 59)
  end.

(** [d.timestamp >= start && d.timestamp <= end] *)
Definition inWindow (window : Date * Date) (timestamp : Date) : bool :=
  dateGe timestamp (fst window) && dateLe timestamp (snd window).

Definition viewRow (loadType : LoadType) (d : HourlyData.t) : ViewRow.t :=
  ViewRow.mk (getTime (HourlyData.timestamp d)) (HourlyData.hourLabel d)
    (match loadType with
     | ACTIVE => HourlyData.activeAvg d
     | INDUCTIVE => HourlyData.inductiveAvg d
     | CAPACITIVE => HourlyData.capacitiveAvg d
     end)
    (match loadType with
     | ACTIVE => HourlyData.activeMax d
     | INDUCTIVE => HourlyData.inductiveMax d
     | CAPACITIVE => HourlyData.capacitiveMax d
     end)
    (match loadType with
     | ACTIVE => HourlyData.activeMin d
     | INDUCTIVE => HourlyData.inductiveMin d
     | CAPACITIVE => HourlyData.capacitiveMin d
     end).

(** [filteredData]: the rows of the view. *)
Definition filteredData (data : list HourlyData.t) (period : Period) (focusDate : Date)
    (loadType : LoadType) : list ViewRow.t :=
  match data with
  | [] => []
  | _ =>
      let window := periodWindow period focusDate in
      map (viewRow loadType)
          (filter (fun d => inWindow window (HourlyData.timestamp d)) data)
  end.


(** How [generateCSV] reads a reading of [rawData]: the object has a
    timestamp but no field [activeAvg], [inductiveAvg] or
    [capacitiveAvg]; each reads as [undefined], and adding [undefined]
    to a sum gives NaN, as adding NaN does. *)
Definition readingAsRecord (r : TelemetryRow.t) : HourlyData.t :=
  HourlyData.mk (TelemetryRow.timestamp r) "" NaN NaN NaN NaN NaN NaN NaN NaN NaN.

(** [datasetToExport] after the choice of the range. *)
Definition selectRange {A : Type} (timestamp : A -> Date) (exportRange : ExportRange)
    (period : Period) (focusDate : Date) (datasetToExport : list A) : list A :=
  match exportRange with
  | current =>
      filter (fun d => inWindow (periodWindow period focusDate) (timestamp d))
             datasetToExport
  | all => datasetToExport
  end.

(** [handleExport]: the text that [generateCSV] is made to write.  The
    resolution ['raw'] selects [rawData]; in [generateCSV] it is neither
    ['hourly'] nor ['daily'], so that every test of the resolution takes
    the branch that ['monthly'] takes. *)
Definition handleExport (data : list HourlyData.t) (rawData : list TelemetryRow.t)
    (res : DialogResolution) (split : bool) (cols : ExportColumns)
    (exportRange : ExportRange) (period : Period) (focusDate : Date) : string :=
  match res with
  | raw =>
      generateCSV h
        (map readingAsRecord
           (selectRange TelemetryRow.timestamp exportRange period focusDate rawData))
        {| resolution := monthly; splitDateTime := split; columns := cols |}
  | ofConfig r =>
      generateCSV h
        (selectRange HourlyData.timestamp exportRange period focusDate data)
        {| resolution := r; splitDateTime := split; columns := cols |}
  end.

End DashboardView.

(** Time values more than two years inside the range that a [Date] can
    hold. *)
Definition wellInside (t : Z) : Prop := Z.abs t <= maxTime - 800 * msPerDay.

(** The day number of the Monday of the week of a local time. *)
Definition mondayOf (t : Z) : Z := Day t - (WeekDay t + 6) mod 7.

(** The day number, in local time, of a timestamp. *)
Definition localDay (h : Host) (d : Date) : option Z :=
  match d with
  | DateOf t => Some (Day (LocalTime h t))
  | InvalidDate => None
  end.

(** A timestamp that, if valid, has no milliseconds. *)
Definition onWholeSecond (d : Date) : Prop :=
  forall t, d = DateOf t -> t mod msPerSecond = 0.

(** The local day of a timestamp lies between two day numbers. *)
Definition dayBetween (h : Host) (first last : Z) (d : Date) : bool :=
  match localDay h d with
  | Some n => (first <=? n) && (n <=? last)
  | None => false
  end.

(* ================================================================== *)
(** * The report: [getStats] *)
(* ================================================================== *)

Module Stats.
Record t : Set := mk {
  min : number;
  max : number;
  avg : number;
  total : number;
  median : number;
  maxMonth : string;
  minMonth : string;
  trend : string
}.
End Stats.

(** The comparator [(a, b) => a - b]: the sign of the difference,
    [None] when it is NaN. *)
Definition signOf (x : number) : option Z :=
  if isNaN x then None
  else if (x <? 0)%float then Some (-1)
  else if (0 <? x)%float then Some 1
  else Some 0.

Definition byValue (a b : number) : option Z := signOf (a - b)%float.

(** [n || 1] for a length [n] *)
Definition orOne (n : nat) : Z :=
  match n with
  | O => 1
  | _ => Z.of_nat n
  end.

(** [data.find(d => d[key] === x)?.name || ''] *)
Definition nameOf (data : list (string * number)) (x : number) : string :=
  match find (fun d => numEq (snd d) x) data with
  | Some d => fst d
  | None => ""
  end.

(** [getStats(data, key)], each item of [data] being given by its
    [name] and its value [d[key]].  With a NaN among the values the
    comparator [(a, b) => a - b] is not consistent and ECMAScript leaves
    the order of [sorted] to the implementation; [median] is then the
    one that a stable insertion sort gives, and what is proved of it
    assumes values without NaN. *)
Definition getStats (data : list (string * number)) : Stats.t :=
  let values := map snd data in
  match values with
  | [] => Stats.mk 0%float 0%float 0%float 0%float 0%float "" "" "Estável"
  | _ =>
      let total := sum values in
      let avg := (total / ofZ (Z.of_nat (List.length values)))%float in
      let min := Math_min values in
      let max := Math_max values in
      let sorted := sortBy byValue values in
      let mid := (List.length sorted / 2)%nat in
      let median :=
        if negb (List.length sorted mod 2 =? 0)%nat then nth mid sorted NaN
        else ((nth (mid - 1) sorted NaN + nth mid sorted NaN) / 2)%float in
      let half := (List.length values / 2)%nat in
      let firstHalf := (sum (firstn half values) / ofZ (orOne half))%float in
      let secondHalf :=
        (sum (skipn half values) / ofZ (orOne (List.length values - half)))%float in
      let trend := "Estável" in
      let trend := if (firstHalf * 1.05 <? secondHalf)%float then "Crescente" else trend in
      let trend := if (secondHalf <? firstHalf * 0.95)%float then "Decrescente"
                   else trend in
      Stats.mk min max avg total median (nameOf data max) (nameOf data min) trend
  end.

(** A timestamp lies in the same year, or in the same month of the same
    year, of local time as the time value [f]. *)
Definition sameLocalYear (h : Host) (f : Z) (d : Date) : bool :=
  match d with
  | DateOf t => YearFromTime (LocalTime h t) =? YearFromTime (LocalTime h f)
  | InvalidDate => false
  end.

Definition sameLocalMonth (h : Host) (f : Z) (d : Date) : bool :=
  match d with
  | DateOf t =>
      (YearFromTime (LocalTime h t) =? YearFromTime (LocalTime h f)) &&
      (MonthFromTime (LocalTime h t) =? MonthFromTime (LocalTime h f))
  | InvalidDate => false
  end.

(** The month number as a count over the days that begin the months
    February to December. *)
Definition monthCount (leap : bool) (d : Z) : Z :=
  Z.of_nat (List.length
    (filter (fun s => s <=? d)
       (if leap then [31; 60; 91; 121; 152; 182; 213; 244; 274; 305; 335]
        else [31; 59; 90; 120; 151; 181; 212; 243; 273; 304; 334]))).

(** The day number on which month [m] of year [y] begins, and the one on
    which the month after it begins. *)
Definition monthBegin (y m : Z) : Z := DayFromYear y + monthStart (isLeapYear y) m.

Definition nextMonthBegin (y m : Z) : Z :=
  if m =? 11 then DayFromYear (y + 1) else monthBegin y (m + 1).

(** The no-break space U+00A0. *)
Definition noBreakSpace : string :=
  String (ascii_of_nat 194) (String (ascii_of_nat 160) "").

(** A sheet that carries the CPE, between spaces and followed by a
    no-break space, above its table; and a mapping that points at it. *)
Definition cpeSheet : grid :=
  [ [VString "CPE"; VString ("  PT0002000012345678XY " ++ noBreakSpace)];
    [VString "Data"; VString "Ativa"; VString "Indutiva"; VString "Capacitiva"];
    [VString "01/01/2024 08:00"; VString "0,1"; VString "0,004"; VNumber 0%float] ].

Definition cpeMapping : ColumnMapping := {|
  dateCol := 0; dateRow := 2;
  timeCol := None; timeRow := None;
  activeCol := 1; activeRow := 2;
  inductiveCol := 2; inductiveRow := 2;
  capacitiveCol := 3; capacitiveRow := 2;
  cpeRow := Some 0; cpeCol := Some 1
|}.

(* ================================================================== *)
(** * Notions used to state the rounding of binary64 *)
(* ================================================================== *)

(** The integer [N], counted in units of [2^-k] of a unit in the last
    place of the mantissa [m] ([1 <= k]), lies at the location [l] of
    the interval from [m] to [m + 1]: at [m], below the middle, at the
    middle or above it. *)
Definition inbetween (m : Z) (l : location) (k N : Z) : Prop :=
  match l with
  | loc_Exact => N = m * 2 ^ k
  | loc_Inexact Lt => m * 2 ^ k < N < m * 2 ^ k + 2 ^ (k - 1)
  | loc_Inexact Eq => N = m * 2 ^ k + 2 ^ (k - 1)
  | loc_Inexact Gt => m * 2 ^ k + 2 ^ (k - 1) < N < (m + 1) * 2 ^ k
  end.

(** The binary64 value of sign [sx] and magnitude [m1 * 2^e1], for a
    mantissa [0 <= m1 <= 2^53] that was rounded at the exponent [e1] of
    the format: a carry into a 54th bit moves to the next exponent, and
    an exponent above the largest one gives an infinity. *)
Definition roundedFloat (sx : bool) (m1 e1 : Z) : spec_float :=
  match m1 with
  | Z0 => S754_zero sx
  | Zpos p =>
      if m1 =? 2 ^ 53 then
        if e1 + 1 <=? 971 then S754_finite sx 4503599627370496 (e1 + 1)
        else S754_infinity sx
      else if e1 <=? 971 then S754_finite sx p e1
      else S754_infinity sx
  | Zneg _ => S754_nan
  end.

(** The value of a finite number in units of [2^-2200], an integer for
    every binary64 number and for every sum and product of two of
    them; 0 for the infinities and NaN. *)
Definition scale : Z := 2200.

Definition scaled (x : spec_float) : Z :=
  match x with
  | S754_finite s m e => if s then - (Zpos m * 2 ^ (e + scale)) else Zpos m * 2 ^ (e + scale)
  | _ => 0
  end.

Definition finiteSF (x : spec_float) : bool :=
  match x with
  | S754_zero _ | S754_finite _ _ _ => true
  | S754_infinity _ | S754_nan => false
  end.

(** A value, in units of [2^-2200], that the format has when its
    exponents are not bounded above: 0, or a mantissa of at most 53
    bits at the exponent that the format gives a number of its size. *)
Definition canonicalValue (F : Z) : Prop :=
  F = 0 \/
  exists m e, 0 < m /\ fexp prec emax (Zdigits2 m + e) = e /\
              Z.abs F = m * 2 ^ (e + scale).

(** The largest finite number, in units of [2^-2200]. *)
Definition largestValue : Z := (2 ^ 53 - 1) * 2 ^ (971 + scale).

(** [r] is what rounding the value [V] (in units of [2^-2200]) can
    give: a valid number, no NaN.  When it is finite, every value of
    the format at or below [V] is at or below it and every value of the
    format at or above [V] is at or above it, and it differs from [V]
    by at most half a unit in the last place: [2^-53] of [V], or
    [2^-1075] where the format is denormal.  It is an infinity only
    for a [V] that is at least the largest finite number in size. *)
Definition isRounding (V : Z) (r : spec_float) : Prop :=
  valid_binary r = true /\ r <> S754_nan /\
  (finiteSF r = true ->
     (forall F, canonicalValue F ->
        (F <= V -> F <= scaled r) /\ (V <= F -> scaled r <= F)) /\
     2 ^ 53 * Z.abs (scaled r - V) <= Z.abs V + 2 ^ (scale - 1022)) /\
  (finiteSF r = false -> largestValue <= Z.abs V).

(* ================================================================== *)
(** * Properties *)
(* ================================================================== *)

(** ** Calendar arithmetic *)

(** Linear arithmetic with floor division and modulus by constants. *)
Ltac dlia := Z.div_mod_to_equations; lia.

Lemma DayFromYear_step (y : Z) :
  365 <= DayFromYear (y + 1) - DayFromYear y <= 366.
Proof. unfold DayFromYear. dlia. Qed.

Lemma DayFromYear_mono (y1 y2 : Z) :
  y1 <= y2 -> DayFromYear y1 <= DayFromYear y2.
Proof. unfold DayFromYear. dlia. Qed.

Lemma yearLoop_spec (d : Z) (fuel : nat) :
  forall y, DayFromYear y <= d -> d - DayFromYear y < 365 * Z.of_nat fuel ->
  DayFromYear (yearLoop fuel d y) <= d < DayFromYear (yearLoop fuel d y + 1).
Proof.
  induction fuel as [|n IH]; intros y Hlo Hfuel.
  - lia.
  - simpl. destruct (DayFromYear (y + 1) <=? d) eqn:E.
    + apply Z.leb_le in E. apply IH; [exact E|].
      pose proof (DayFromYear_step y). lia.
    + apply Z.leb_gt in E. lia.
Qed.

Lemma YearFromDay_spec (d : Z) :
  DayFromYear (YearFromDay d) <= d < DayFromYear (YearFromDay d + 1).
Proof.
  unfold YearFromDay.
  set (y0 := 1970 + Z.min (d / 365) (d / 366)).
  assert (H0 : DayFromYear y0 <= d) by (unfold y0, DayFromYear; dlia).
  apply yearLoop_spec; [exact H0|].
  rewrite Z2Nat.id by (apply Z.add_nonneg_nonneg; [apply Z.div_pos|]; lia).
  clearbody y0. dlia.
Qed.

(** [YearFromTime] is the year whose span contains the instant. *)
Lemma YearFromTime_spec (t : Z) :
  TimeFromYear (YearFromTime t) <= t < TimeFromYear (YearFromTime t + 1).
Proof.
  unfold YearFromTime, TimeFromYear.
  pose proof (YearFromDay_spec (Day t)) as H. unfold Day, msPerDay in *. dlia.
Qed.

Lemma YearFromTime_after (t y : Z) :
  y < YearFromTime t <-> TimeFromYear (y + 1) <= t.
Proof.
  pose proof (YearFromTime_spec t) as S. unfold TimeFromYear, msPerDay in *.
  split; intros H.
  - pose proof (DayFromYear_mono (y + 1) (YearFromTime t)). lia.
  - destruct (Z_lt_le_dec y (YearFromTime t)) as [L|G]; [exact L|].
    pose proof (DayFromYear_mono (YearFromTime t + 1) (y + 1)). lia.
Qed.

(** The validity gate, as a bound on local time: the year exceeds 1990
    exactly from 1 January 1991, 00:00. *)
Lemma year_gate (t : Z) :
  1990 < YearFromTime t <-> 662688000000 <= t.
Proof. rewrite YearFromTime_after. vm_compute TimeFromYear. reflexivity. Qed.

Lemma YearFromTime_Day (t : Z) :
  YearFromTime (Day t * msPerDay) = YearFromTime t.
Proof.
  unfold YearFromTime. f_equal. unfold Day, msPerDay. 
  rewrite Z.div_mul; lia.
Qed.

(** ** Binary64 facts

    The primitive operations are specified by the axioms of
    [FloatAxioms] in terms of [SpecFloat]; the facts below are derived
    from them. *)

Lemma SFcompare_refl (x : spec_float) :
  x <> S754_nan -> SFcompare x x = Some Eq.
Proof.
  destruct x as [[]|[]| |[] m e]; simpl; try congruence; intros _;
    rewrite Z.compare_refl, Pos.compare_cont_refl; reflexivity.
Qed.

Lemma isNaN_spec (x : number) : isNaN x = true <-> Prim2SF x = S754_nan.
Proof.
  unfold isNaN, is_nan. rewrite eqb_spec. unfold SFeqb. split.
  - intros H. destruct (Prim2SF x) eqn:E; try reflexivity;
      rewrite SFcompare_refl in H by congruence; discriminate.
  - intros ->. reflexivity.
Qed.

Lemma isNaN_eq (x : number) : isNaN x = true -> x = NaN.
Proof.
  intros H. apply isNaN_spec in H. apply Prim2SF_inj. rewrite H. reflexivity.
Qed.

Lemma numEq_refl (x : number) : isNaN x = false -> numEq x x = true.
Proof. unfold isNaN, is_nan, numEq. destruct (x =? x)%float; easy. Qed.


(** [0 + x] is [x], except that it turns [-0] into [+0]. *)
Lemma zero_plus (x : number) :
  (0 + x)%float = x \/ (x = (-0)%float /\ (0 + x)%float = 0%float).
Proof.
  destruct (Prim2SF x) as [[]|s| |s m e] eqn:E.
  - right. assert (x = (-0)%float) as -> by (apply Prim2SF_inj; rewrite E; reflexivity).
    split; reflexivity.
  - left. apply Prim2SF_inj. rewrite add_spec, E. reflexivity.
  - left. apply Prim2SF_inj. rewrite add_spec, E. destruct s; reflexivity.
  - left. apply Prim2SF_inj. rewrite add_spec, E. reflexivity.
  - left. apply Prim2SF_inj. rewrite add_spec, E. reflexivity.
Qed.

(** Rounding a mantissa that is already canonical leaves it alone. *)
Lemma shr_fexp_canonical (m : positive) (e : Z) :
  fexp prec emax (Zpos (digits2_pos m) + e) = e ->
  shr_fexp prec emax (Zpos m) e loc_Exact
  = ({| shr_m := Zpos m; shr_r := false; shr_s := false |}, e).
Proof.
  intros H. unfold shr_fexp.
  change (Zdigits2 (Zpos m)) with (Zpos (digits2_pos m)).
  rewrite H, Z.sub_diag. reflexivity.
Qed.

Lemma shr_fexp_double (m : positive) (e : Z) :
  fexp prec emax (Zpos (digits2_pos m~0) + (e - 1)) = e ->
  shr_fexp prec emax (Zpos m~0) (e - 1) loc_Exact
  = ({| shr_m := Zpos m; shr_r := false; shr_s := false |}, e).
Proof.
  intros H. unfold shr_fexp.
  change (Zdigits2 (Zpos m~0)) with (Zpos (digits2_pos m~0)).
  rewrite H. replace (e - (e - 1)) with 1 by lia.
  cbn [shr shr_record_of_loc iter_pos shr_1 orb]. f_equal. lia.
Qed.

Lemma round_exact (s : bool) (m0 m : positive) (e0 e : Z) :
  shr_fexp prec emax (Zpos m0) e0 loc_Exact
  = ({| shr_m := Zpos m; shr_r := false; shr_s := false |}, e) ->
  bounded prec emax m e = true ->
  binary_round_aux prec emax s (Zpos m0) e0 loc_Exact = S754_finite s m e.
Proof.
  intros H V. unfold binary_round_aux. rewrite H.
  cbn [shr_m loc_of_shr_record round_nearest_even].
  unfold bounded, canonical_mantissa in V.
  apply andb_prop in V. destruct V as [C B]. apply Z.eqb_eq in C.
  rewrite (shr_fexp_canonical m e C). cbn [shr_m].
  rewrite B. reflexivity.
Qed.

Lemma div_eucl_exact (a b : Z) :
  0 < b -> Z.div_eucl (a * b) b = (a, 0).
Proof.
  intros Hb.
  pose proof (Z.div_mul a b ltac:(lia)) as Hq.
  pose proof (Z.mod_mul a b ltac:(lia)) as Hr.
  unfold Z.div, Z.modulo in Hq, Hr.
  destruct (Z.div_eucl (a * b) b) as [q r]. congruence.
Qed.

(** Dividing by one is exact. *)
Lemma SFdiv_one (x : spec_float) :
  valid_binary x = true ->
  SFdiv prec emax x (S754_finite false 4503599627370496 (-52)) = x.
Proof.
  destruct x as [s|s| |s m e]; cbn [SFdiv valid_binary]; intros V;
    try (rewrite xorb_false_r; reflexivity); try reflexivity.
  rewrite xorb_false_r.
  pose proof V as V'. unfold bounded, canonical_mantissa in V'.
  apply andb_prop in V'. destruct V' as [C B].
  apply Z.eqb_eq in C. apply Z.leb_le in B.
  unfold SFdiv_core_binary.
  change (Zdigits2 (Z.pos m)) with (Zpos (digits2_pos m)).
  change (Zdigits2 4503599627370496) with 53.
  pose proof C as C'.
  unfold fexp, SpecFloat.emin, prec, emax in C' |- *.
  set (d := Zpos (digits2_pos m)) in *.
  assert (Hd : 1 <= d) by (unfold d; lia).
  destruct (Z.eq_dec e (-1074)) as [Ee|Ne].
  - (* subnormal range: the quotient is the mantissa itself *)
    replace (Z.min (Z.max (d + e - (53 + -52) - 53) (3 - 1024 - 53)) (e - -52))
      with e by lia.
    replace (e - -52 - e) with 52 by lia.
    rewrite Z.shiftl_mul_pow2 by lia. change (2 ^ 52) with 4503599627370496.
    rewrite div_eucl_exact by lia.
    change (new_location 4503599627370496 0) with loc_Exact.
    apply round_exact; [apply shr_fexp_canonical; exact C | exact V].
  - (* normal range: twice the mantissa, one exponent lower *)
    assert (d = 53) by lia.
    replace (Z.min (Z.max (d + e - (53 + -52) - 53) (3 - 1024 - 53)) (e - -52))
      with (e - 1) by lia.
    replace (e - -52 - (e - 1)) with 53 by lia.
    rewrite Z.shiftl_mul_pow2 by lia.
    replace (Z.pos m * 2 ^ 53) with (Z.pos m~0 * 4503599627370496) by lia.
    rewrite div_eucl_exact by lia.
    change (new_location 4503599627370496 0) with loc_Exact.
    apply round_exact; [apply shr_fexp_double | exact V].
    cbn [digits2_pos]. rewrite Pos2Z.inj_succ. fold d.
    unfold fexp, SpecFloat.emin, prec, emax. lia.
Qed.

Lemma div_one (x : number) : (x / 1)%float = x.
Proof.
  apply Prim2SF_inj. rewrite div_spec.
  change (Prim2SF 1) with (S754_finite false 4503599627370496 (-52)).
  apply SFdiv_one, Prim2SF_valid.
Qed.

(** The mean of a single value. *)
Lemma average_single (x : number) :
  average [x] = x \/ (x = (-0)%float /\ average [x] = 0%float).
Proof.
  unfold average, sum. cbn [fold_left List.length].
  change (ofZ (Z.of_nat 1)) with 1%float. rewrite div_one. apply zero_plus.
Qed.



(** *** The order of binary64 *)

Lemma SFcompare_antisym (a b : spec_float) :
  SFcompare b a = match SFcompare a b with
                  | Some c => Some (CompOpp c)
                  | None => None
                  end.
Proof.
  destruct a as [[]|[]| |[] ma ea], b as [[]|[]| |[] mb eb]; simpl; try reflexivity;
    change (Pos.compare_cont Eq mb ma) with (Pos.compare mb ma);
    change (Pos.compare_cont Eq ma mb) with (Pos.compare ma mb);
    rewrite (Z.compare_antisym ea eb), (Pos.compare_antisym ma mb);
    destruct (ea ?= eb), (ma ?= mb)%positive; reflexivity.
Qed.

Lemma SFcompare_total (a b : spec_float) :
  a <> S754_nan -> b <> S754_nan -> exists c, SFcompare a b = Some c.
Proof.
  destruct a as [[]|[]| |[] ma ea], b as [[]|[]| |[] mb eb]; simpl;
    intros; try congruence; eexists; reflexivity.
Qed.

Ltac cmp_cases :=
  repeat match goal with
  | |- context [Pos.compare_cont Eq ?p ?q] =>
      change (Pos.compare_cont Eq p q) with (Pos.compare p q)
  | H : context [Pos.compare_cont Eq ?p ?q] |- _ =>
      change (Pos.compare_cont Eq p q) with (Pos.compare p q) in H
  end;
  repeat match goal with
  | H : context [Z.compare ?x ?y] |- _ =>
      destruct (Z.compare_spec x y); cbn [CompOpp] in H
  | H : context [Pos.compare ?x ?y] |- _ =>
      destruct (Pos.compare_spec x y); cbn [CompOpp] in H
  end;
  try discriminate; subst;
  repeat match goal with
  | |- context [Z.compare ?x ?y] =>
      destruct (Z.compare_spec x y); cbn [CompOpp]
  | |- context [Pos.compare ?x ?y] =>
      destruct (Pos.compare_spec x y); cbn [CompOpp]
  end;
  try reflexivity; try lia.

Lemma SFleb_trans (a b c : spec_float) :
  SFleb a b = true -> SFleb b c = true -> SFleb a c = true.
Proof.
  unfold SFleb.
  destruct a as [[]|[]| |[] ma ea], b as [[]|[]| |[] mb eb], c as [[]|[]| |[] mc ec];
    simpl; intros H1 H2; try reflexivity; try discriminate; cmp_cases.
Qed.

Lemma numLe_trans (x y z : number) : numLe x y -> numLe y z -> numLe x z.
Proof. unfold numLe. rewrite !leb_spec. apply SFleb_trans. Qed.

Lemma notNaN_spec (x : number) : isNaN x = false <-> Prim2SF x <> S754_nan.
Proof.
  rewrite <- isNaN_spec. destruct (isNaN x); split; congruence.
Qed.

Lemma numLe_refl (x : number) : isNaN x = false -> numLe x x.
Proof.
  intros H. apply notNaN_spec in H. unfold numLe. rewrite leb_spec.
  unfold SFleb. rewrite SFcompare_refl by exact H. reflexivity.
Qed.

Lemma ltb_numLe (x y : number) : (x <? y)%float = true -> numLe x y.
Proof.
  unfold numLe. rewrite ltb_spec, leb_spec. unfold SFltb, SFleb.
  destruct (SFcompare (Prim2SF x) (Prim2SF y)) as [[]|]; congruence.
Qed.

Lemma not_ltb_numLe (x y : number) :
  isNaN x = false -> isNaN y = false -> (x <? y)%float = false -> numLe y x.
Proof.
  intros Hx Hy. apply notNaN_spec in Hx, Hy.
  unfold numLe. rewrite ltb_spec, leb_spec. unfold SFltb, SFleb.
  rewrite (SFcompare_antisym (Prim2SF x) (Prim2SF y)).
  destruct (SFcompare_total _ _ Hx Hy) as [c ->].
  destruct c; simpl; congruence.
Qed.

Lemma zeros_numLe (x y : number) : is_zero x = true -> is_zero y = true -> numLe x y.
Proof.
  unfold is_zero, numLe. rewrite !eqb_spec, leb_spec. unfold SFeqb, SFleb.
  intros Hx Hy.
  apply SFleb_trans with (b := Prim2SF zero); unfold SFleb.
  - destruct (SFcompare (Prim2SF x) (Prim2SF zero)) as [[]|]; congruence.
  - rewrite (SFcompare_antisym (Prim2SF y) (Prim2SF zero)).
    destruct (SFcompare (Prim2SF y) (Prim2SF zero)) as [[]|]; simpl; congruence.
Qed.

Lemma maxStep_bounds (hi x : number) :
  isNaN hi = false -> isNaN x = false ->
  isNaN (maxStep hi x) = false /\ numLe hi (maxStep hi x) /\ numLe x (maxStep hi x).
Proof.
  intros Hh Hx. unfold maxStep, isPosZero, isNegZero.
  destruct (is_zero x && negb (get_sign x) && (is_zero hi && get_sign hi)) eqn:Z0.
  - apply andb_prop in Z0. destruct Z0 as [Zx Zh].
    apply andb_prop in Zx, Zh. destruct Zx as [Zx _], Zh as [Zh _].
    repeat split; [exact Hx | apply zeros_numLe; assumption | apply numLe_refl; exact Hx].
  - destruct (hi <? x)%float eqn:L.
    + repeat split; [exact Hx | apply ltb_numLe; exact L | apply numLe_refl; exact Hx].
    + repeat split; [exact Hh | apply numLe_refl; exact Hh | apply not_ltb_numLe; assumption].
Qed.

Lemma minStep_bounds (lo x : number) :
  isNaN lo = false -> isNaN x = false ->
  isNaN (minStep lo x) = false /\ numLe (minStep lo x) lo /\ numLe (minStep lo x) x.
Proof.
  intros Hl Hx. unfold minStep, isPosZero, isNegZero.
  destruct (is_zero x && get_sign x && (is_zero lo && negb (get_sign lo))) eqn:Z0.
  - apply andb_prop in Z0. destruct Z0 as [Zx Zl].
    apply andb_prop in Zx, Zl. destruct Zx as [Zx _], Zl as [Zl _].
    repeat split; [exact Hx | apply zeros_numLe; assumption | apply numLe_refl; exact Hx].
  - destruct (x <? lo)%float eqn:L.
    + repeat split; [exact Hx | apply ltb_numLe; exact L | apply numLe_refl; exact Hx].
    + repeat split; [exact Hl | apply numLe_refl; exact Hl | apply not_ltb_numLe; assumption].
Qed.

Lemma fold_maxStep_bounds (xs : list number) :
  forall hi, isNaN hi = false -> existsb isNaN xs = false ->
  isNaN (fold_left maxStep xs hi) = false /\
  numLe hi (fold_left maxStep xs hi) /\
  forall x, In x xs -> numLe x (fold_left maxStep xs hi).
Proof.
  induction xs as [|y ys IH]; intros hi Hh Hxs; cbn [fold_left].
  - repeat split; [exact Hh | apply numLe_refl; exact Hh | intros x []].
  - cbn [existsb] in Hxs. apply orb_false_elim in Hxs. destruct Hxs as [Hy Hys].
    destruct (maxStep_bounds hi y Hh Hy) as (N & L1 & L2).
    destruct (IH _ N Hys) as (N' & L' & A').
    repeat split; [exact N' | eapply numLe_trans; eassumption |].
    intros x [<- | Hin]; [eapply numLe_trans; eassumption | apply A'; exact Hin].
Qed.

Lemma fold_minStep_bounds (xs : list number) :
  forall lo, isNaN lo = false -> existsb isNaN xs = false ->
  isNaN (fold_left minStep xs lo) = false /\
  numLe (fold_left minStep xs lo) lo /\
  forall x, In x xs -> numLe (fold_left minStep xs lo) x.
Proof.
  induction xs as [|y ys IH]; intros lo Hl Hxs; cbn [fold_left].
  - repeat split; [exact Hl | apply numLe_refl; exact Hl | intros x []].
  - cbn [existsb] in Hxs. apply orb_false_elim in Hxs. destruct Hxs as [Hy Hys].
    destruct (minStep_bounds lo y Hl Hy) as (N & L1 & L2).
    destruct (IH _ N Hys) as (N' & L' & A').
    repeat split; [exact N' | eapply numLe_trans; eassumption |].
    intros x [<- | Hin]; [eapply numLe_trans; eassumption | apply A'; exact Hin].
Qed.

(** The extrema of a non-empty list without NaN are ordered. *)
Lemma Math_min_le_max (xs : list number) :
  xs <> [] -> existsb isNaN xs = false -> numLe (Math_min xs) (Math_max xs).
Proof.
  intros Hne Hxs. unfold Math_min, Math_max. rewrite Hxs.
  destruct xs as [|x0 rest]; [congruence|].
  destruct (fold_maxStep_bounds (x0 :: rest) neg_infinity eq_refl Hxs) as (_ & _ & U).
  destruct (fold_minStep_bounds (x0 :: rest) infinity eq_refl Hxs) as (_ & _ & L).
  eapply numLe_trans; [apply L | apply U]; left; reflexivity.
Qed.

(** The extrema of a single value. *)
Lemma Math_max_single (x : number) : Math_max [x] = x.
Proof.
  unfold Math_max. cbn [existsb fold_left]. rewrite orb_false_r.
  destruct (isNaN x) eqn:N; [symmetry; apply isNaN_eq; exact N|].
  unfold maxStep. change (isNegZero neg_infinity) with false. rewrite andb_false_r.
  destruct (neg_infinity <? x)%float eqn:L; [reflexivity|].
  apply Prim2SF_inj. rewrite ltb_spec in L. apply notNaN_spec in N.
  change (Prim2SF neg_infinity) with (S754_infinity true) in *.
  destruct (Prim2SF x) as [[]|[]| |[] m e]; cbv in L; congruence.
Qed.

Lemma Math_min_single (x : number) : Math_min [x] = x.
Proof.
  unfold Math_min. cbn [existsb fold_left]. rewrite orb_false_r.
  destruct (isNaN x) eqn:N; [symmetry; apply isNaN_eq; exact N|].
  unfold minStep. change (isPosZero infinity) with false. rewrite andb_false_r.
  destruct (x <? infinity)%float eqn:L; [reflexivity|].
  apply Prim2SF_inj. rewrite ltb_spec in L. apply notNaN_spec in N.
  change (Prim2SF infinity) with (S754_infinity false) in *.
  destruct (Prim2SF x) as [[]|[]| |[] m e]; cbv in L; congruence.
Qed.

(** Without NaN, the extrema of a non-empty list are values of the list. *)
Lemma fold_maxStep_in (xs : list number) :
  forall hi, fold_left maxStep xs hi = hi \/ In (fold_left maxStep xs hi) xs.
Proof.
  induction xs as [|x xs IH]; intros hi; cbn [fold_left]; [left; reflexivity|].
  destruct (IH (maxStep hi x)) as [E | I].
  - rewrite E. unfold maxStep.
    destruct (isPosZero x && isNegZero hi); [right; left; reflexivity|].
    destruct (hi <? x)%float; [right; left; reflexivity | left; reflexivity].
  - right. right. exact I.
Qed.

Lemma fold_minStep_in (xs : list number) :
  forall lo, fold_left minStep xs lo = lo \/ In (fold_left minStep xs lo) xs.
Proof.
  induction xs as [|x xs IH]; intros lo; cbn [fold_left]; [left; reflexivity|].
  destruct (IH (minStep lo x)) as [E | I].
  - rewrite E. unfold minStep.
    destruct (isNegZero x && isPosZero lo); [right; left; reflexivity|].
    destruct (x <? lo)%float; [right; left; reflexivity | left; reflexivity].
  - right. right. exact I.
Qed.

Lemma Math_max_attained (xs : list number) :
  xs <> [] -> existsb isNaN xs = false -> In (Math_max xs) xs.
Proof.
  intros Ne NN. unfold Math_max. rewrite NN.
  destruct xs as [|x xs]; [congruence|]. cbn [fold_left].
  cbn [existsb] in *. apply orb_false_iff in NN. destruct NN as [Nx Nxs].
  destruct (fold_maxStep_in xs (maxStep neg_infinity x)) as [E | I].
  - left. rewrite E. symmetry.
    pose proof (Math_max_single x) as M. unfold Math_max in M.
    cbn [existsb] in M. rewrite Nx in M. exact M.
  - right. exact I.
Qed.

Lemma Math_min_attained (xs : list number) :
  xs <> [] -> existsb isNaN xs = false -> In (Math_min xs) xs.
Proof.
  intros Ne NN. unfold Math_min. rewrite NN.
  destruct xs as [|x xs]; [congruence|]. cbn [fold_left].
  cbn [existsb] in *. apply orb_false_iff in NN. destruct NN as [Nx Nxs].
  destruct (fold_minStep_in xs (minStep infinity x)) as [E | I].
  - left. rewrite E. symmetry.
    pose proof (Math_min_single x) as M. unfold Math_min in M.
    cbn [existsb] in M. rewrite Nx in M. exact M.
  - right. exact I.
Qed.


(** ** Rounding to binary64

    What [binary_round_aux] does, read off its definition: the mantissa
    is shifted to the exponent of the format, rounded to nearest (ties
    to even) and, if the rounding carried into a new bit, shifted once
    more. *)

Lemma fexp_eq (e : Z) : fexp prec emax e = Z.max (e - 53) (-1074).
Proof. reflexivity. Qed.

Lemma pow2_pos (k : Z) : 0 <= k -> 0 < 2 ^ k.
Proof. intros H. apply Z.pow_pos_nonneg; lia. Qed.

Lemma pow2_split (k : Z) : 1 <= k -> 2 ^ k = 2 * 2 ^ (k - 1).
Proof.
  intros H. replace k with (Z.succ (k - 1)) at 1 by lia.
  apply Z.pow_succ_r. lia.
Qed.

Lemma pow2_add (a b : Z) : 0 <= a -> 0 <= b -> 2 ^ (a + b) = 2 ^ a * 2 ^ b.
Proof. intros. apply Z.pow_add_r; assumption. Qed.

Lemma pow2_le (a b : Z) : a <= b -> 2 ^ a <= 2 ^ b.
Proof.
  intros H. destruct (Z.le_gt_cases 0 a) as [A | A].
  - apply Z.pow_le_mono_r; lia.
  - rewrite (Z.pow_neg_r 2 a) by lia. apply Z.pow_nonneg. lia.
Qed.

Lemma pow2_lt (a b : Z) : 0 <= b -> a < b -> 2 ^ a < 2 ^ b.
Proof.
  intros B H. destruct (Z.le_gt_cases 0 a) as [A | A].
  - apply Z.pow_lt_mono_r; lia.
  - rewrite (Z.pow_neg_r 2 a) by lia. apply pow2_pos. exact B.
Qed.

(** *** The number of binary digits *)

Lemma digits2_pos_bounds (p : positive) :
  2 ^ (Zpos (digits2_pos p) - 1) <= Zpos p < 2 ^ Zpos (digits2_pos p).
Proof.
  induction p as [p IH | p IH |]; cbn [digits2_pos].
  - rewrite (Pos2Z.inj_xI p), Pos2Z.inj_succ.
    replace (Z.succ (Zpos (digits2_pos p)) - 1)
      with (Z.succ (Zpos (digits2_pos p) - 1)) by lia.
    rewrite !Z.pow_succ_r by lia. lia.
  - rewrite (Pos2Z.inj_xO p), Pos2Z.inj_succ.
    replace (Z.succ (Zpos (digits2_pos p)) - 1)
      with (Z.succ (Zpos (digits2_pos p) - 1)) by lia.
    rewrite !Z.pow_succ_r by lia. lia.
  - cbn. lia.
Qed.

Lemma Zdigits2_bounds (m : Z) :
  0 < m -> 2 ^ (Zdigits2 m - 1) <= m < 2 ^ Zdigits2 m.
Proof.
  destruct m as [|p|p]; try lia. intros _. apply digits2_pos_bounds.
Qed.

Lemma Zdigits2_pos (m : Z) : 0 < m -> 1 <= Zdigits2 m.
Proof. destruct m as [|p|p]; try lia. intros _. cbn. lia. Qed.

Lemma Zdigits2_unique (m d : Z) :
  0 < m -> 2 ^ (d - 1) <= m < 2 ^ d -> Zdigits2 m = d.
Proof.
  intros M [L U].
  pose proof (Zdigits2_bounds m M) as [L0 U0].
  pose proof (Zdigits2_pos m M) as P.
  assert (D : 1 <= d).
  { destruct (Z.le_gt_cases 1 d) as [H|H]; [exact H|].
    assert (2 ^ d <= 2 ^ 0) by (apply pow2_le; lia). cbn in *. lia. }
  destruct (Z.lt_trichotomy (Zdigits2 m) d) as [H | [H | H]]; [|exact H|].
  - assert (2 ^ Zdigits2 m <= 2 ^ (d - 1)) by (apply pow2_le; lia). lia.
  - assert (2 ^ d <= 2 ^ (Zdigits2 m - 1)) by (apply pow2_le; lia). lia.
Qed.

(** The digits of a shifted mantissa. *)
Lemma Zdigits2_shift (m n : Z) :
  0 < m -> 0 <= n ->
  (n < Zdigits2 m -> 0 < m / 2 ^ n /\ Zdigits2 (m / 2 ^ n) = Zdigits2 m - n) /\
  (Zdigits2 m <= n -> m / 2 ^ n = 0).
Proof.
  intros M N. pose proof (Zdigits2_bounds m M) as [L U].
  pose proof (pow2_pos n N) as P. split.
  - intros H.
    assert (E1 : 2 ^ (Zdigits2 m - 1) = 2 ^ (Zdigits2 m - n - 1) * 2 ^ n)
      by (rewrite <- pow2_add by lia; f_equal; lia).
    assert (E2 : 2 ^ Zdigits2 m = 2 ^ (Zdigits2 m - n) * 2 ^ n)
      by (rewrite <- pow2_add by lia; f_equal; lia).
    assert (B : 2 ^ (Zdigits2 m - n - 1) <= m / 2 ^ n < 2 ^ (Zdigits2 m - n)).
    { split.
      - apply Z.div_le_lower_bound; [exact P | lia].
      - apply Z.div_lt_upper_bound; [exact P | lia]. }
    pose proof (pow2_pos (Zdigits2 m - n - 1) ltac:(lia)) as Q.
    split; [lia|]. apply Zdigits2_unique; [lia|].
    replace (Zdigits2 m - n - 1) with (Zdigits2 m - n - 1) by lia. exact B.
  - intros H. apply Z.div_small. split; [lia|].
    assert (2 ^ Zdigits2 m <= 2 ^ n) by (apply pow2_le; lia). lia.
Qed.

(** *** Shifting with a location *)

Lemma loc_of_shr_record_of_loc (m : Z) (l : location) :
  loc_of_shr_record (shr_record_of_loc m l) = l /\
  shr_m (shr_record_of_loc m l) = m.
Proof. destruct l as [|[]]; split; reflexivity. Qed.

Lemma shr_1_spec (mrs : shr_record) (k N : Z) :
  0 <= shr_m mrs -> 1 <= k ->
  inbetween (shr_m mrs) (loc_of_shr_record mrs) k N ->
  shr_m (shr_1 mrs) = shr_m mrs / 2 /\
  inbetween (shr_m (shr_1 mrs)) (loc_of_shr_record (shr_1 mrs)) (k + 1) N.
Proof.
  intros M K I.
  assert (E1 : 2 ^ k = 2 * 2 ^ (k - 1)) by (apply pow2_split; lia).
  assert (E2 : 2 ^ (k + 1) = 2 * 2 ^ k)
    by (rewrite (pow2_split (k + 1)) by lia; do 2 f_equal; lia).
  assert (E3 : 2 ^ (k + 1 - 1) = 2 ^ k) by (f_equal; lia).
  pose proof (pow2_pos (k - 1) ltac:(lia)) as P.
  destruct mrs as [m r s]. cbn [shr_m] in *.
  destruct m as [|[p|p|]|p]; try lia;
    try (pose proof (Pos2Z.inj_xI p) as Ep);
    try (pose proof (Pos2Z.inj_xO p) as Ep);
    destruct r, s; cbn [shr_1 shr_m loc_of_shr_record orb inbetween] in *;
    rewrite ?E2, ?E3;
    (split; [try reflexivity; symmetry; try (rewrite Ep); dlia | try (rewrite Ep in I); nia]).
Qed.

Lemma iter_shr_spec (p : positive) :
  forall (mrs : shr_record) (k N : Z),
  0 <= shr_m mrs -> 1 <= k ->
  inbetween (shr_m mrs) (loc_of_shr_record mrs) k N ->
  shr_m (iter_pos shr_1 p mrs) = shr_m mrs / 2 ^ Zpos p /\
  inbetween (shr_m (iter_pos shr_1 p mrs))
    (loc_of_shr_record (iter_pos shr_1 p mrs)) (k + Zpos p) N.
Proof.
  assert (P : forall q, 0 < 2 ^ Zpos q) by (intros q; apply pow2_pos; lia).
  induction p as [p IH | p IH |]; intros mrs k N M K I; cbn [iter_pos].
  - destruct (shr_1_spec mrs k N M K I) as [E1 I1].
    assert (M1 : 0 <= shr_m (shr_1 mrs)) by (rewrite E1; apply Z.div_pos; lia).
    destruct (IH _ (k + 1) N M1 ltac:(lia) I1) as [E2 I2].
    assert (M2 : 0 <= shr_m (iter_pos shr_1 p (shr_1 mrs)))
      by (rewrite E2; apply Z.div_pos; [lia | apply P]).
    destruct (IH _ (k + 1 + Zpos p) N M2 ltac:(lia) I2) as [E3 I3].
    split.
    + rewrite E3, E2, E1. pose proof (P p).
      rewrite !Z.div_div by lia. f_equal.
      rewrite (Pos2Z.inj_xI p).
      replace (2 * Zpos p + 1) with (1 + Zpos p + Zpos p) by lia.
      rewrite !pow2_add by lia. change (2 ^ 1) with 2. lia.
    + replace (k + Zpos p~1) with (k + 1 + Zpos p + Zpos p) by lia. exact I3.
  - destruct (IH _ k N M K I) as [E2 I2].
    assert (M2 : 0 <= shr_m (iter_pos shr_1 p mrs))
      by (rewrite E2; apply Z.div_pos; [lia | apply P]).
    destruct (IH _ (k + Zpos p) N M2 ltac:(lia) I2) as [E3 I3].
    split.
    + rewrite E3, E2. pose proof (P p).
      rewrite !Z.div_div by lia. f_equal.
      rewrite (Pos2Z.inj_xO p).
      replace (2 * Zpos p) with (Zpos p + Zpos p) by lia.
      rewrite !pow2_add by lia. lia.
    + replace (k + Zpos p~0) with (k + Zpos p + Zpos p) by lia. exact I3.
  - apply shr_1_spec; assumption.
Qed.

(** The first step of a rounding: the mantissa is cut down to the
    exponent of the format, and the location follows. *)
Lemma shr_fexp_spec (m e : Z) (l : location) (k N : Z) :
  0 <= m -> 1 <= k -> inbetween m l k N ->
  let n := Z.max 0 (fexp prec emax (Zdigits2 m + e) - e) in
  let mrs := fst (shr_fexp prec emax m e l) in
  snd (shr_fexp prec emax m e l) = e + n /\
  shr_m mrs = m / 2 ^ n /\
  inbetween (shr_m mrs) (loc_of_shr_record mrs) (k + n) N.
Proof.
  intros M K I n mrs. unfold mrs, shr_fexp, shr.
  destruct (loc_of_shr_record_of_loc m l) as [El Em].
  fold (fexp prec emax (Zdigits2 m + e)) in n.
  destruct (fexp prec emax (Zdigits2 m + e) - e) as [|p|p] eqn:D; cbn [fst snd].
  - assert (n = 0) as -> by (unfold n; lia).
    rewrite El, Em, Z.add_0_r, Z.add_0_r. cbn. rewrite Z.div_1_r. auto.
  - assert (n = Zpos p) as -> by (unfold n; lia).
    split; [reflexivity|].
    destruct (iter_shr_spec p (shr_record_of_loc m l) k N) as [E1 I1];
      rewrite ?El, ?Em; try assumption.
    rewrite Em in E1. auto.
  - assert (n = 0) as -> by (unfold n; lia).
    rewrite El, Em, Z.add_0_r, Z.add_0_r. cbn. rewrite Z.div_1_r. auto.
Qed.

(** The second step: to nearest, ties to even. *)
Lemma round_nearest_even_spec (m : Z) (l : location) (k N : Z) :
  1 <= k -> inbetween m l k N ->
  let m1 := round_nearest_even m l in
  (m1 = m \/ m1 = m + 1) /\
  m * 2 ^ k <= N < (m + 1) * 2 ^ k /\
  - 2 ^ (k - 1) <= m1 * 2 ^ k - N <= 2 ^ (k - 1) /\
  (N = m * 2 ^ k -> m1 = m).
Proof.
  intros K I m1. unfold m1.
  assert (E1 : 2 ^ k = 2 * 2 ^ (k - 1)) by (apply pow2_split; lia).
  pose proof (pow2_pos (k - 1) ltac:(lia)) as P.
  destruct l as [|[]]; cbn [round_nearest_even inbetween] in *;
    try destruct (Z.even m); repeat split; try lia; try (left; reflexivity);
    try (right; reflexivity).
Qed.

Lemma round_nearest_even_step (m : Z) (l : location) :
  round_nearest_even m l = m \/ round_nearest_even m l = m + 1.
Proof.
  destruct l as [|[]]; cbn; try destruct (Z.even m); auto.
Qed.

Lemma inbetween_exists (m : Z) (l : location) : exists N, inbetween m l 2 N.
Proof.
  destruct l as [|[]]; cbn [inbetween].
  - exists (m * 4). reflexivity.
  - exists (m * 4 + 2). reflexivity.
  - exists (m * 4 + 1). cbn. lia.
  - exists (m * 4 + 3). cbn. lia.
Qed.

(** The last step of a rounding: a mantissa that fits the format stays,
    a carry into the 54th bit is shifted out. *)
Lemma renormalise (sx : bool) (m1 e1 : Z) :
  0 <= m1 -> -1074 <= e1 ->
  m1 = 2 ^ 53 \/ (0 < m1 -> fexp prec emax (Zdigits2 m1 + e1) = e1) ->
  (let '(mrs, e2) := shr_fexp prec emax m1 e1 loc_Exact in
   match shr_m mrs with
   | Z0 => S754_zero sx
   | Zpos m => if e2 <=? emax - prec then S754_finite sx m e2 else S754_infinity sx
   | Zneg _ => S754_nan
   end) = roundedFloat sx m1 e1 /\
  valid_binary (roundedFloat sx m1 e1) = true.
Proof.
  intros M E C. destruct C as [-> | C].
  - unfold shr_fexp, roundedFloat. change (Zdigits2 (2 ^ 53)) with 54. rewrite fexp_eq.
    replace (Z.max (54 + e1 - 53) (-1074) - e1) with 1 by lia.
    change (2 ^ 53) with 9007199254740992.
    cbn [shr shr_record_of_loc iter_pos shr_1 shr_m orb Z.eqb Pos.eqb].
    change (emax - prec) with 971.
    destruct (e1 + 1 <=? 971) eqn:B; [|split; reflexivity].
    split; [reflexivity|].
    unfold valid_binary, SpecFloat.valid_binary, bounded, canonical_mantissa.
    change (Zpos (digits2_pos 4503599627370496)) with 53.
    rewrite fexp_eq. change (emax - prec) with 971. rewrite B.
    replace (Z.max (53 + (e1 + 1) - 53) (-1074)) with (e1 + 1) by lia.
    rewrite Z.eqb_refl. reflexivity.
  - destruct m1 as [|p|p]; try lia.
    + unfold shr_fexp. cbn [Zdigits2]. rewrite fexp_eq.
      destruct (Z.max (0 + e1 - 53) (-1074) - e1) as [|q|q] eqn:D; try lia;
        cbn; split; reflexivity.
    + specialize (C ltac:(lia)).
      unfold shr_fexp. rewrite C, Z.sub_diag.
      cbn [shr shr_record_of_loc shr_m roundedFloat].
      change (emax - prec) with 971.
      destruct (Zpos p =? 2 ^ 53) eqn:T.
      * exfalso. apply Z.eqb_eq in T. rewrite T in C.
        change (Zdigits2 (2 ^ 53)) with 54 in C. rewrite fexp_eq in C. lia.
      * destruct (e1 <=? 971) eqn:B; [|split; reflexivity].
        split; [reflexivity|].
        unfold valid_binary, SpecFloat.valid_binary, bounded, canonical_mantissa.
        cbn [Zdigits2] in C. rewrite C, Z.eqb_refl.
        change (emax - prec) with 971. rewrite B. reflexivity.
Qed.

(** The shape of a rounding.  The mantissa [mx >= 0] at the exponent
    [ex], which is at most the exponent of the format for a number
    that size, is divided by [2^(e1 - ex)], rounded to nearest even,
    and made a binary64 value, which is valid. *)
Lemma binary_round_aux_shape (sx : bool) (mx ex : Z) (lx : location) :
  0 <= mx -> ex <= fexp prec emax (Zdigits2 mx + ex) ->
  let e1 := fexp prec emax (Zdigits2 mx + ex) in
  let mrs := fst (shr_fexp prec emax mx ex lx) in
  let m1 := round_nearest_even (shr_m mrs) (loc_of_shr_record mrs) in
  binary_round_aux prec emax sx mx ex lx = roundedFloat sx m1 e1 /\
  valid_binary (roundedFloat sx m1 e1) = true /\
  snd (shr_fexp prec emax mx ex lx) = e1 /\
  shr_m mrs = mx / 2 ^ (e1 - ex) /\
  -1074 <= e1 /\
  ((shr_m mrs = 0 /\ e1 = -1074) \/
   (0 < shr_m mrs /\ Zdigits2 (shr_m mrs) + e1 = Zdigits2 mx + ex)).
Proof.
  intros M PRE e1 mrs m1.
  destruct (inbetween_exists mx lx) as [N I].
  destruct (shr_fexp_spec mx ex lx 2 N M ltac:(lia) I) as (Ee & Em & _).
  fold e1 in Ee, Em. fold mrs in Em.
  replace (Z.max 0 (e1 - ex)) with (e1 - ex) in Ee, Em by (fold e1 in PRE; lia).
  replace (ex + (e1 - ex)) with e1 in Ee by lia.
  assert (E1 : -1074 <= e1) by (unfold e1; rewrite fexp_eq; lia).
  assert (Cases : (shr_m mrs = 0 /\ e1 = -1074) \/
                  (0 < shr_m mrs /\ Zdigits2 (shr_m mrs) + e1 = Zdigits2 mx + ex)).
  { destruct (Z.eq_dec mx 0) as [-> | Nz].
    - left. split; [rewrite Em; apply Z.div_0_l; pose proof (pow2_pos (e1 - ex)); fold e1 in PRE; lia|].
      unfold e1 in *. cbn [Zdigits2] in *. rewrite fexp_eq in *. lia.
    - destruct (Zdigits2_shift mx (e1 - ex) ltac:(lia) ltac:(fold e1 in PRE; lia)) as [Lt Ge].
      destruct (Z.lt_ge_cases (e1 - ex) (Zdigits2 mx)) as [H | H].
      + right. destruct (Lt H) as [P D]. rewrite Em. split; [exact P | lia].
      + left. split; [rewrite Em; apply Ge; exact H|].
        unfold e1 in *. rewrite fexp_eq in *. lia. }
  assert (Canon : m1 = 2 ^ 53 \/ (0 < m1 -> fexp prec emax (Zdigits2 m1 + e1) = e1)).
  { destruct Cases as [[Z0 Ez] | [P D]].
    - right. intros Pm. unfold m1 in *.
      destruct (round_nearest_even_step (shr_m mrs) (loc_of_shr_record mrs)) as [R | R];
        rewrite R in Pm |- *; rewrite Z0 in Pm |- *; [lia|].
      cbn. rewrite Ez. reflexivity.
    - assert (F : fexp prec emax (Zdigits2 (shr_m mrs) + e1) = e1) by (rewrite D; reflexivity).
      assert (D53 : Zdigits2 (shr_m mrs) <= 53) by (rewrite fexp_eq in F; lia).
      pose proof (Zdigits2_bounds _ P) as [L U].
      pose proof (Zdigits2_pos _ P) as P1.
      unfold m1.
      destruct (round_nearest_even_step (shr_m mrs) (loc_of_shr_record mrs)) as [R | R];
        rewrite R; [right; intros _; exact F|].
      destruct (Z.eq_dec (shr_m mrs + 1) (2 ^ Zdigits2 (shr_m mrs))) as [Carry | NoCarry].
      + assert (Dg : Zdigits2 (shr_m mrs + 1) = Zdigits2 (shr_m mrs) + 1).
        { apply Zdigits2_unique; [lia|]. rewrite Carry.
          replace (Zdigits2 (shr_m mrs) + 1 - 1) with (Zdigits2 (shr_m mrs)) by lia.
          split; [lia|]. apply pow2_lt; lia. }
        destruct (Z.eq_dec (Zdigits2 (shr_m mrs)) 53) as [E53 | N53].
        * left. rewrite Carry, E53. reflexivity.
        * right. intros _. rewrite Dg. rewrite fexp_eq in *. lia.
      + right. intros _.
        replace (Zdigits2 (shr_m mrs + 1)) with (Zdigits2 (shr_m mrs)); [exact F|].
        symmetry. apply Zdigits2_unique; lia. }
  assert (M1 : 0 <= m1).
  { unfold m1.
    destruct (round_nearest_even_step (shr_m mrs) (loc_of_shr_record mrs)) as [R | R];
      rewrite R; destruct Cases as [[Z0 _] | [P _]]; lia. }
  destruct (renormalise sx m1 e1 M1 E1 Canon) as [R V].
  split; [|split; [exact V | split; [exact Ee | split; [exact Em | split; [exact E1 | exact Cases]]]]].
  rewrite <- R. unfold binary_round_aux.
  destruct (shr_fexp prec emax mx ex lx) as [mrs0 e0] eqn:S1.
  cbn [fst snd] in *. subst e0. fold m1. reflexivity.
Qed.

(** *** Division *)

Lemma fexp_mono (a b : Z) : a <= b -> fexp prec emax a <= fexp prec emax b.
Proof. rewrite !fexp_eq. lia. Qed.

(** The quotient that [SFdiv] hands to the rounding has enough digits. *)
Lemma SFdiv_core_binary_pre (m1 e1 m2 e2 : Z) :
  0 < m1 -> 0 < m2 ->
  let '(q, e, l) := SFdiv_core_binary prec emax m1 e1 m2 e2 in
  0 <= q /\ e <= fexp prec emax (Zdigits2 q + e) /\
  exists s r, 0 <= s /\ e = e1 - e2 - s /\ m1 * 2 ^ s = q * m2 + r /\ 0 <= r < m2 /\
              Z.min (-1074) (e1 - e2) <= e /\
              l = new_location m2 r.
Proof.
  intros M1 M2. unfold SFdiv_core_binary.
  set (a := Zdigits2 m1 + e1 - (Zdigits2 m2 + e2)).
  set (e := Z.min (fexp prec emax a) (e1 - e2)).
  set (s := e1 - e2 - e).
  assert (S0 : 0 <= s) by (unfold s, e; lia).
  assert (Em : match s with
               | 0 => m1
               | Zpos _ => Z.shiftl m1 s
               | Zneg _ => 0
               end = m1 * 2 ^ s).
  { destruct s as [|p|p] eqn:Es; [cbn; lia | | lia].
    rewrite Z.shiftl_mul_pow2 by lia. reflexivity. }
  rewrite Em.
  pose proof (Z.div_eucl_eq (m1 * 2 ^ s) m2 ltac:(lia)) as Eq.
  pose proof (Z.mod_pos_bound (m1 * 2 ^ s) m2 M2) as Rb.
  unfold Z.modulo in Rb.
  destruct (Z.div_eucl (m1 * 2 ^ s) m2) as [q r].
  pose proof (pow2_pos s S0) as Ps.
  pose proof (Zdigits2_bounds m1 M1) as [L1 U1].
  pose proof (Zdigits2_bounds m2 M2) as [L2 U2].
  pose proof (Zdigits2_pos m1 M1) as D1. pose proof (Zdigits2_pos m2 M2) as D2.
  assert (Q0 : 0 <= q) by nia.
  assert (Low : 2 ^ (Zdigits2 m1 - 1 + s) <= m1 * 2 ^ s).
  { rewrite pow2_add by lia. nia. }
  split; [exact Q0|]. split.
  - destruct (Z.eq_dec q 0) as [-> | Nq].
    + cbn [Zdigits2]. rewrite Z.add_0_l.
      assert (Zdigits2 m1 - 1 + s < Zdigits2 m2).
      { destruct (Z.lt_ge_cases (Zdigits2 m1 - 1 + s) (Zdigits2 m2)) as [H|H]; [exact H|].
        assert (2 ^ Zdigits2 m2 <= 2 ^ (Zdigits2 m1 - 1 + s)) by (apply pow2_le; lia). lia. }
      assert (a <= e) by (unfold a, s in *; lia).
      unfold e in *. rewrite !fexp_eq in *. lia.
    + assert (Qp : 0 < q) by lia.
      pose proof (Zdigits2_bounds q Qp) as [Lq Uq].
      pose proof (Zdigits2_pos q Qp) as Dq1.
      assert (Dq : Zdigits2 m1 + s - Zdigits2 m2 <= Zdigits2 q).
      { destruct (Z.le_gt_cases (Zdigits2 m1 + s - Zdigits2 m2) (Zdigits2 q)) as [H|H];
          [exact H | exfalso].
        assert (P1 : 2 ^ Zdigits2 q <= 2 ^ (Zdigits2 m1 + s - Zdigits2 m2 - 1))
          by (apply pow2_le; lia).
        assert (P2 : 2 ^ (Zdigits2 m1 - 1 + s)
                     = 2 ^ (Zdigits2 m1 + s - Zdigits2 m2 - 1) * 2 ^ Zdigits2 m2).
        { rewrite <- pow2_add by lia. f_equal. lia. }
        pose proof (pow2_pos (Zdigits2 m1 + s - Zdigits2 m2 - 1) ltac:(lia)) as P3.
        nia. }
      assert (A : a <= Zdigits2 q + e) by (unfold a, s in *; lia).
      apply fexp_mono in A. unfold e in *. lia.
  - assert (Elow : Z.min (-1074) (e1 - e2) <= e).
    { unfold e. pose proof (fexp_eq a) as Fa. lia. }
    exists s, r. repeat split; lia.
Qed.

(** A quotient of two finite numbers is a valid binary64 value, and it
    is no NaN. *)
Lemma SFdiv_finite (sx sy : bool) (mx my : positive) (ex ey : Z) :
  exists m1 e1,
    0 <= m1 /\
    SFdiv prec emax (S754_finite sx mx ex) (S754_finite sy my ey)
    = roundedFloat (xorb sx sy) m1 e1 /\
    valid_binary (roundedFloat (xorb sx sy) m1 e1) = true.
Proof.
  cbn [SFdiv].
  pose proof (SFdiv_core_binary_pre (Zpos mx) ex (Zpos my) ey ltac:(lia) ltac:(lia)) as H.
  destruct (SFdiv_core_binary prec emax (Zpos mx) ex (Zpos my) ey) as [[q e] l].
  destruct H as (Q & PRE & _).
  destruct (binary_round_aux_shape (xorb sx sy) q e l Q PRE) as (E & V & _ & Em & _ & Cases).
  eexists. eexists. split; [|split; [exact E | exact V]].
  match goal with |- 0 <= round_nearest_even ?m ?l =>
    destruct (round_nearest_even_step m l) as [R | R]; rewrite R;
    destruct Cases as [[Z0 _] | [P _]]; lia
  end.
Qed.

Lemma roundedFloat_not_nan (sx : bool) (m1 e1 : Z) :
  0 <= m1 -> roundedFloat sx m1 e1 <> S754_nan.
Proof.
  intros M. unfold roundedFloat. destruct m1 as [|p|p]; try lia; try discriminate.
  destruct (Zpos p =? 2 ^ 53); [destruct (e1 + 1 <=? 971) | destruct (e1 <=? 971)];
    discriminate.
Qed.

(** A decimal is never read as NaN. *)
Lemma decimalToNumber_not_NaN (m : Z) (k : nat) : isNaN (decimalToNumber m k) = false.
Proof.
  unfold decimalToNumber. destruct m as [|p|p]; try reflexivity.
  destruct (SFdiv_finite false false p (Z.to_pos (10 ^ Z.of_nat k)) 0 0)
    as (m1 & e1 & M & E & V).
  rewrite E. apply notNaN_spec. rewrite Prim2SF_SF2Prim by exact V.
  apply roundedFloat_not_nan, M.
Qed.

(** *** The value of a rounding *)

(** Of two mantissas at the exponents of the format, the one at the
    smaller exponent is the smaller number. *)
Lemma canonical_lt (ma ea mb eb : Z) :
  0 < ma -> 0 < mb ->
  fexp prec emax (Zdigits2 ma + ea) = ea ->
  fexp prec emax (Zdigits2 mb + eb) = eb ->
  ea < eb ->
  ma * 2 ^ (ea + scale) < mb * 2 ^ (eb + scale).
Proof.
  intros A B Ca Cb L.
  pose proof (Zdigits2_bounds ma A) as [La Ua].
  pose proof (Zdigits2_bounds mb B) as [Lb Ub].
  pose proof (Zdigits2_pos ma A) as Pa. pose proof (Zdigits2_pos mb B) as Pb.
  assert (D : Zdigits2 ma + ea < Zdigits2 mb + eb).
  { destruct (Z.lt_ge_cases (Zdigits2 ma + ea) (Zdigits2 mb + eb)) as [H|H]; [exact H|].
    apply fexp_mono in H. lia. }
  assert (Ea : -1074 <= ea) by (rewrite fexp_eq in Ca; lia).
  unfold scale.
  pose proof (pow2_pos (ea + 2200) ltac:(lia)) as P1.
  pose proof (pow2_pos (eb + 2200) ltac:(lia)) as P2.
  assert (U : ma * 2 ^ (ea + 2200) < 2 ^ (Zdigits2 ma + ea + 2200)).
  { replace (Zdigits2 ma + ea + 2200) with (Zdigits2 ma + (ea + 2200)) by lia.
    rewrite (pow2_add (Zdigits2 ma) (ea + 2200)) by lia. nia. }
  assert (Lw : 2 ^ (Zdigits2 mb - 1 + eb + 2200) <= mb * 2 ^ (eb + 2200)).
  { replace (Zdigits2 mb - 1 + eb + 2200) with (Zdigits2 mb - 1 + (eb + 2200)) by lia.
    rewrite (pow2_add (Zdigits2 mb - 1) (eb + 2200)) by lia. nia. }
  assert (2 ^ (Zdigits2 ma + ea + 2200) <= 2 ^ (Zdigits2 mb - 1 + eb + 2200))
    by (apply pow2_le; lia).
  lia.
Qed.

Lemma scaled_roundedFloat (sx : bool) (m1 e1 : Z) :
  0 <= m1 -> -1074 <= e1 -> finiteSF (roundedFloat sx m1 e1) = true ->
  scaled (roundedFloat sx m1 e1)
  = if sx then - (m1 * 2 ^ (e1 + scale)) else m1 * 2 ^ (e1 + scale).
Proof.
  intros M E. unfold roundedFloat. destruct m1 as [|p|p]; try lia.
  - intros _. cbn. destruct sx; reflexivity.
  - destruct (Zpos p =? 2 ^ 53) eqn:T.
    + apply Z.eqb_eq in T. rewrite T.
      destruct (e1 + 1 <=? 971); [|discriminate]. intros _. cbn [scaled].
      replace (e1 + 1 + scale) with (1 + (e1 + scale)) by lia.
      rewrite (pow2_add 1 (e1 + scale)) by (unfold scale; lia).
      change (2 ^ 53) with 9007199254740992. change (2 ^ 1) with 2.
      destruct sx; lia.
    + destruct (e1 <=? 971); [|discriminate]. intros _. reflexivity.
Qed.

(** The magnitude of a rounding.  [N] is the magnitude of the exact
    value, in units of [2^-2200]. *)
Lemma round_magnitude (sx : bool) (mx ex : Z) (lx : location) (N : Z) :
  0 <= mx -> ex <= fexp prec emax (Zdigits2 mx + ex) ->
  1 <= ex + scale -> inbetween mx lx (ex + scale) N ->
  exists R,
    0 <= R /\
    (N = 0 -> R = 0) /\
    (forall mf ef, 0 < mf -> fexp prec emax (Zdigits2 mf + ef) = ef ->
       (mf * 2 ^ (ef + scale) <= N -> mf * 2 ^ (ef + scale) <= R) /\
       (N <= mf * 2 ^ (ef + scale) -> R <= mf * 2 ^ (ef + scale))) /\
    2 ^ 53 * Z.abs (R - N) <= N + 2 ^ (scale - 1022) /\
    valid_binary (binary_round_aux prec emax sx mx ex lx) = true /\
    binary_round_aux prec emax sx mx ex lx <> S754_nan /\
    (finiteSF (binary_round_aux prec emax sx mx ex lx) = true ->
     scaled (binary_round_aux prec emax sx mx ex lx) = if sx then - R else R) /\
    (finiteSF (binary_round_aux prec emax sx mx ex lx) = false -> largestValue <= N) /\
    0 <= N.
Proof.
  intros M PRE K I.
  destruct (binary_round_aux_shape sx mx ex lx M PRE) as (E & V & Ee & Em & E1 & Cases).
  destruct (shr_fexp_spec mx ex lx (ex + scale) N M K I) as (_ & _ & I1).
  set (e1 := fexp prec emax (Zdigits2 mx + ex)) in *.
  set (mrs := fst (shr_fexp prec emax mx ex lx)) in *.
  set (m' := shr_m mrs) in *.
  replace (ex + scale + Z.max 0 (e1 - ex)) with (e1 + scale) in I1 by lia.
  destruct (round_nearest_even_spec m' (loc_of_shr_record mrs) (e1 + scale) N
              ltac:(lia) I1) as (Step & Bnd & Near & Exact).
  set (m1 := round_nearest_even m' (loc_of_shr_record mrs)) in *.
  set (K1 := e1 + scale) in *.
  assert (PK : 0 < 2 ^ K1) by (apply pow2_pos; unfold K1, scale; lia).
  assert (PK1 : 2 ^ K1 = 2 * 2 ^ (K1 - 1)) by (apply pow2_split; unfold K1, scale; lia).
  assert (M' : 0 <= m') by (destruct Cases as [[Z0 _] | [P _]]; lia).
  assert (M1 : 0 <= m1) by lia.
  assert (Canon : 0 < m' -> fexp prec emax (Zdigits2 m' + e1) = e1).
  { intros P. destruct Cases as [[Z0 _] | [_ D]]; [lia|]. rewrite D. reflexivity. }
  assert (Small : m' = 0 -> e1 = -1074).
  { intros Z0. destruct Cases as [[_ Ez] | [P _]]; [exact Ez | lia]. }
  exists (m1 * 2 ^ K1).
  assert (Mono1 : m' * 2 ^ K1 <= m1 * 2 ^ K1)
    by (apply Z.mul_le_mono_nonneg_r; lia).
  assert (Mono2 : m1 * 2 ^ K1 <= (m' + 1) * 2 ^ K1)
    by (apply Z.mul_le_mono_nonneg_r; lia).
  assert (NonNeg : 0 <= m' * 2 ^ K1) by (apply Z.mul_nonneg_nonneg; lia).
  split; [lia|]. split.
  { intros ->. assert (Z0 : m' * 2 ^ K1 = 0) by lia.
    apply Z.eq_mul_0 in Z0. destruct Z0 as [Z0 | Z0]; [|lia].
    rewrite Exact by (rewrite Z0; reflexivity). rewrite Z0. reflexivity. }
  split; [|split; [|split; [rewrite E; exact V | split; [|split; [|split; [|lia]]]]]].
  - intros mf ef Pf Cf.
    assert (Ef : -1074 <= ef) by (rewrite fexp_eq in Cf; lia).
    destruct (Z.lt_ge_cases ef e1) as [Lt | Ge].
    + (* a number of the format below the exponent of the rounding *)
      assert (Pm : 0 < m').
      { destruct (Z.eq_dec m' 0) as [Z0|]; [specialize (Small Z0)|]; lia. }
      pose proof (canonical_lt mf ef m' e1 Pf Pm Cf (Canon Pm) Lt) as Below.
      fold K1 in Below. split; intros H; lia.
    + assert (Ek : 2 ^ (ef + scale) = 2 ^ (ef - e1) * 2 ^ K1).
      { rewrite <- (pow2_add (ef - e1) K1) by (unfold K1, scale; lia).
        f_equal. unfold K1. lia. }
      pose proof (pow2_pos (ef - e1) ltac:(lia)) as Pc.
      rewrite Ek, Z.mul_assoc. set (c := mf * 2 ^ (ef - e1)). split; intros H.
      * assert (Lc : c <= m').
        { assert (Hc : c * 2 ^ K1 < (m' + 1) * 2 ^ K1) by lia.
          apply Z.mul_lt_mono_pos_r in Hc; lia. }
        assert (c * 2 ^ K1 <= m' * 2 ^ K1) by (apply Z.mul_le_mono_nonneg_r; lia).
        lia.
      * destruct (Z.eq_dec N (m' * 2 ^ K1)) as [Ex | Nx].
        -- rewrite (Exact Ex). lia.
        -- assert (Lc : m' + 1 <= c).
           { assert (Hc : m' * 2 ^ K1 < c * 2 ^ K1) by lia.
             apply Z.mul_lt_mono_pos_r in Hc; lia. }
           assert ((m' + 1) * 2 ^ K1 <= c * 2 ^ K1)
             by (apply Z.mul_le_mono_nonneg_r; lia).
           lia.
  - (* half a unit in the last place *)
    assert (A : Z.abs (m1 * 2 ^ K1 - N) <= 2 ^ (K1 - 1)) by lia.
    destruct (Z.eq_dec e1 (-1074)) as [Ez | Nz].
    + assert (2 ^ 53 * 2 ^ (K1 - 1) = 2 ^ (scale - 1022)).
      { rewrite <- (pow2_add 53 (K1 - 1)) by (unfold K1, scale; lia).
        f_equal. unfold K1. lia. }
      change (2 ^ 53) with 9007199254740992 in *. lia.
    + assert (Pm : 0 < m').
      { destruct (Z.eq_dec m' 0) as [Z0|]; [specialize (Small Z0)|]; lia. }
      pose proof (Canon Pm) as C. rewrite fexp_eq in C.
      assert (D : Zdigits2 m' = 53) by lia.
      pose proof (Zdigits2_bounds m' Pm) as [L _]. rewrite D in L.
      change (2 ^ (53 - 1)) with 4503599627370496 in L.
      change (2 ^ 53) with 9007199254740992.
      pose proof (pow2_pos (scale - 1022) ltac:(unfold scale; lia)).
      assert (4503599627370496 * 2 ^ K1 <= m' * 2 ^ K1)
        by (apply Z.mul_le_mono_nonneg_r; lia).
      lia.
  - rewrite E. apply roundedFloat_not_nan, M1.
  - rewrite E. intros F. apply scaled_roundedFloat; assumption.
  - (* an infinity comes from a large value only *)
    rewrite E. unfold roundedFloat, largestValue.
    assert (Big : forall e, 971 <= e -> 2 ^ (971 + scale) <= 2 ^ (e + scale))
      by (intros e He; apply pow2_le; lia).
    pose proof (pow2_pos (971 + scale) ltac:(unfold scale; lia)) as P971.
    change (2 ^ 53) with 9007199254740992 in *.
    destruct m1 as [|p|p] eqn:Em1; try discriminate; try lia.
    destruct (Zpos p =? 9007199254740992) eqn:T.
    + apply Z.eqb_eq in T.
      destruct (Z.leb_spec (e1 + 1) 971) as [B|B]; [discriminate|]. intros _.
      specialize (Big e1 ltac:(lia)). fold K1 in Big.
      assert (9007199254740991 * 2 ^ K1 <= m' * 2 ^ K1)
        by (apply Z.mul_le_mono_nonneg_r; lia).
      lia.
    + apply Z.eqb_neq in T.
      destruct (Z.leb_spec e1 971) as [B|B]; [discriminate|]. intros _.
      assert (Pm : 0 < m').
      { destruct (Z.eq_dec m' 0) as [Z0|]; [specialize (Small Z0)|]; lia. }
      pose proof (Canon Pm) as C. rewrite fexp_eq in C.
      assert (D : Zdigits2 m' = 53) by lia.
      pose proof (Zdigits2_bounds m' Pm) as [L _]. rewrite D in L.
      change (2 ^ (53 - 1)) with 4503599627370496 in L.
      assert (B2 : 2 ^ (972 + scale) <= 2 ^ K1) by (apply pow2_le; unfold K1; lia).
      assert (B3 : 2 ^ (972 + scale) = 2 * 2 ^ (971 + scale)).
      { rewrite (pow2_split (972 + scale)) by (unfold scale; lia). reflexivity. }
      assert (4503599627370496 * 2 ^ K1 <= m' * 2 ^ K1)
        by (apply Z.mul_le_mono_nonneg_r; lia).
      lia.
Qed.

Lemma canonicalValue_cases (F : Z) :
  canonicalValue F ->
  F = 0 \/
  exists m e, 0 < m /\ fexp prec emax (Zdigits2 m + e) = e /\
              (F = m * 2 ^ (e + scale) \/ F = - (m * 2 ^ (e + scale))) /\
              0 < m * 2 ^ (e + scale).
Proof.
  intros [Z0 | (m & e & M & C & A)]; [left; exact Z0 | right].
  exists m, e. split; [exact M|]. split; [exact C|].
  assert (-1074 <= e) by (rewrite fexp_eq in C; lia).
  pose proof (pow2_pos (e + scale) ltac:(unfold scale; lia)).
  split; [lia | nia].
Qed.

(** A rounding with its sign. *)
Lemma round_signed (sx : bool) (mx ex : Z) (lx : location) (N : Z) :
  0 <= mx -> ex <= fexp prec emax (Zdigits2 mx + ex) ->
  1 <= ex + scale -> inbetween mx lx (ex + scale) N ->
  isRounding (if sx then - N else N) (binary_round_aux prec emax sx mx ex lx).
Proof.
  intros M PRE K I.
  destruct (round_magnitude sx mx ex lx N M PRE K I)
    as (R & R0 & Rz & Faith & Err & V & NN & Sc & Ov & N0).
  split; [exact V|]. split; [exact NN|]. split.
  - intros Fin. rewrite (Sc Fin). split.
    + intros F CF. apply canonicalValue_cases in CF.
      destruct CF as [-> | (m & e & Pm & C & Sg & Pos)].
      * destruct sx; split; intros H; try lia;
          assert (N = 0) by lia; specialize (Rz ltac:(assumption)); lia.
      * destruct (Faith m e Pm C) as [L U].
        destruct sx, Sg as [-> | ->]; split; intros H; lia.
    + destruct sx; [|rewrite (Z.abs_eq N) by lia; exact Err].
      replace (- R - - N) with (- (R - N)) by lia.
      rewrite !Z.abs_opp. rewrite (Z.abs_eq N) by lia. exact Err.
  - intros Fin. specialize (Ov Fin). destruct sx; lia.
Qed.

(** *** The operations *)

Lemma iter_xO (m d : positive) : Zpos (Pos.iter xO m d) = Zpos m * 2 ^ Zpos d.
Proof.
  induction d as [|d IH] using Pos.peano_ind.
  - cbn [Pos.iter]. rewrite (Pos2Z.inj_xO m). change (2 ^ 1) with 2. lia.
  - rewrite Pos.iter_succ, (Pos2Z.inj_xO (Pos.iter xO m d)), IH, Pos2Z.inj_succ.
    rewrite Z.pow_succ_r by lia. lia.
Qed.

Lemma shl_align_spec (mx : positive) (ex ex' : Z) :
  snd (shl_align mx ex ex') = Z.min ex ex' /\
  Zpos (fst (shl_align mx ex ex')) = Zpos mx * 2 ^ (ex - Z.min ex ex').
Proof.
  unfold shl_align. destruct (ex' - ex) as [|d|d] eqn:D; cbn [fst snd].
  - replace (Z.min ex ex') with ex by lia. rewrite Z.sub_diag. cbn. lia.
  - replace (Z.min ex ex') with ex by lia. rewrite Z.sub_diag. cbn. lia.
  - replace (Z.min ex ex') with ex' by lia. split; [reflexivity|].
    rewrite iter_xO. do 2 f_equal. lia.
Qed.

Lemma Zdigits2_mul_pow2 (m n : Z) :
  0 < m -> 0 <= n -> Zdigits2 (m * 2 ^ n) = Zdigits2 m + n.
Proof.
  intros M N. pose proof (Zdigits2_bounds m M) as [L U].
  pose proof (Zdigits2_pos m M) as P. pose proof (pow2_pos n N) as Pn.
  apply Zdigits2_unique; [nia|].
  replace (Zdigits2 m + n - 1) with (Zdigits2 m - 1 + n) by lia.
  rewrite (pow2_add (Zdigits2 m - 1) n), (pow2_add (Zdigits2 m) n) by lia. nia.
Qed.

Lemma valid_finite (s : bool) (m : positive) (e : Z) :
  valid_binary (S754_finite s m e) = true ->
  fexp prec emax (Zdigits2 (Zpos m) + e) = e /\ -1074 <= e <= 971 /\
  Zdigits2 (Zpos m) <= 53.
Proof.
  unfold valid_binary, SpecFloat.valid_binary, bounded, canonical_mantissa.
  intros V. apply andb_prop in V. destruct V as [C B].
  apply Z.eqb_eq in C. apply Z.leb_le in B. change (emax - prec) with 971 in B.
  cbn [Zdigits2]. split; [exact C|]. rewrite fexp_eq in C. lia.
Qed.

Lemma isRounding_self (x : spec_float) :
  valid_binary x = true -> finiteSF x = true -> isRounding (scaled x) x.
Proof.
  intros V F. split; [exact V|]. split; [destruct x; discriminate|]. split.
  - intros _. split; [intros G _; split; intros H; exact H|].
    rewrite Z.sub_diag. cbn [Z.abs].
    pose proof (pow2_pos (scale - 1022) ltac:(unfold scale; lia)). lia.
  - rewrite F. discriminate.
Qed.

Lemma isRounding_zero (s : bool) : isRounding 0 (S754_zero s).
Proof. apply (isRounding_self (S754_zero s)); reflexivity. Qed.

Lemma binary_round_rounds (sx : bool) (m : positive) (e : Z) :
  1 - scale <= e ->
  isRounding (if sx then - (Zpos m * 2 ^ (e + scale)) else Zpos m * 2 ^ (e + scale))
    (binary_round prec emax sx m e).
Proof.
  intros E. unfold binary_round.
  change (Zpos (digits2_pos m)) with (Zdigits2 (Zpos m)).
  set (e' := fexp prec emax (Zdigits2 (Zpos m) + e)).
  destruct (shl_align_spec m e e') as [Es Em].
  destruct (shl_align m e e') as [mz ez]. cbn [fst snd] in Es, Em.
  assert (E' : -1074 <= e') by (unfold e'; rewrite fexp_eq; lia).
  assert (Dg : Zdigits2 (Zpos mz) + ez = Zdigits2 (Zpos m) + e).
  { rewrite Em, Zdigits2_mul_pow2 by lia. lia. }
  apply round_signed.
  - lia.
  - rewrite Dg. fold e'. lia.
  - unfold scale in *. lia.
  - cbn [inbetween]. rewrite Em.
    replace (e + scale) with (e - Z.min e e' + (ez + scale)) by lia.
    rewrite (pow2_add (e - Z.min e e') (ez + scale)) by (unfold scale in *; lia).
    subst ez. lia.
Qed.

Lemma binary_normalize_rounds (M e : Z) (szero : bool) :
  1 - scale <= e ->
  isRounding (M * 2 ^ (e + scale)) (binary_normalize prec emax M e szero).
Proof.
  intros E. destruct M as [|p|p]; cbn [binary_normalize].
  - apply isRounding_zero.
  - apply (binary_round_rounds false p e E).
  - replace (Zneg p * 2 ^ (e + scale)) with (- (Zpos p * 2 ^ (e + scale))) by lia.
    apply (binary_round_rounds true p e E).
Qed.

Lemma scaled_aligned (s : bool) (m : positive) (e ez : Z) :
  - scale <= ez -> ez <= e ->
  scaled (S754_finite s m e)
  = cond_Zopp s (Zpos (fst (shl_align m e ez))) * 2 ^ (ez + scale).
Proof.
  intros Z0 L. destruct (shl_align_spec m e ez) as [_ Em]. rewrite Em.
  replace (Z.min e ez) with ez by lia. cbn [scaled].
  replace (e + scale) with (e - ez + (ez + scale)) by lia.
  rewrite (pow2_add (e - ez) (ez + scale)) by lia.
  destruct s; cbn [cond_Zopp]; lia.
Qed.

(** A sum of two finite numbers is a rounding of the exact sum. *)
Lemma SFadd_rounds (x y : spec_float) :
  valid_binary x = true -> valid_binary y = true ->
  finiteSF x = true -> finiteSF y = true ->
  isRounding (scaled x + scaled y) (SFadd prec emax x y).
Proof.
  intros Vx Vy Fx Fy.
  destruct x as [sx|sx| |sx mx ex], y as [sy|sy| |sy my ey]; try discriminate.
  - cbn [SFadd scaled]. destruct sx, sy; apply isRounding_zero.
  - apply (isRounding_self _ Vy Fy).
  - cbn [SFadd]. rewrite Z.add_0_r. apply (isRounding_self _ Vx Fx).
  - cbn [SFadd].
    destruct (valid_finite _ _ _ Vx) as (_ & Bx & _).
    destruct (valid_finite _ _ _ Vy) as (_ & By & _).
    rewrite (scaled_aligned sx mx ex (Z.min ex ey)) by (unfold scale; lia).
    rewrite (scaled_aligned sy my ey (Z.min ex ey)) by (unfold scale; lia).
    rewrite <- Z.mul_add_distr_r.
    apply binary_normalize_rounds. unfold scale. lia.
Qed.




Lemma new_location_inbetween (m2 r q k N : Z) :
  0 < m2 -> 0 <= r < m2 -> 1 <= k ->
  (N - q * 2 ^ k) * m2 = r * 2 ^ k ->
  inbetween q (new_location m2 r) k N.
Proof.
  intros M R K E.
  assert (E1 : 2 ^ k = 2 * 2 ^ (k - 1)) by (apply pow2_split; lia).
  pose proof (pow2_pos (k - 1) ltac:(lia)) as P.
  set (a := 2 ^ (k - 1)) in *. set (d := N - q * 2 ^ k) in *.
  rewrite E1 in E.
  assert (Ex : r = 0 -> N = q * 2 ^ k).
  { intros ->. rewrite Z.mul_0_l in E. apply Z.eq_mul_0 in E. unfold d in E. lia. }
  assert (Lo : r <> 0 -> 0 < d) by (intros; nia).
  assert (Hi : d < 2 * a) by nia.
  assert (Below : 2 * r < m2 -> d < a) by (intros; nia).
  assert (Above : m2 < 2 * r -> a < d) by (intros; nia).
  assert (Mid : 2 * r = m2 -> d = a) by (intros; nia).
  unfold new_location, new_location_even, new_location_odd.
  destruct (Z.even m2) eqn:Ev; destruct (r =? 0) eqn:T;
    try (apply Z.eqb_eq in T; exact (Ex T)); apply Z.eqb_neq in T;
    specialize (Lo T).
  - destruct (Z.compare_spec (2 * r) m2) as [C|C|C]; cbn [inbetween]; fold a;
      [specialize (Mid C) | specialize (Below C) | specialize (Above C)];
      unfold d in *; rewrite ?E1; lia.
  - assert (Od : Z.odd m2 = true) by (rewrite <- Z.negb_even, Ev; reflexivity).
    apply Z.odd_spec in Od. destruct Od as [h Od].
    destruct (Z.compare_spec (2 * r + 1) m2) as [C|C|C]; cbn [inbetween]; fold a;
      [specialize (Below ltac:(lia)) | specialize (Below ltac:(lia))
      | specialize (Above ltac:(lia))];
      unfold d in *; rewrite ?E1; lia.
Qed.

(** Half a finite number is a rounding of the exact half. *)
Lemma SFdiv_two_rounds (x : spec_float) :
  valid_binary x = true -> finiteSF x = true ->
  exists V, 2 * V = scaled x /\
            isRounding V (SFdiv prec emax x (S754_finite false 4503599627370496 (-51))).
Proof.
  intros Vx Fx. destruct x as [sx|sx| |sx mx ex]; try discriminate.
  - exists 0. split; [reflexivity|]. cbn [SFdiv]. apply isRounding_zero.
  - destruct (valid_finite _ _ _ Vx) as (Cx & Bx & Dx).
    exists (if sx then - (Zpos mx * 2 ^ (ex + scale - 1))
            else Zpos mx * 2 ^ (ex + scale - 1)).
    assert (Eh : 2 ^ (ex + scale) = 2 * 2 ^ (ex + scale - 1))
      by (apply pow2_split; unfold scale; lia).
    split; [cbn [scaled]; destruct sx; lia|].
    cbn [SFdiv]. rewrite xorb_false_r.
    pose proof (SFdiv_core_binary_pre (Zpos mx) ex 4503599627370496 (-51)
                  ltac:(lia) ltac:(lia)) as H.
    destruct (SFdiv_core_binary prec emax (Zpos mx) ex 4503599627370496 (-51))
      as [[q e] l].
    destruct H as (Q & PRE & s & r & S0 & Ee & Eq & Rb & Elow & ->).
    apply round_signed; [exact Q | exact PRE | unfold scale; lia |].
    apply new_location_inbetween; try lia; [unfold scale; lia|].
    assert (Ek : 2 ^ (ex + scale - 1) * 4503599627370496 = 2 ^ s * 2 ^ (e + scale)).
    { change 4503599627370496 with (2 ^ 52).
      rewrite <- (pow2_add (ex + scale - 1) 52) by (unfold scale; lia).
      rewrite <- (pow2_add s (e + scale)) by (unfold scale; lia).
      f_equal. lia. }
    nia.
Qed.

(** *** The order *)

Lemma SFleb_scaled (x y : spec_float) :
  valid_binary x = true -> valid_binary y = true ->
  finiteSF x = true -> finiteSF y = true ->
  (SFleb x y = true <-> scaled x <= scaled y).
Proof.
  intros Vx Vy Fx Fy.
  destruct x as [sx|sx| |sx mx ex], y as [sy|sy| |sy my ey]; try discriminate.
  - cbn. split; [lia | reflexivity].
  - destruct (valid_finite _ _ _ Vy) as (_ & By & _).
    pose proof (pow2_pos (ey + scale) ltac:(unfold scale; lia)).
    unfold SFleb. cbn [SFcompare scaled].
    destruct sy; split; try discriminate; try lia; try reflexivity.
  - destruct (valid_finite _ _ _ Vx) as (_ & Bx & _).
    pose proof (pow2_pos (ex + scale) ltac:(unfold scale; lia)).
    unfold SFleb. cbn [SFcompare scaled].
    destruct sx; split; try discriminate; try lia; try reflexivity.
  - destruct (valid_finite _ _ _ Vx) as (Cx & Bx & _).
    destruct (valid_finite _ _ _ Vy) as (Cy & By & _).
    pose proof (pow2_pos (ex + scale) ltac:(unfold scale; lia)) as Px.
    pose proof (pow2_pos (ey + scale) ltac:(unfold scale; lia)) as Py.
    assert (Lt : ex < ey -> Zpos mx * 2 ^ (ex + scale) < Zpos my * 2 ^ (ey + scale))
      by (intros; apply canonical_lt; lia || assumption).
    assert (Gt : ey < ex -> Zpos my * 2 ^ (ey + scale) < Zpos mx * 2 ^ (ex + scale))
      by (intros; apply canonical_lt; lia || assumption).
    unfold SFleb. cbn [SFcompare scaled].
    change (Pos.compare_cont Eq mx my) with (Pos.compare mx my).
    destruct sx, sy; try (split; [intros _; lia | reflexivity]);
      try (split; [discriminate | intros; lia]);
      destruct (Z.compare_spec ex ey) as [E|E|E];
      try (specialize (Lt E)); try (specialize (Gt E));
      try (split; [intros _; lia | reflexivity]);
      try (split; [discriminate | intros; lia]);
      subst ey; destruct (Pos.compare_spec mx my) as [E|E|E]; cbn [CompOpp];
      try (split; [intros _; nia | reflexivity]);
      try (split; [discriminate | intros; nia]).
Qed.

Lemma valid_canonicalValue (x : spec_float) :
  valid_binary x = true -> canonicalValue (scaled x).
Proof.
  intros V. destruct x as [s|s| |s m e]; try (left; reflexivity).
  destruct (valid_finite _ _ _ V) as (C & B & _). right.
  exists (Zpos m), e. split; [lia|]. split; [exact C|].
  pose proof (pow2_pos (e + scale) ltac:(unfold scale; lia)).
  cbn [scaled]. destruct s; lia.
Qed.

(** Twice a value of the format is a value of the format (the
    exponents are not bounded above). *)
Lemma canonicalValue_double (F : Z) : canonicalValue F -> canonicalValue (2 * F).
Proof.
  intros [-> | (m & e & M & C & A)]; [left; reflexivity | right].
  assert (E : -1074 <= e) by (rewrite fexp_eq in C; lia).
  pose proof (Zdigits2_pos m M) as P.
  destruct (Z.eq_dec (Zdigits2 m) 53) as [D | D].
  - exists m, (e + 1). split; [exact M|]. split; [rewrite fexp_eq in *; lia|].
    replace (e + 1 + scale) with (1 + (e + scale)) by lia.
    rewrite (pow2_add 1 (e + scale)) by (unfold scale; lia).
    change (2 ^ 1) with 2. lia.
  - exists (m * 2 ^ 1), e. split; [cbn; lia|].
    split; [rewrite Zdigits2_mul_pow2 by lia; rewrite fexp_eq in *; lia|].
    change (2 ^ 1) with 2. lia.
Qed.

Lemma largestValue_pos : 0 < largestValue.
Proof.
  unfold largestValue. pose proof (pow2_pos (971 + scale) ltac:(unfold scale; lia)).
  change (2 ^ 53) with 9007199254740992. lia.
Qed.

Lemma scaled_le_largest (x : spec_float) :
  valid_binary x = true -> Z.abs (scaled x) <= largestValue.
Proof.
  intros V. pose proof largestValue_pos as L.
  destruct x as [s|s| |s m e]; cbn [scaled Z.abs]; try lia.
  destruct (valid_finite _ _ _ V) as (C & B & D).
  pose proof (Zdigits2_bounds (Zpos m) ltac:(lia)) as [_ U].
  assert (U53 : Zpos m < 2 ^ 53).
  { assert (2 ^ Zdigits2 (Zpos m) <= 2 ^ 53) by (apply pow2_le; lia). lia. }
  assert (Pe : 2 ^ (e + scale) <= 2 ^ (971 + scale)) by (apply pow2_le; lia).
  pose proof (pow2_pos (e + scale) ltac:(unfold scale; lia)) as Pp.
  unfold largestValue in *. change (2 ^ 53) with 9007199254740992 in *.
  destruct s; [rewrite Z.abs_opp|]; rewrite Z.abs_eq by nia; nia.
Qed.

Lemma isRounding_finite (V : Z) (r : spec_float) :
  isRounding V r -> Z.abs V < largestValue -> finiteSF r = true.
Proof.
  intros (_ & _ & _ & Ov) B. destruct (finiteSF r); [reflexivity|].
  specialize (Ov eq_refl). lia.
Qed.

Lemma isRounding_between (V : Z) (r lo hi : spec_float) :
  isRounding V r -> finiteSF r = true ->
  valid_binary lo = true -> finiteSF lo = true ->
  valid_binary hi = true -> finiteSF hi = true ->
  scaled lo <= V <= scaled hi ->
  SFleb lo r = true /\ SFleb r hi = true.
Proof.
  intros (Vr & _ & Fa & _) Fr Vl Fl Vh Fh [L H].
  destruct (Fa Fr) as [Faith _].
  split; apply SFleb_scaled; try assumption.
  - apply (Faith _ (valid_canonicalValue lo Vl)), L.
  - apply (Faith _ (valid_canonicalValue hi Vh)), H.
Qed.

(** The mean of two numbers lies between any two numbers that bound
    them, as long as their sum is finite. *)
Lemma SF_mean_between (a b lo hi : spec_float) :
  valid_binary a = true -> valid_binary b = true ->
  valid_binary lo = true -> valid_binary hi = true ->
  finiteSF a = true -> finiteSF b = true ->
  finiteSF lo = true -> finiteSF hi = true ->
  scaled lo <= scaled a <= scaled hi ->
  scaled lo <= scaled b <= scaled hi ->
  finiteSF (SFadd prec emax a b) = true ->
  let mean := SFdiv prec emax (SFadd prec emax a b)
                (S754_finite false 4503599627370496 (-51)) in
  SFleb lo mean = true /\ SFleb mean hi = true.
Proof.
  intros Va Vb Vl Vh Fa Fb Fl Fh Ba Bb Fs mean.
  pose proof (SFadd_rounds a b Va Vb Fa Fb) as Rs.
  pose proof Rs as (Vs & _ & Fas & _). destruct (Fas Fs) as [Faith _].
  destruct (Faith _ (canonicalValue_double _ (valid_canonicalValue lo Vl))) as [L _].
  destruct (Faith _ (canonicalValue_double _ (valid_canonicalValue hi Vh))) as [_ H].
  specialize (L ltac:(lia)). specialize (H ltac:(lia)).
  destruct (SFdiv_two_rounds _ Vs Fs) as (V & E2 & Rm). fold mean in Rm.
  pose proof (scaled_le_largest _ Vs) as Bs. pose proof largestValue_pos as Lp.
  assert (Fm : finiteSF mean = true) by (apply (isRounding_finite V); [exact Rm | lia]).
  apply (isRounding_between V); try assumption. lia.
Qed.

(** *** Numbers *)

Lemma isFinite_spec (x : number) : isFinite x = finiteSF (Prim2SF x).
Proof. unfold isFinite, finiteSF. destruct (Prim2SF x); reflexivity. Qed.

Lemma isFinite_notNaN (x : number) : isFinite x = true -> isNaN x = false.
Proof.
  rewrite isFinite_spec. intros F. apply notNaN_spec. intros E. rewrite E in F.
  discriminate.
Qed.

Lemma numLe_scaled (x y : number) :
  isFinite x = true -> isFinite y = true ->
  (numLe x y <-> scaled (Prim2SF x) <= scaled (Prim2SF y)).
Proof.
  rewrite !isFinite_spec. intros Fx Fy. unfold numLe. rewrite leb_spec.
  apply SFleb_scaled; try assumption; apply Prim2SF_valid.
Qed.

Lemma zero_plus_scaled (a : number) :
  isFinite a = true ->
  isFinite (0 + a)%float = true /\
  scaled (Prim2SF (0 + a)%float) = scaled (Prim2SF a).
Proof.
  intros F. destruct (zero_plus a) as [-> | [-> ->]]; [auto|].
  split; reflexivity.
Qed.

(** The mean of two finite numbers whose sum does not overflow lies
    between any two finite numbers that bound them. *)
Lemma mean_of_two_between (a b lo hi : number) :
  isFinite a = true -> isFinite b = true ->
  isFinite lo = true -> isFinite hi = true ->
  numLe lo a -> numLe a hi -> numLe lo b -> numLe b hi ->
  isFinite (sum [a; b]) = true ->
  numLe lo (average [a; b]) /\ numLe (average [a; b]) hi.
Proof.
  intros Fa Fb Fl Fh La Ha Lb Hb Fs.
  destruct (zero_plus_scaled a Fa) as [Fa0 Ea0].
  apply (numLe_scaled lo a Fl Fa) in La. apply (numLe_scaled a hi Fa Fh) in Ha.
  apply (numLe_scaled lo b Fl Fb) in Lb. apply (numLe_scaled b hi Fb Fh) in Hb.
  unfold average, sum in *. cbn [fold_left List.length] in *.
  change (ofZ (Z.of_nat 2)) with 2%float.
  unfold numLe. rewrite !leb_spec, div_spec, add_spec.
  change (Prim2SF 2) with (S754_finite false 4503599627370496 (-51)).
  rewrite isFinite_spec, add_spec in Fs. rewrite isFinite_spec in *.
  apply SF_mean_between; try apply Prim2SF_valid; try assumption; lia.
Qed.

(** *** The product that turns a serial into milliseconds *)







(** ** The stable sort *)

Section SortFacts.

Context {A : Type} (cmp : A -> A -> option Z) (key : A -> Z) (valid : A -> Prop).

Hypothesis cmp_key :
  forall x y, valid x -> valid y -> cmp x y = Some (key x - key y).

Lemma insertSorted_perm (x : A) (l : list A) :
  Permutation (insertSorted cmp x l) (x :: l).
Proof.
  induction l as [|y l IH]; cbn [insertSorted].
  - apply Permutation_refl.
  - destruct (notAfter (cmp x y)).
    + apply Permutation_refl.
    + eapply Permutation_trans; [apply perm_skip, IH | apply perm_swap].
Qed.

Lemma sortBy_perm (l : list A) : Permutation (sortBy cmp l) l.
Proof.
  induction l as [|x l IH]; cbn [sortBy].
  - apply perm_nil.
  - eapply Permutation_trans; [apply insertSorted_perm | apply perm_skip, IH].
Qed.

Lemma sortBy_length (l : list A) : List.length (sortBy cmp l) = List.length l.
Proof. apply Permutation_length, sortBy_perm. Qed.

Lemma sortBy_Forall (P : A -> Prop) (l : list A) :
  Forall P l -> Forall P (sortBy cmp l).
Proof.
  intros H. eapply Permutation_Forall; [apply Permutation_sym, sortBy_perm | exact H].
Qed.

Lemma insertSorted_sorted (x : A) (l : list A) :
  valid x -> Forall valid l -> StronglySorted (keyLe key) l ->
  StronglySorted (keyLe key) (insertSorted cmp x l).
Proof.
  intros Vx Vl S. induction S as [|y l S IH Hy]; cbn [insertSorted].
  - constructor; constructor.
  - inversion Vl as [|? ? Vy Vl']; subst.
    rewrite (cmp_key x y Vx Vy). cbn [notAfter].
    destruct (key x - key y <=? 0) eqn:E.
    + apply Z.leb_le in E. constructor; [constructor; assumption|].
      constructor; [unfold keyLe; lia|].
      eapply Forall_impl; [|exact Hy]. unfold keyLe. intros; lia.
    + apply Z.leb_gt in E. constructor; [apply IH; exact Vl'|].
      eapply Permutation_Forall; [apply Permutation_sym, insertSorted_perm|].
      constructor; [unfold keyLe; lia | exact Hy].
Qed.

Lemma sortBy_sorted (l : list A) :
  Forall valid l -> StronglySorted (keyLe key) (sortBy cmp l).
Proof.
  induction l as [|x l IH]; intros V; cbn [sortBy].
  - constructor.
  - inversion V; subst. apply insertSorted_sorted; auto using sortBy_Forall.
Qed.

(** Stability: the elements with a given key keep their order. *)
Lemma insertSorted_filter (t : Z) (x : A) (l : list A) :
  valid x -> Forall valid l ->
  filter (fun a => key a =? t) (insertSorted cmp x l)
  = filter (fun a => key a =? t) (x :: l).
Proof.
  intros Vx Vl. induction Vl as [|y l Vy Vl IH]; cbn [insertSorted].
  - reflexivity.
  - rewrite (cmp_key x y Vx Vy). cbn [notAfter].
    destruct (key x - key y <=? 0) eqn:E; [reflexivity|].
    apply Z.leb_gt in E. cbn [filter] in *. rewrite IH.
    destruct (key x =? t) eqn:Ex; [|reflexivity].
    apply Z.eqb_eq in Ex.
    destruct (key y =? t) eqn:Ey; [apply Z.eqb_eq in Ey; lia | reflexivity].
Qed.

Lemma sortBy_stable (t : Z) (l : list A) :
  Forall valid l ->
  filter (fun a => key a =? t) (sortBy cmp l) = filter (fun a => key a =? t) l.
Proof.
  induction l as [|x l IH]; intros V; cbn [sortBy].
  - reflexivity.
  - inversion V; subst.
    rewrite insertSorted_filter by auto using sortBy_Forall.
    cbn [filter]. rewrite IH by assumption. reflexivity.
Qed.


End SortFacts.

Lemma byTimestamp_key (x y : TelemetryRow.t) :
  validRow x -> validRow y -> byTimestamp x y = Some (rowTime x - rowTime y).
Proof.
  unfold validRow, byTimestamp, timeDiff, rowTime.
  destruct (TelemetryRow.timestamp x), (TelemetryRow.timestamp y);
    cbn; intros; congruence.
Qed.

(** ** Date objects *)

Lemma TimeClip_ok (t : Z) : Z.abs t <= maxTime -> TimeClip t = DateOf t.
Proof. intros H. unfold TimeClip. apply Z.leb_le in H. rewrite H. reflexivity. Qed.

Lemma TimeClip_range (x t : Z) : TimeClip x = DateOf t -> Z.abs t <= maxTime.
Proof.
  unfold TimeClip. destruct (Z.abs x <=? maxTime) eqn:E; [|discriminate].
  intros [= <-]. apply Z.leb_le. exact E.
Qed.

Lemma serialToDate_range (s : number) (t : Z) :
  serialToDate s = DateOf t -> Z.abs t <= maxTime.
Proof.
  unfold serialToDate, newDateOfNumber.
  destruct (truncFinite _); [apply TimeClip_range | discriminate].
Qed.

Lemma setHours_range (h : Host) (d : Date) (hh mm : number) (t : Z) :
  setHours h d hh mm = DateOf t -> Z.abs t <= maxTime.
Proof.
  unfold setHours. destruct d; [discriminate|].
  destruct (truncFinite hh); [|discriminate].
  destruct (truncFinite mm); [apply TimeClip_range | discriminate].
Qed.

Lemma newDateLocal_range (h : Host) (y m d hh mm : number) (t : Z) :
  newDateLocal h y m d hh mm = DateOf t -> Z.abs t <= maxTime.
Proof.
  unfold newDateLocal.
  destruct (truncFinite y); [|discriminate].
  destruct (truncFinite m); [|discriminate].
  destruct (truncFinite d); [|discriminate].
  destruct (truncFinite hh); [|discriminate].
  destruct (truncFinite mm); [|discriminate].
  destruct (MakeDay _ _ _); [apply TimeClip_range | discriminate].
Qed.

Lemma truncFinite_zero : truncFinite 0%float = Some 0.
Proof. reflexivity. Qed.

(** Splitting a local time into day, hour and minute and putting it
    together again drops the seconds and milliseconds. *)
Lemma minute_decomposition (t : Z) :
  MakeDate (Day t) (MakeTime (HourFromTime t) (MinFromTime t) 0 0)
  = msPerMinute * (t / msPerMinute).
Proof.
  unfold MakeDate, MakeTime, Day, HourFromTime, MinFromTime,
    msPerDay, msPerHour, msPerMinute, msPerSecond.
  dlia.
Qed.

Lemma hour_decomposition (t : Z) :
  MakeDate (Day t) (MakeTime (HourFromTime t) 0 0 0) = msPerHour * (t / msPerHour).
Proof.
  unfold MakeDate, MakeTime, Day, HourFromTime,
    msPerDay, msPerHour, msPerMinute, msPerSecond.
  dlia.
Qed.

(** [setSeconds(0, 0)] on an instant after the epoch: the instant
    rounded down to a whole minute. *)
Lemma setSeconds0_floor (h : Host) (t : Z) :
  HostOK h -> 0 <= t <= maxTime ->
  setSeconds0 h (DateOf t) = DateOf (msPerMinute * (t / msPerMinute)).
Proof.
  intros [Hb Hm _ _] Ht. unfold setSeconds0.
  rewrite minute_decomposition. unfold UTC, LocalTime.
  replace (msPerMinute * ((t + LocalTZA h) / msPerMinute) - LocalTZA h)
    with (msPerMinute * (t / msPerMinute)).
  - apply TimeClip_ok. unfold msPerMinute, maxTime in *. dlia.
  - unfold msPerMinute in *. dlia.
Qed.

Lemma passesGate_spec (h : Host) (fd : option Date) :
  passesGate h fd = true <->
  exists t, fd = Some (DateOf t) /\ 1990 < YearFromTime (LocalTime h t).
Proof.
  unfold passesGate. destruct fd as [[|t]|]; cbn [isValidDate getFullYear andb].
  - split; [discriminate | intros (t & [=] & _)].
  - rewrite Z.ltb_lt. split.
    + intros H. exists t. split; [reflexivity | exact H].
    + intros (t' & [= <-] & H). exact H.
  - split; [discriminate | intros (t & [=] & _)].
Qed.

(** What [parseDateTime] returns, in terms of [finalDate]. *)
Lemma parseDateTime_spec (h : Host) (dateVal timeVal : value) (r : Date) :
  parseDateTime h dateVal timeVal = Some r <->
  exists t, resolveDate h dateVal timeVal = Some (DateOf t) /\
            1990 < YearFromTime (LocalTime h t) /\
            r = setSeconds0 h (DateOf t).
Proof.
  unfold parseDateTime.
  destruct (passesGate h (resolveDate h dateVal timeVal)) eqn:G.
  - apply passesGate_spec in G. destruct G as (t & E & Y). rewrite E. split.
    + intros [= <-]. exists t. auto.
    + intros (t' & [= <-] & _ & ->). reflexivity.
  - split; [discriminate|].
    intros (t & E & Y & _).
    assert (passesGate h (resolveDate h dateVal timeVal) = true)
      by (apply passesGate_spec; eauto).
    congruence.
Qed.

Lemma resolveDate_range (h : Host) (dateVal timeVal : value) (t : Z) :
  HostOK h -> resolveDate h dateVal timeVal = Some (DateOf t) -> Z.abs t <= maxTime.
Proof.
  intros OK. unfold resolveDate.
  destruct (hasTimeCell h timeVal).
  - assert (G : forall d hm, (let (hours, minutes) := hm : number * number in
                  if isValidDate d then Some (setHours h d hours minutes) else None)
                 = Some (DateOf t) -> Z.abs t <= maxTime).
    { intros d [hh mm]. destruct (isValidDate d); [|discriminate].
      intros [= E]. eapply setHours_range; exact E. }
    destruct dateVal; try apply G.
    destruct timeVal; try apply G.
    intros [= E]. eapply serialToDate_range; exact E.
  - destruct dateVal; try discriminate.
    + intros [= E]. eapply serialToDate_range; exact E.
    + destruct (DateParse h s) as [|t0] eqn:P; cbn [isValidDate].
      * destruct (5 <=? List.length _)%nat.
        -- destruct (newDateLocal _ _ _ _ _ _) eqn:N; cbn [isValidDate]; [discriminate|].
           intros [= <-]. eapply newDateLocal_range; exact N.
        -- discriminate.
      * intros [= <-]. eapply date_parse_in_range; eassumption.
Qed.

(** A returned timestamp is a valid date on a whole minute. *)
Lemma parseDateTime_valid (h : Host) (dateVal timeVal : value) (r : Date) :
  HostOK h -> parseDateTime h dateVal timeVal = Some r ->
  exists t, r = DateOf t /\ Z.abs t <= maxTime.
Proof.
  intros OK H. apply parseDateTime_spec in H. destruct H as (t & E & Y & ->).
  pose proof (resolveDate_range _ _ _ _ OK E) as R.
  apply year_gate in Y. unfold LocalTime in Y.
  pose proof (tza_bounded h OK) as B.
  assert (T : 0 <= t <= maxTime) by (unfold msPerDay, maxTime in *; lia).
  rewrite setSeconds0_floor by assumption.
  eexists; split; [reflexivity|].
  unfold msPerMinute, maxTime in *. dlia.
Qed.

(** ** White space and trimming *)

(** The white-space character at the start of a string is decided by
    the one, two or three bytes it is made of. *)
Lemma whiteSpaceAt_one (c : ascii) (r x : string) :
  whiteSpaceAt (String c r) = 1%nat -> whiteSpaceAt (String c x) = 1%nat.
Proof.
  unfold whiteSpaceAt. destruct (oneByteSpace c); [reflexivity|].
  intros H. exfalso. revert H.
  destruct r as [|c2 r]; [discriminate|].
  destruct (twoByteSpace c c2); [discriminate|].
  destruct r as [|c3 r]; [discriminate|].
  destruct (threeByteSpace c c2 c3); discriminate.
Qed.

Lemma whiteSpaceAt_two (c : ascii) (r x : string) :
  whiteSpaceAt (String c r) = 2%nat ->
  exists c2 r2, r = String c2 r2 /\ whiteSpaceAt (String c (String c2 x)) = 2%nat.
Proof.
  unfold whiteSpaceAt. destruct (oneByteSpace c); [discriminate|].
  destruct r as [|c2 r]; [discriminate|].
  destruct (twoByteSpace c c2) eqn:T.
  - intros _. exists c2, r. rewrite T. auto.
  - intros H. exfalso. revert H.
    destruct r as [|c3 r]; [discriminate|].
    destruct (threeByteSpace c c2 c3); discriminate.
Qed.

Lemma whiteSpaceAt_three (c : ascii) (r x : string) :
  whiteSpaceAt (String c r) = 3%nat ->
  exists c2 c3 r3, r = String c2 (String c3 r3) /\
                   whiteSpaceAt (String c (String c2 (String c3 x))) = 3%nat.
Proof.
  unfold whiteSpaceAt. destruct (oneByteSpace c); [discriminate|].
  destruct r as [|c2 r]; [discriminate|].
  destruct (twoByteSpace c c2) eqn:T; [discriminate|].
  destruct r as [|c3 r]; [discriminate|].
  destruct (threeByteSpace c c2 c3) eqn:U; [|discriminate].
  intros _. exists c2, c3, r. rewrite T, U. auto.
Qed.

Lemma whiteSpaceAt_bound (s : string) : (whiteSpaceAt s <= 3)%nat.
Proof.
  unfold whiteSpaceAt. destruct s as [|c [|c2 [|c3 r]]];
    repeat match goal with |- context [if ?b then _ else _] => destruct b end; lia.
Qed.

(** A prefix that begins with no white space: neither does the string. *)
Lemma whiteSpaceAt_prefix (a b : string) :
  whiteSpaceAt (a ++ b) = 0%nat -> whiteSpaceAt a = 0%nat.
Proof.
  unfold whiteSpaceAt. destruct a as [|c a]; [reflexivity|]. cbn [String.append].
  destruct (oneByteSpace c); [discriminate|].
  destruct a as [|c2 a]; [reflexivity|]. cbn [String.append].
  destruct (twoByteSpace c c2); [discriminate|].
  destruct a as [|c3 a]; [reflexivity|]. cbn [String.append].
  destruct (threeByteSpace c c2 c3); [discriminate | reflexivity].
Qed.

Lemma string_length_induction (P : string -> Prop) :
  (forall s, (forall t, (String.length t < String.length s)%nat -> P t) -> P s) ->
  forall s, P s.
Proof.
  intros H s.
  assert (G : forall n t, (String.length t < n)%nat -> P t).
  { induction n as [|n IH]; intros t L; [lia|].
    apply H. intros u Lu. apply IH. lia. }
  apply (G (S (String.length s))). lia.
Qed.

(** How the three functions step over one white-space character. *)
Lemma white_space_step (c : ascii) (r : string) :
  (whiteSpaceAt (String c r) = 0%nat /\
   trimStart (String c r) = String c r /\ allWhiteSpace (String c r) = false) \/
  (exists pre rest,
     String c r = (pre ++ rest)%string /\ pre <> "" /\
     (forall x, whiteSpaceAt (pre ++ x) = String.length pre) /\
     (forall x, trimStart (pre ++ x) = trimStart x) /\
     (forall x, allWhiteSpace (pre ++ x) = allWhiteSpace x)).
Proof.
  pose proof (whiteSpaceAt_bound (String c r)) as B.
  destruct (whiteSpaceAt (String c r)) as [|[|[|[|k]]]] eqn:W; [| | | |lia].
  - left. cbn [trimStart allWhiteSpace]. rewrite W. auto.
  - right. exists (String c ""), r. split; [reflexivity|]. split; [discriminate|].
    assert (A : forall x, whiteSpaceAt (String c x) = 1%nat)
      by (intros x; apply (whiteSpaceAt_one c r x W)).
    split; [intros x; apply A|].
    split; intros x; cbn [String.append trimStart allWhiteSpace]; rewrite A; reflexivity.
  - right. destruct (whiteSpaceAt_two c r "" W) as (c2 & r2 & -> & _).
    exists (String c (String c2 "")), r2. split; [reflexivity|]. split; [discriminate|].
    assert (A : forall x, whiteSpaceAt (String c (String c2 x)) = 2%nat).
    { intros x. destruct (whiteSpaceAt_two c (String c2 r2) x W) as (d & r' & E & A).
      injection E as <- _. exact A. }
    split; [intros x; apply A|].
    split; intros x; cbn [String.append trimStart allWhiteSpace]; rewrite A; reflexivity.
  - right. destruct (whiteSpaceAt_three c r "" W) as (c2 & c3 & r3 & -> & _).
    exists (String c (String c2 (String c3 ""))), r3.
    split; [reflexivity|]. split; [discriminate|].
    assert (A : forall x, whiteSpaceAt (String c (String c2 (String c3 x))) = 3%nat).
    { intros x.
      destruct (whiteSpaceAt_three c (String c2 (String c3 r3)) x W)
        as (d & d' & r' & E & A).
      injection E as <- <- _. exact A. }
    split; [intros x; apply A|].
    split; intros x; cbn [String.append trimStart allWhiteSpace]; rewrite A; reflexivity.
Qed.

Lemma append_length (a b : string) :
  String.length (a ++ b) = (String.length a + String.length b)%nat.
Proof. induction a as [|c a IH]; cbn; [reflexivity | rewrite IH; reflexivity]. Qed.

Lemma append_assoc (a b c : string) : ((a ++ b) ++ c = a ++ (b ++ c))%string.
Proof. induction a as [|x a IH]; cbn; [reflexivity | rewrite IH; reflexivity]. Qed.

Lemma append_empty (a : string) : (a ++ "")%string = a.
Proof. induction a as [|x a IH]; cbn; [reflexivity | rewrite IH; reflexivity]. Qed.

(** [trimStart] removes a prefix of white space and leaves a string that
    does not begin with white space. *)
Lemma trimStart_spec (s : string) :
  exists pre, s = (pre ++ trimStart s)%string /\ allWhiteSpace pre = true /\
              whiteSpaceAt (trimStart s) = 0%nat.
Proof.
  induction s as [s IH] using string_length_induction.
  destruct s as [|c r]; [exists ""; auto|].
  destruct (white_space_step c r) as [(W & T & _) | (pre & rest & E & Ne & W & T & A)].
  - exists "". rewrite T. auto.
  - rewrite E, T.
    destruct (IH rest) as (p & Ep & Ap & Zp).
    { rewrite E, append_length. destruct pre; [congruence | cbn; lia]. }
    exists (pre ++ p)%string. rewrite append_assoc, <- Ep.
    split; [reflexivity|]. split; [|exact Zp]. rewrite A. exact Ap.
Qed.

Lemma allWhiteSpace_app (a b : string) :
  allWhiteSpace a = true -> allWhiteSpace (a ++ b) = allWhiteSpace b.
Proof.
  induction a as [a IH] using string_length_induction. intros Wa.
  destruct a as [|c r]; [reflexivity|].
  destruct (white_space_step c r) as [(_ & _ & F) | (pre & rest & E & Ne & _ & _ & A)].
  - congruence.
  - rewrite E in *. rewrite append_assoc, A. rewrite A in Wa. apply IH; [|exact Wa].
    rewrite append_length. destruct pre; [congruence | cbn; lia].
Qed.

(** [trimEnd] removes a suffix of white space, and removes nothing from
    its own result. *)
Lemma trimEnd_spec (s : string) :
  exists post, s = (trimEnd s ++ post)%string /\ allWhiteSpace post = true /\
               trimEnd (trimEnd s) = trimEnd s.
Proof.
  induction s as [|c r IH]; [exists ""; auto|].
  cbn [trimEnd]. destruct (allWhiteSpace (String c r)) eqn:A.
  - exists (String c r). auto.
  - destruct IH as (post & E & Ap & I). exists post.
    split; [cbn [String.append]; f_equal; exact E|]. split; [exact Ap|].
    cbn [trimEnd]. rewrite I.
    destruct (allWhiteSpace (String c (trimEnd r))) eqn:B; [|reflexivity].
    exfalso.
    assert (C : allWhiteSpace (String c r) = true).
    { rewrite E at 1. change (String c (trimEnd r ++ post))
        with (String c (trimEnd r) ++ post)%string.
      rewrite allWhiteSpace_app by exact B. exact Ap. }
    congruence.
Qed.

Lemma trimEnd_no_leading (s : string) :
  whiteSpaceAt s = 0%nat -> whiteSpaceAt (trimEnd s) = 0%nat.
Proof.
  intros W. destruct (trimEnd_spec s) as (post & E & _ & _).
  apply (whiteSpaceAt_prefix (trimEnd s) post). rewrite <- E. exact W.
Qed.

Lemma trimStart_fixed (s : string) : whiteSpaceAt s = 0%nat -> trimStart s = s.
Proof.
  destruct s as [|c r]; [reflexivity|]. intros W. cbn [trimStart]. rewrite W. reflexivity.
Qed.

(** [trim] takes white space away at both ends, and nothing else: what
    it returns neither begins nor ends with white space. *)
Lemma trim_spec (s : string) :
  exists pre post,
    s = (pre ++ trim s ++ post)%string /\
    allWhiteSpace pre = true /\ allWhiteSpace post = true /\
    trimStart (trim s) = trim s /\ trimEnd (trim s) = trim s.
Proof.
  unfold trim.
  destruct (trimStart_spec s) as (pre & E & Ap & Z).
  destruct (trimEnd_spec (trimStart s)) as (post & F & Aq & I).
  exists pre, post. split; [rewrite <- F; exact E|].
  split; [exact Ap|]. split; [exact Aq|].
  split; [apply trimStart_fixed, trimEnd_no_leading, Z | exact I].
Qed.

(** ** The host of the examples *)

(** *** Strings that are not blank *)

Lemma allDigits_cons (c : ascii) (s : string) :
  allDigits (String c s) = isDigit c && allDigits s.
Proof. reflexivity. Qed.

Lemma allDigits_app (a b : string) :
  allDigits (a ++ b) = allDigits a && allDigits b.
Proof.
  induction a as [|c a IH]; [reflexivity|].
  cbn [String.append]. rewrite !allDigits_cons, IH, andb_assoc. reflexivity.
Qed.

Lemma allDigits_uint (d : Decimal.uint) :
  allDigits (NilEmpty.string_of_uint d) = true.
Proof. induction d; cbn [NilEmpty.string_of_uint]; try reflexivity;
  rewrite allDigits_cons, IHd; reflexivity. Qed.

Lemma decimalDigits_digits (n : Z) :
  allDigits (decimalDigits n) = true /\ (1 <= String.length (decimalDigits n))%nat.
Proof.
  unfold decimalDigits, NilZero.string_of_uint.
  destruct (N.to_uint (Z.to_N n)) as [|d|d|d|d|d|d|d|d|d|d] eqn:E;
    try (split; [reflexivity | cbn; lia]);
    (split; [rewrite <- E at 1; rewrite E; apply (allDigits_uint (_ d))
            | cbn [NilEmpty.string_of_uint String.length]; lia]).
Qed.

Lemma trim_not_blank (c : ascii) (r : string) :
  whiteSpaceAt (String c r) = 0%nat -> isEmpty (trim (String c r)) = false.
Proof.
  intros W. unfold trim. cbn [trimStart]. rewrite W. cbn [trimEnd allWhiteSpace].
  rewrite W. reflexivity.
Qed.

Lemma digit_is_no_white_space (c : ascii) (r : string) :
  isDigit c = true -> whiteSpaceAt (String c r) = 0%nat.
Proof.
  destruct c as [[] [] [] [] [] [] [] []]; try discriminate; intros _;
    destruct r as [|c2 [|c3 r3]]; reflexivity.
Qed.

Lemma minus_is_no_white_space (r : string) : whiteSpaceAt (String "-" r) = 0%nat.
Proof. destruct r as [|c2 [|c3 r3]]; reflexivity. Qed.

Lemma printNumber_not_blank (x : number) : isEmpty (trim (printNumber x)) = false.
Proof.
  unfold printNumber. destruct (Prim2SF x) as [s|s| |s m e]; try destruct s;
    try reflexivity.
  - cbn [String.append]. apply trim_not_blank, minus_is_no_white_space.
  - cbn [String.append].
    match goal with |- context [decimalDigits ?a] =>
      destruct (decimalDigits_digits a) as [D L];
      destruct (decimalDigits a) as [|c r]; [cbn in L; lia|]
    end.
    rewrite allDigits_cons in D. apply andb_true_iff in D.
    apply trim_not_blank, digit_is_no_white_space, D.
Qed.

Lemma ptHost_ok (tza : Z) :
  Z.abs tza < msPerDay -> tza mod msPerMinute = 0 -> HostOK (ptHost tza).
Proof.
  intros B M. constructor; cbn; [exact B | exact M | apply printNumber_not_blank |].
  intros; discriminate.
Qed.

(** ** The value normaliser *)

Lemma keepChars_filter (keep : ascii -> bool) (s : string) :
  list_ascii_of_string (keepChars keep s) = filter keep (list_ascii_of_string s).
Proof.
  induction s as [|c r IH]; cbn [keepChars list_ascii_of_string filter]; [reflexivity|].
  destruct (keep c); cbn [list_ascii_of_string]; rewrite IH; reflexivity.
Qed.

Lemma opp_NaN : (- NaN)%float = NaN.
Proof. reflexivity. Qed.

Lemma isNaN_opp (x : number) : isNaN (- x)%float = isNaN x.
Proof.
  unfold isNaN, is_nan. rewrite !eqb_spec, opp_spec.
  destruct (Prim2SF x) as [s|s| |s m e]; try destruct s; try reflexivity;
    cbn; rewrite ?Pos.compare_refl, ?Z.compare_refl; reflexivity.
Qed.

Lemma keepChars_head (keep : ascii -> bool) (s : string) (c : ascii) (r : string) :
  keepChars keep s = String c r ->
  keep c = true /\ exists s', r = keepChars keep s'.
Proof.
  induction s as [|a s IH]; cbn [keepChars]; [discriminate|].
  destruct (keep a) eqn:K; [|exact IH].
  intros E. injection E as -> <-. split; [exact K | exists s; reflexivity].
Qed.

Lemma numberChar_cases (c : ascii) :
  isNumberChar c = true -> isDigit c = true \/ c = "."%char \/ c = "-"%char.
Proof.
  unfold isNumberChar. intros H.
  apply orb_true_iff in H. destruct H as [H|H].
  - apply orb_true_iff in H. destruct H as [H|H]; [left; exact H|].
    right; left. apply Ascii.eqb_eq, H.
  - right; right. apply Ascii.eqb_eq, H.
Qed.

Lemma dot_is_no_white_space (r : string) : whiteSpaceAt (String "." r) = 0%nat.
Proof. destruct r as [|c2 [|c3 r3]]; reflexivity. Qed.

Lemma trimStart_no_white_space (s : string) :
  whiteSpaceAt s = 0%nat -> trimStart s = s.
Proof. destruct s as [|c r]; [reflexivity|]. cbn [trimStart]. intros ->. reflexivity. Qed.

Lemma digit_is_no_sign (c : ascii) (r : string) :
  isDigit c = true -> splitSign (String c r) = (false, String c r).
Proof.
  destruct c as [[] [] [] [] [] [] [] []]; try discriminate; reflexivity.
Qed.

(** A minus sign before text that begins with a digit or a dot negates
    what [parseFloat] reads in that text. *)
Lemma parseFloat_minus (r : string) :
  match r with
  | String c _ => isDigit c = true \/ c = "."%char
  | EmptyString => True
  end ->
  parseFloat (String "-" r) = (- parseFloat r)%float.
Proof.
  intros H. unfold parseFloat at 1.
  rewrite (trimStart_no_white_space _ (minus_is_no_white_space r)).
  cbn [splitSign].
  assert (E : trimStart r = r /\ splitSign r = (false, r)).
  { destruct r as [|c r']; [split; reflexivity|].
    destruct H as [D| ->].
    - split; [apply trimStart_no_white_space, digit_is_no_white_space, D
             | apply digit_is_no_sign, D].
    - split; [apply trimStart_no_white_space, dot_is_no_white_space | reflexivity]. }
  unfold parseFloat. destruct E as [-> ->].
  destruct (spanDigits r) as [ip r1].
  destruct (isEmpty ip && isEmpty _); [symmetry; apply opp_NaN | reflexivity].
Qed.

Lemma spanDigits_app (d rest : string) :
  allDigits d = true -> noDigitAt rest ->
  spanDigits (d ++ rest) = (d, rest).
Proof.
  intros D R. induction d as [|c d IH]; cbn [String.append].
  - destruct rest as [|c r]; [reflexivity|]. cbn [spanDigits]. rewrite R. reflexivity.
  - rewrite allDigits_cons in D. apply andb_true_iff in D. destruct D as [Dc Dd].
    cbn [spanDigits]. rewrite Dc, (IH Dd). reflexivity.
Qed.

Lemma isEmpty_app (a b : string) : isEmpty (a ++ b) = isEmpty a && isEmpty b.
Proof. destruct a; reflexivity. Qed.

(** What [parseFloat] reads in unsigned text: the digits before and
    after the first dot, up to the first character that is no digit. *)
Lemma parseFloat_decimal (ip fp rest : string) :
  allDigits ip = true -> allDigits fp = true ->
  isEmpty (ip ++ fp) = false ->
  noDigitAt rest ->
  parseFloat (ip ++ String "." (fp ++ rest))
  = decimalToNumber (digitsValue 0 (ip ++ fp)) (String.length fp).
Proof.
  intros Di Df NE R. unfold parseFloat.
  assert (E : trimStart (ip ++ String "." (fp ++ rest)) = (ip ++ String "." (fp ++ rest))%string
              /\ splitSign (ip ++ String "." (fp ++ rest))
                 = (false, (ip ++ String "." (fp ++ rest))%string)).
  { destruct ip as [|c ip']; cbn [String.append].
    - split; [apply trimStart_no_white_space, dot_is_no_white_space | reflexivity].
    - rewrite allDigits_cons in Di. apply andb_true_iff in Di. destruct Di as [Dc _].
      split; [apply trimStart_no_white_space, digit_is_no_white_space, Dc
             | apply digit_is_no_sign, Dc]. }
  destruct E as [-> ->].
  rewrite (spanDigits_app ip (String "." (fp ++ rest)) Di) by reflexivity.
  rewrite (spanDigits_app fp rest Df R). cbn [fst].
  rewrite <- isEmpty_app, NE. reflexivity.
Qed.

(** What [parseFloat] reads in unsigned text: the digits up to the
    first character that is neither a digit nor a dot. *)
Lemma parseFloat_integer (ip rest : string) :
  allDigits ip = true -> isEmpty ip = false ->
  noDigitAt rest -> (forall r, rest <> String "." r) ->
  parseFloat (ip ++ rest) = decimalToNumber (digitsValue 0 ip) 0.
Proof.
  intros Di NE R ND. unfold parseFloat.
  destruct ip as [|c ip']; [discriminate|].
  pose proof Di as Di'. rewrite allDigits_cons in Di'. apply andb_true_iff in Di'.
  destruct Di' as [Dc _].
  assert (E : trimStart (String c ip' ++ rest) = (String c ip' ++ rest)%string
              /\ splitSign (String c ip' ++ rest) = (false, (String c ip' ++ rest)%string)).
  { cbn [String.append].
    split; [apply trimStart_no_white_space, digit_is_no_white_space, Dc
           | apply digit_is_no_sign, Dc]. }
  destruct E as [-> ->].
  rewrite (spanDigits_app (String c ip') rest Di R).
  assert (F : match rest with
              | String "." r2 => fst (spanDigits r2)
              | _ => EmptyString
              end = EmptyString).
  { destruct rest as [|d r]; [reflexivity|].
    destruct (Ascii.eqb_spec d ".") as [-> | Nd]; [exfalso; apply (ND r); reflexivity|].
    destruct d as [[] [] [] [] [] [] [] []]; try reflexivity. exfalso. apply Nd. reflexivity. }
  rewrite F, append_empty. reflexivity.
Qed.

(** Text that begins with no number is read as NaN. *)
Lemma spanDigits_none (rest : string) :
  noDigitAt rest -> spanDigits rest = (EmptyString, rest).
Proof.
  destruct rest as [|c r]; [reflexivity|]. cbn [noDigitAt spanDigits].
  intros ->. reflexivity.
Qed.

Lemma fraction_none (rest : string) :
  noNumberAt rest ->
  match rest with
  | String "." r2 => fst (spanDigits r2)
  | _ => EmptyString
  end = EmptyString.
Proof.
  destruct rest as [|c r]; [reflexivity|]. intros [Dc Dot].
  destruct (Ascii.eqb_spec c ".") as [-> | Nd].
  - specialize (Dot eq_refl). rewrite (spanDigits_none r); [reflexivity|].
    destruct r; [exact I | exact Dot].
  - destruct c as [[] [] [] [] [] [] [] []]; try reflexivity. exfalso. apply Nd. reflexivity.
Qed.

Lemma noNumberAt_noDigitAt (rest : string) : noNumberAt rest -> noDigitAt rest.
Proof. destruct rest as [|c r]; [auto|]. intros [D _]. exact D. Qed.

Lemma parseFloat_none (rest : string) :
  match rest with
  | String c _ => isDigit c = true \/ c = "."%char
  | EmptyString => True
  end ->
  noNumberAt rest -> parseFloat rest = NaN.
Proof.
  intros H N. unfold parseFloat.
  assert (E : trimStart rest = rest /\ splitSign rest = (false, rest)).
  { destruct rest as [|c r']; [split; reflexivity|].
    destruct H as [D| ->].
    - split; [apply trimStart_no_white_space, digit_is_no_white_space, D
             | apply digit_is_no_sign, D].
    - split; [apply trimStart_no_white_space, dot_is_no_white_space | reflexivity]. }
  destruct E as [-> ->].
  rewrite (spanDigits_none rest (noNumberAt_noDigitAt rest N)), (fraction_none rest N).
  reflexivity.
Qed.

Lemma parseFloat_minus_none (rest : string) :
  noNumberAt rest -> parseFloat (String "-" rest) = NaN.
Proof.
  intros N. unfold parseFloat.
  rewrite (trimStart_no_white_space _ (minus_is_no_white_space rest)).
  cbn [splitSign].
  rewrite (spanDigits_none rest (noNumberAt_noDigitAt rest N)), (fraction_none rest N).
  reflexivity.
Qed.

(** C5.  [parseValue] returns a number as it is; a string is trimmed,
    its first comma becomes a dot, every character other than a digit,
    a dot or a minus sign is removed and the rest is parsed, a failed
    parse giving 0; any other value gives 0.  So ["abc"] gives 0, and a
    string never yields NaN.  The parse reads an optional minus sign,
    then digits with an optional fraction, and stops at the first
    character that fits neither.  So of the cleaned text: one leading
    minus sign negates the value; digits, a dot and digits give the
    decimal they spell; digits alone give the whole number they spell;
    what follows them is ignored; and a text that begins with no
    number gives 0. *)
Theorem parseValue_normalises :
  (forall x, parseValue (VNumber x) = x) /\
  (forall s,
     let numberOnly := keepChars isNumberChar (replaceFirst "," "." (trim s)) in
     parseValue (VString s)
     = if isNaN (parseFloat numberOnly) then 0%float else parseFloat numberOnly) /\
  (forall s, list_ascii_of_string (keepChars isNumberChar s)
             = filter (fun c => isDigit c || Ascii.eqb c "." || Ascii.eqb c "-")
                 (list_ascii_of_string s)) /\
  (forall s, isNaN (parseFloat (keepChars isNumberChar (replaceFirst "," "." (trim s)))) = true ->
             parseValue (VString s) = 0%float) /\
  (forall s, isNaN (parseValue (VString s)) = false) /\
  (forall v, (forall x, v <> VNumber x) -> (forall s, v <> VString s) ->
             parseValue v = 0%float) /\
  parseValue (VString "abc") = 0%float /\
  parseValue (VString " 12,5 ") = 12.5%float /\
  (forall s r,
     numberOnly s = String "-" r ->
     (forall r', r <> String "-" r') ->
     parseValue (VString s)
     = if isNaN (parseFloat r) then 0%float else (- parseFloat r)%float) /\
  (forall s neg ip fp rest,
     numberOnly s = (minusSign neg ++ ip ++ String "." (fp ++ rest))%string ->
     allDigits ip = true -> allDigits fp = true -> isEmpty (ip ++ fp) = false ->
     noDigitAt rest ->
     let x := decimalToNumber (digitsValue 0 (ip ++ fp)) (String.length fp) in
     parseValue (VString s) = if neg then (- x)%float else x) /\
  (forall s neg ip rest,
     numberOnly s = (minusSign neg ++ ip ++ rest)%string ->
     allDigits ip = true -> isEmpty ip = false ->
     noDigitAt rest -> (forall r, rest <> String "." r) ->
     let x := decimalToNumber (digitsValue 0 ip) 0 in
     parseValue (VString s) = if neg then (- x)%float else x) /\
  (forall s neg rest,
     numberOnly s = (minusSign neg ++ rest)%string ->
     (neg = false -> forall r, rest <> String "-" r) ->
     noNumberAt rest ->
     parseValue (VString s) = 0%float) /\
  parseValue (VString "-5") = (-5)%float /\
  parseValue (VString " -12,5 kW") = (-12.5)%float /\
  parseValue (VString "abc-7") = (-7)%float /\
  parseValue (VString "-0") = (-0)%float /\
  parseValue (VString "5-") = 5%float /\
  parseValue (VString "--5") = 0%float /\
  parseValue (VString "1.234,56") = 1.234%float /\
  parseValue (VString "1,234,56") = 1.23456%float /\
  parseValue (VString (noBreakSpace ++ "-3,5")) = (-3.5)%float.
Proof.
  split; [reflexivity|]. split; [reflexivity|]. split; [apply keepChars_filter|].
  split; [|split; [|split; [|split; [reflexivity|split; [reflexivity|]]]]].
  - intros s H. cbn [parseValue]. rewrite H. reflexivity.
  - intros s. cbn [parseValue].
    destruct (isNaN (parseFloat _)) eqn:E; [reflexivity | exact E].
  - intros v Hn Hs. destruct v; try reflexivity.
    + exfalso. eapply Hn. reflexivity.
    + exfalso. eapply Hs. reflexivity.
  - split; [|split; [|split; [|split; [|repeat split; vm_compute; reflexivity]]]].
    + intros s r E N. cbn [parseValue]. fold (numberOnly s). rewrite E.
      rewrite parseFloat_minus, isNaN_opp; [reflexivity|].
      destruct r as [|c r']; [exact I|].
      destruct (keepChars_head _ _ _ _ E) as [_ [s' E']].
      symmetry in E'. destruct (keepChars_head _ _ _ _ E') as [K _].
      destruct (numberChar_cases c K) as [D|[D|D]]; [left; exact D | right; exact D |].
      exfalso. apply (N r'). rewrite D. reflexivity.
    + intros s neg ip fp rest E Di Df NE R x. cbn [parseValue]. fold (numberOnly s).
      rewrite E.
      pose proof (parseFloat_decimal ip fp rest Di Df NE R) as P. fold x in P.
      pose proof (decimalToNumber_not_NaN (digitsValue 0 (ip ++ fp)) (String.length fp))
        as NN. fold x in NN.
      destruct neg; cbn [minusSign String.append].
      * rewrite parseFloat_minus, P, isNaN_opp, NN; [reflexivity|].
        destruct ip as [|c ip']; cbn [String.append]; [right; reflexivity|].
        rewrite allDigits_cons in Di. apply andb_true_iff in Di. left. apply Di.
      * rewrite P, NN. reflexivity.
    + intros s neg ip rest E Di NE R ND x. cbn [parseValue]. fold (numberOnly s).
      rewrite E.
      pose proof (parseFloat_integer ip rest Di NE R ND) as P. fold x in P.
      pose proof (decimalToNumber_not_NaN (digitsValue 0 ip) 0) as NN. fold x in NN.
      destruct neg; cbn [minusSign String.append].
      * rewrite parseFloat_minus, P, isNaN_opp, NN; [reflexivity|].
        destruct ip as [|c ip']; [discriminate|]. cbn [String.append].
        rewrite allDigits_cons in Di. apply andb_true_iff in Di. left. apply Di.
      * rewrite P, NN. reflexivity.
    + intros s neg rest E Sg NoN. cbn [parseValue]. fold (numberOnly s). rewrite E.
      assert (P : parseFloat (minusSign neg ++ rest) = NaN).
      { destruct neg; cbn [minusSign String.append].
        - apply parseFloat_minus_none, NoN.
        - apply parseFloat_none; [|exact NoN].
          destruct rest as [|c r]; [exact I|].
          cbn [minusSign String.append] in E.
          destruct (keepChars_head _ _ _ _ E) as [K _].
          destruct (numberChar_cases c K) as [D|[D|D]]; [left; exact D | right; exact D|].
          exfalso. apply (Sg eq_refl r). rewrite D. reflexivity. }
      rewrite P. reflexivity.
Qed.

Lemma parseValue_normalises_witness :
  parseValue (VString "n/a") = 0%float /\ parseValue VNull = 0%float /\
  parseValue (VString " -12,5 kW") = (-12.5)%float /\
  parseValue (VString "7.25 kWh") = 7.25%float /\
  parseValue (VString "-40 A") = (-40)%float /\
  parseValue (VString "-.-") = 0%float.
Proof.
  destruct parseValue_normalises
    as (_ & _ & _ & Hfail & _ & Hother & _ & _ & Hminus & Hdecimal & Hwhole & Hnone & _).
  split; [|split; [|split; [|split; [|split]]]].
  - apply Hfail. reflexivity.
  - apply Hother; intros; discriminate.
  - rewrite (Hminus " -12,5 kW" "12.5"); [reflexivity | reflexivity | discriminate].
  - rewrite (Hdecimal "7.25 kWh" false "7" "25" ""); reflexivity || exact I.
  - rewrite (Hwhole "-40 A" true "40" "");
      try reflexivity; try exact I; intros; discriminate.
  - apply (Hnone "-.-" true ".-"); [reflexivity | discriminate |].
    split; [reflexivity | intros _; reflexivity].
Defined.

(** ** The timestamp resolver *)







(** C7.  [parseDateTime] returns a date exactly when [finalDate] is a
    valid date whose local year exceeds 1990; when it returns [null]
    the turn of the extraction loop for that row leaves [allRows] as it
    was: no reading is pushed, nothing is thrown, and the loop goes on
    to the next row with the readings collected so far. *)
Theorem absent_iff_gate_fails_and_row_skipped (h : Host) :
  (forall dateVal timeVal,
     parseDateTime h dateVal timeVal <> None <->
     exists t, resolveDate h dateVal timeVal = Some (DateOf t) /\
               1990 < YearFromTime (LocalTime h t)) /\
  (forall jsonData mapping i row allRows,
     rowAt jsonData i = Some row ->
     parseDateTime h (cellAt row (dateCol mapping)) (readTimeVal jsonData mapping i) = None ->
     extractRow h jsonData mapping i allRows = allRows /\
     forall n, rowLoop h jsonData mapping (S n) i allRows
               = rowLoop h jsonData mapping n (i + 1) allRows).
Proof.
  split.
  - intros dateVal timeVal. split.
    + destruct (parseDateTime h dateVal timeVal) as [r|] eqn:E; [|congruence].
      intros _. apply parseDateTime_spec in E. destruct E as (t & E & Y & _). eauto.
    + intros (t & E & Y).
      assert (parseDateTime h dateVal timeVal = Some (setSeconds0 h (DateOf t)))
        by (apply parseDateTime_spec; eauto).
      congruence.
  - intros jsonData mapping i row allRows Hrow Habs.
    assert (X : extractRow h jsonData mapping i allRows = allRows).
    { unfold extractRow. rewrite Hrow. destruct row; [reflexivity|].
      rewrite Habs. reflexivity. }
    split; [exact X|]. intros n. cbn [rowLoop]. rewrite X. reflexivity.
Qed.

Lemma absent_iff_gate_fails_and_row_skipped_witness :
  extractRow (ptHost 0) morningSheet defaultMapping 5 [] = [].
Proof.
  refine (proj1 (proj2 (absent_iff_gate_fails_and_row_skipped (ptHost 0))
                   morningSheet defaultMapping 5
                   [VString "Total"; VString "0,5"] [] eq_refl _)).
  vm_compute. reflexivity.
Defined.

(** C10.  A time cell holding a string that is not blank (not empty
    once its white space is trimmed) and has no colon (fewer than two
    colon-separated parts) does not make the resolver report absent: hours and minutes stay 0, and the row resolves to local
    midnight of the day of the date part, whenever the date part is a
    valid date whose local year exceeds 1990. *)
Theorem time_without_colon_gives_midnight
    (h : Host) (dateVal : value) (s : string) (t : Z) :
  HostOK h ->
  isEmpty (trim s) = false ->
  (List.length (splitBy isColon (trim s)) < 2)%nat ->
  datePart h dateVal = DateOf t ->
  Z.abs t <= maxTime ->
  1990 < YearFromTime (LocalTime h t) ->
  parseDateTime h dateVal (VString s)
  = Some (DateOf (UTC h (Day (LocalTime h t) * msPerDay))).
Proof.
  intros OK NB NC DP R Y.
  pose proof (tza_bounded h OK) as B.
  pose proof Y as Y'. apply year_gate in Y'.
  set (m := UTC h (Day (LocalTime h t) * msPerDay)).
  assert (Lm : LocalTime h m = Day (LocalTime h t) * msPerDay)
    by (unfold m, UTC, LocalTime; lia).
  assert (Rm : Z.abs m <= maxTime).
  { unfold m, UTC, LocalTime, Day, msPerDay, maxTime in *. dlia. }
  apply parseDateTime_spec. exists m. split; [|split].
  - assert (E : resolveDate h dateVal (VString s)
                = (let (hours, minutes) := timePart h (VString s) in
                   if isValidDate (datePart h dateVal)
                   then Some (setHours h (datePart h dateVal) hours minutes)
                   else None)).
    { unfold resolveDate, hasTimeCell. cbn [ToString]. rewrite NB. cbn [negb].
      destruct dateVal; reflexivity. }
    rewrite E. unfold timePart. cbn [ToString].
    apply Nat.ltb_lt in NC. rewrite Nat.ltb_antisym in NC.
    apply negb_true_iff in NC. rewrite NC, DP. cbn [isValidDate].
    unfold setHours. rewrite truncFinite_zero.
    unfold MakeDate, MakeTime. rewrite !Z.mul_0_l, !Z.add_0_r.
    fold m. rewrite TimeClip_ok by exact Rm. reflexivity.
  - rewrite Lm, YearFromTime_Day. exact Y.
  - unfold setSeconds0. rewrite minute_decomposition, Lm.
    replace (msPerMinute * (Day (LocalTime h t) * msPerDay / msPerMinute))
      with (Day (LocalTime h t) * msPerDay) by (unfold msPerDay, msPerMinute; dlia).
    fold m. rewrite TimeClip_ok by exact Rm. reflexivity.
Qed.

Lemma time_without_colon_gives_midnight_witness :
  parseDateTime (ptHost 0) (VString "15/03/2023") (VString "1430")
  = Some (DateOf 1678838400000).
Proof.
  apply (time_without_colon_gives_midnight (ptHost 0)
           (VString "15/03/2023") "1430" 1678838400000).
  - apply ptHost_ok; reflexivity.
  - reflexivity.
  - vm_compute. lia.
  - vm_compute. reflexivity.
  - vm_compute. discriminate.
  - vm_compute. reflexivity.
Defined.

(** ** The grid extractor *)

Lemma rowAt_out_of_bounds (jsonData : grid) (i : Z) :
  i < 0 \/ Z.of_nat (List.length jsonData) <= i -> rowAt jsonData i = None.
Proof.
  intros H. unfold rowAt. destruct (i <? 0) eqn:E; [reflexivity|].
  apply Z.ltb_ge in E. apply nth_error_None. lia.
Qed.

(** C8.  When the date of a row resolves, the row yields a reading; a
    quantity whose target row [i + (fieldRow - dateRow)] lies outside
    the grid is 0 in that reading. *)
Theorem missing_target_row_reads_zero
    (h : Host) (jsonData : grid) (mapping : ColumnMapping) (i : Z)
    (row : list value) (date : Date) (allRows : list TelemetryRow.t) :
  rowAt jsonData i = Some row ->
  row <> [] ->
  parseDateTime h (cellAt row (dateCol mapping)) (readTimeVal jsonData mapping i) = Some date ->
  let outside (fieldRow : Z) :=
    let j := i + (fieldRow - dateRow mapping) in
    j < 0 \/ Z.of_nat (List.length jsonData) <= j in
  exists r,
    extractRow h jsonData mapping i allRows = allRows ++ [r] /\
    TelemetryRow.timestamp r = date /\
    (outside (activeRow mapping) -> TelemetryRow.activePower r = 0%float) /\
    (outside (inductiveRow mapping) -> TelemetryRow.inductivePower r = 0%float) /\
    (outside (capacitiveRow mapping) -> TelemetryRow.capacitivePower r = 0%float).
Proof.
  intros Hrow Hne Hdate outside.
  unfold extractRow. rewrite Hrow. destruct row as [|c row']; [congruence|].
  rewrite Hdate. eexists. split; [reflexivity|]. cbn [TelemetryRow.timestamp
    TelemetryRow.activePower TelemetryRow.inductivePower TelemetryRow.capacitivePower].
  split; [reflexivity|].
  repeat split; intros O; unfold readQuantity;
    rewrite rowAt_out_of_bounds by exact O; reflexivity.
Qed.

Lemma missing_target_row_reads_zero_witness :
  exists r,
    extractRow (ptHost 0) morningSheet staggeredMapping 4 [] = [r] /\
    TelemetryRow.inductivePower r = 0%float.
Proof.
  destruct (missing_target_row_reads_zero (ptHost 0) morningSheet staggeredMapping 4
              [VString "01/01/2024 09:00"; VString "0,2"; VString "0,004"; VNumber 0%float]
              (DateOf 1704099600000) []
              eq_refl ltac:(discriminate) eq_refl)
    as (r & E & _ & _ & I & _).
  exists r. split; [exact E|]. apply I. right. cbn. lia.
Defined.

(** ** The multi-file merger *)

Lemma extractRow_app (h : Host) (jsonData : grid) (mapping : ColumnMapping) (i : Z)
    (allRows : list TelemetryRow.t) :
  extractRow h jsonData mapping i allRows
  = allRows ++ extractRow h jsonData mapping i [].
Proof.
  unfold extractRow. destruct (rowAt jsonData i) as [[|c row]|];
    try (rewrite app_nil_r; reflexivity).
  destruct (parseDateTime h _ _); [reflexivity | rewrite app_nil_r; reflexivity].
Qed.

Lemma rowLoop_app (h : Host) (jsonData : grid) (mapping : ColumnMapping) (n : nat) :
  forall i allRows,
    rowLoop h jsonData mapping n i allRows
    = allRows ++ rowLoop h jsonData mapping n i [].
Proof.
  induction n as [|n IH]; intros i allRows; cbn [rowLoop].
  - rewrite app_nil_r. reflexivity.
  - rewrite IH, (IH _ (extractRow h jsonData mapping i [])), extractRow_app.
    rewrite app_assoc. reflexivity.
Qed.

Lemma extractFile_app (h : Host) (jsonData : grid) (mapping : ColumnMapping)
    (allRows : list TelemetryRow.t) :
  extractFile h jsonData mapping allRows
  = allRows ++ extractFile h jsonData mapping [].
Proof. apply rowLoop_app. Qed.

(** After the outer loop [allRows] holds the readings of the files, file
    after file. *)
Lemma fileLoop_concat (h : Host) (mapping : ColumnMapping) (files : list grid) :
  forall fIndex allRows cpe,
    fst (fileLoop h files mapping fIndex allRows cpe)
    = allRows ++ flat_map (fun jsonData => extractFile h jsonData mapping []) files.
Proof.
  induction files as [|f files IH]; intros fIndex allRows cpe; cbn [fileLoop flat_map].
  - rewrite app_nil_r. reflexivity.
  - rewrite IH, extractFile_app, app_assoc. reflexivity.
Qed.

Lemma extractRow_valid (h : Host) (jsonData : grid) (mapping : ColumnMapping) (i : Z) :
  HostOK h -> Forall validRow (extractRow h jsonData mapping i []).
Proof.
  intros OK. unfold extractRow.
  destruct (rowAt jsonData i) as [[|c row]|]; try constructor.
  destruct (parseDateTime h _ _) as [d|] eqn:E; [|constructor].
  destruct (parseDateTime_valid _ _ _ _ OK E) as (t & -> & _).
  repeat constructor.
Qed.

Lemma rowLoop_valid (h : Host) (jsonData : grid) (mapping : ColumnMapping) (n : nat) :
  HostOK h -> forall i, Forall validRow (rowLoop h jsonData mapping n i []).
Proof.
  intros OK. induction n as [|n IH]; intros i; cbn [rowLoop]; [constructor|].
  rewrite rowLoop_app. apply Forall_app. split; [apply extractRow_valid, OK | apply IH].
Qed.

Lemma merged_valid (h : Host) (mapping : ColumnMapping) (files : list grid) :
  HostOK h ->
  Forall validRow (flat_map (fun jsonData => extractFile h jsonData mapping []) files).
Proof.
  intros OK. induction files as [|f files IH]; cbn [flat_map]; [constructor|].
  apply Forall_app. split; [apply rowLoop_valid, OK | exact IH].
Qed.

Lemma sorted_timeOrdered (l : list TelemetryRow.t) :
  Forall validRow l -> StronglySorted (keyLe rowTime) l -> StronglySorted timeOrdered l.
Proof.
  intros V S. induction S as [|x l S IH Hx]; [constructor|].
  inversion V as [|? ? Vx Vl]; subst. constructor; [apply IH; exact Vl|].
  rewrite Forall_forall in *. intros y Hy.
  specialize (Hx y Hy). specialize (Vl y Hy).
  unfold validRow, keyLe, rowTime, timeOrdered in *.
  destruct (TelemetryRow.timestamp x) as [|tx]; [discriminate|].
  destruct (TelemetryRow.timestamp y) as [|ty]; [discriminate|].
  exists tx, ty. auto.
Qed.

Lemma atTime_key (t : Z) (l : list TelemetryRow.t) :
  Forall validRow l ->
  filter (atTime t) l = filter (fun r => rowTime r =? t) l.
Proof.
  intros V. apply filter_ext_in. intros r Hr.
  rewrite Forall_forall in V. specialize (V r Hr).
  unfold validRow, atTime, rowTime in *.
  destruct (TelemetryRow.timestamp r); [discriminate | reflexivity].
Qed.

Lemma length_flat_map {A B : Type} (f : A -> list B) (l : list A) :
  List.length (flat_map f l) = list_sum (map (fun a => List.length (f a)) l).
Proof.
  induction l as [|a l IH]; cbn [flat_map map list_sum]; [reflexivity|].
  rewrite length_app, IH. reflexivity.
Qed.

(** C6.  The merged series is the concatenation, in file order, of the
    readings extracted from each file, sorted by timestamp with a stable
    sort: it is a permutation of the concatenation (nothing dropped,
    nothing de-duplicated), its length is the sum of the per-file
    counts, it is in ascending time order, and readings with the same
    timestamp are in the order of the concatenation. *)
Theorem merge_is_stable_sort_of_concatenation
    (h : Host) (files : list grid) (mapping : ColumnMapping) :
  HostOK h ->
  let extracted := fun jsonData => extractFile h jsonData mapping [] in
  let data := fst (parseExcelFiles h files mapping) in
  data = sortBy byTimestamp (flat_map extracted files) /\
  Permutation data (flat_map extracted files) /\
  List.length data = list_sum (map (fun f => List.length (extracted f)) files) /\
  StronglySorted timeOrdered data /\
  forall t, filter (atTime t) data = filter (atTime t) (flat_map extracted files).
Proof.
  intros OK extracted data.
  assert (E : data = sortBy byTimestamp (flat_map extracted files)).
  { unfold data, parseExcelFiles.
    pose proof (fileLoop_concat h mapping files 0 [] None) as C.
    destruct (fileLoop h files mapping 0 [] None) as [allRows cpe].
    cbn [fst] in *. rewrite C. reflexivity. }
  pose proof (merged_valid h mapping files OK) as V. fold extracted in V.
  assert (V' : Forall validRow data)
    by (rewrite E; apply sortBy_Forall; exact V).
  split; [exact E|]. rewrite E in *. split; [apply sortBy_perm|]. split; [|split].
  - rewrite sortBy_length. apply length_flat_map.
  - apply sorted_timeOrdered; [exact V'|].
    apply (sortBy_sorted byTimestamp rowTime validRow byTimestamp_key). exact V.
  - intros t. rewrite !atTime_key by assumption.
    apply (sortBy_stable byTimestamp rowTime validRow byTimestamp_key). exact V.
Qed.

Lemma merge_is_stable_sort_of_concatenation_witness :
  map TelemetryRow.activePower
    (filter (atTime 1704099600000)
       (fst (parseExcelFiles (ptHost 0) [morningSheet; overlapSheet] defaultMapping)))
  = [0.2%float; 0.3%float]
  /\ List.length (fst (parseExcelFiles (ptHost 0) [morningSheet; overlapSheet] defaultMapping))
     = 6%nat.
Proof.
  destruct (merge_is_stable_sort_of_concatenation (ptHost 0)
              [morningSheet; overlapSheet] defaultMapping
              (ptHost_ok 0 eq_refl eq_refl))
    as (_ & _ & L & _ & S).
  split.
  - rewrite (S 1704099600000). vm_compute. reflexivity.
  - rewrite L. vm_compute. reflexivity.
Defined.

(** *** Hour-aligned input, one reading per hour *)















(** ** The exporter *)

Lemma addToGroup_sums (key : string) (ts : Date) (d : HourlyData.t) (grouped : periodGroups) :
  map daySumsOfGroup (addToGroup key ts d grouped)
  = addToDay key (HourlyData.activeAvg d) (HourlyData.inductiveAvg d)
      (HourlyData.capacitiveAvg d) (map daySumsOfGroup grouped).
Proof.
  induction grouped as [|[k g] rest IH]; cbn [addToGroup map addToDay].
  - reflexivity.
  - unfold daySumsOfGroup at 2. cbn [fst snd].
    destruct (String.eqb k key); cbn [map]; [reflexivity|].
    rewrite IH. reflexivity.
Qed.

Lemma groupPeriods_sums (h : Host) (data : list HourlyData.t) :
  forall grouped,
    map daySumsOfGroup
      (fold_left (fun grouped d =>
                    let (key, ts) := periodKey h daily d in addToGroup key ts d grouped)
                 data grouped)
    = fold_left (fun acc d =>
                   addToDay (toLocaleDateString h (HourlyData.timestamp d))
                     (HourlyData.activeAvg d) (HourlyData.inductiveAvg d)
                     (HourlyData.capacitiveAvg d) acc)
                data (map daySumsOfGroup grouped).
Proof.
  induction data as [|d data IH]; intros grouped; cbn [fold_left]; [reflexivity|].
  rewrite IH. cbn [periodKey]. rewrite addToGroup_sums. reflexivity.
Qed.

(** C3, as amended.  On the values of [processedData], before they are
    printed, the daily export is the hourly export re-summed by day:
    each daily value is the sum, from 0 and in record order, of the
    hourly averages of the records that print the same date. *)
Theorem daily_values_resum_hourly_values
    (h : Host) (data : list HourlyData.t) (sd sh : bool) (cd ch : ExportColumns) :
  map periodValues
    (processData h data {| resolution := daily; splitDateTime := sd; columns := cd |})
  = resumByDay
      (processData h data {| resolution := hourly; splitDateTime := sh; columns := ch |}).
Proof.
  unfold processData, resumByDay. cbn [resolution].
  rewrite map_map. unfold periodValues. cbn [Processed.date Processed.active
    Processed.inductive Processed.capacitive].
  change (map (fun x : string * DayGroup.t =>
                 (fst x, (DayGroup.actSum (snd x), DayGroup.indSum (snd x),
                          DayGroup.capSum (snd x)))))
    with (map daySumsOfGroup).
  unfold groupPeriods. rewrite groupPeriods_sums. cbn [map].
  generalize (@nil DaySums) as acc.
  induction data as [|d data IH]; intros acc; cbn [fold_left map]; [reflexivity|].
  rewrite IH. reflexivity.
Qed.

(** C3, as the specification states it, fails on the exported text.  Two
    hours with an inductive average of 0.004 are each printed [0,00],
    so the printed hourly values of the day add up to 0, while the
    daily export prints their sum 0.008 as [0,01]. *)
Lemma printed_hours_do_not_add_up_to_printed_day :
  exportRows (ptHost 0) smallLoadRecords (exportAll hourly)
  = [ ["01/01/2024"; "08:00"; "1,50"; "0,00"; "0,00"];
      ["01/01/2024"; "09:00"; "2,25"; "0,00"; "0,00"] ] /\
  exportRows (ptHost 0) smallLoadRecords (exportAll daily)
  = [ ["01/01/2024"; "3,75"; "0,01"; "0,00"] ] /\
  inductiveOfDay
    (resumExportedByDay (exportRows (ptHost 0) smallLoadRecords (exportAll hourly)))
  = 0%float /\
  inductiveOfDay
    (exportedDayValues (exportRows (ptHost 0) smallLoadRecords (exportAll daily)))
  = 0.01%float /\
  resumExportedByDay (exportRows (ptHost 0) smallLoadRecords (exportAll hourly))
  <> exportedDayValues (exportRows (ptHost 0) smallLoadRecords (exportAll daily)).
Proof.
  repeat split; try (vm_compute; reflexivity).
  intros E. apply (f_equal (fun days => numEq (inductiveOfDay days) 0%float)) in E.
  vm_compute in E. discriminate.
Qed.

(** ** The scenarios of the specification *)

(** A date serial 45000 with the time text 14:30 and the active cell
    12,5: one reading at 2023-03-15 14:30:00 with 12.5. *)
Example scenario_serial_with_time_text :
  parseExcelFiles (ptHost 0) [splitSheet] splitMapping
  = ([TelemetryRow.mk (DateOf 1678890600000) 12.5%float 0%float 0%float],
     Some "Ativa").
Proof. vm_compute. reflexivity. Qed.

(** Readings of 10 at 08:15 and of 20 at 08:45: one record at 08:00 with
    average 15, maximum 20 and minimum 10. *)
Example scenario_two_readings_one_hour :
  aggregateToHourly (ptHost 0)
    [ TelemetryRow.mk (DateOf 1704096900000) 10%float 0%float 0%float;
      TelemetryRow.mk (DateOf 1704098700000) 20%float 0%float 0%float ]
  = Some [ HourlyData.mk (DateOf 1704096000000) "01/01, 08:00"
             15%float 20%float 10%float 0%float 0%float 0%float
             0%float 0%float 0%float ].
Proof. vm_compute. reflexivity. Qed.

(** Two files that both hold a reading at 09:00: both readings are kept
    and fall into the one record of that hour. *)
Example scenario_overlapping_files :
  option_map (map (fun rec => (HourlyData.timestamp rec, HourlyData.activeMax rec,
                               HourlyData.activeMin rec)))
    (aggregateToHourly (ptHost 0)
       (fst (parseExcelFiles (ptHost 0) [morningSheet; overlapSheet] defaultMapping)))
  = Some [ (DateOf 1704092400000, 0.4%float, 0.4%float);
           (DateOf 1704096000000, 0.1%float, 0.1%float);
           (DateOf 1704099600000, 0.3%float, 0.2%float) ].
Proof. vm_compute. reflexivity. Qed.

(* ================================================================== *)
(** * Further properties of the data service *)
(* ================================================================== *)

(** ** More on the timestamp resolver *)

Lemma parseDateTime_whole_minute
    (h : Host) (dateVal timeVal : value) (r : Date) :
  HostOK h ->
  parseDateTime h dateVal timeVal = Some r ->
  exists t, r = DateOf t /\ 0 <= t <= maxTime /\ t mod msPerMinute = 0 /\
            1990 < YearFromTime (LocalTime h t).
Proof.
  intros OK H. apply parseDateTime_spec in H. destruct H as (t & E & Y & ->).
  pose proof (resolveDate_range _ _ _ _ OK E) as R.
  pose proof Y as Y'. apply year_gate in Y'. unfold LocalTime in Y'.
  pose proof (tza_bounded h OK) as B. pose proof (tza_whole_minutes h OK) as M.
  assert (T : 0 <= t <= maxTime) by (unfold msPerDay, maxTime in *; lia).
  rewrite setSeconds0_floor by assumption.
  eexists. split; [reflexivity|].
  split; [unfold msPerMinute, maxTime in *; dlia|].
  split; [unfold msPerMinute; dlia|].
  apply year_gate. unfold LocalTime, msPerMinute in *. dlia.
Qed.

(** X1.  Whatever the cells, a returned timestamp is a valid date on a whole
    minute whose local year exceeds 1990. *)
Theorem resolved_timestamp_is_whole_minute_after_1990
    (h : Host) (dateVal timeVal : value) (r : Date) :
  HostOK h ->
  parseDateTime h dateVal timeVal = Some r ->
  exists t, r = DateOf t /\ 0 <= t <= maxTime /\ t mod msPerMinute = 0 /\
            1990 < YearFromTime (LocalTime h t).
Proof.
  intros OK H. exact (parseDateTime_whole_minute h dateVal timeVal r OK H).
Qed.

Lemma resolved_timestamp_is_whole_minute_after_1990_witness :
  exists t, DateOf 1678890600000 = DateOf t /\ 0 <= t <= maxTime /\
            t mod msPerMinute = 0 /\ 1990 < YearFromTime (LocalTime (ptHost 0) t).
Proof.
  apply (resolved_timestamp_is_whole_minute_after_1990 (ptHost 0)
           (VNumber 45000%float) (VString "14:30:59")).
  - apply ptHost_ok; reflexivity.
  - vm_compute. reflexivity.
Defined.

(** The shape of [resolveDate] in sub-case 1.2 with a text time cell. *)
Lemma resolveDate_text_time (h : Host) (dateVal : value) (s : string) :
  isEmpty (trim s) = false ->
  resolveDate h dateVal (VString s)
  = (let (hours, minutes) := timePart h (VString s) in
     if isValidDate (datePart h dateVal)
     then Some (setHours h (datePart h dateVal) hours minutes)
     else None).
Proof.
  intros NB. unfold resolveDate, hasTimeCell. cbn [ToString]. rewrite NB. cbn [negb].
  destruct dateVal; reflexivity.
Qed.

(** Where a date part and a time of day given as whole numbers of hours
    and minutes lead. *)
Lemma date_part_at_time (h : Host) (dateVal : value) (s : string)
    (t hh mm : Z) (hours minutes : number) :
  HostOK h ->
  isEmpty (trim s) = false ->
  datePart h dateVal = DateOf t ->
  timePart h (VString s) = (hours, minutes) ->
  truncFinite hours = Some hh ->
  truncFinite minutes = Some mm ->
  let m := UTC h (Day (LocalTime h t) * msPerDay + hh * msPerHour + mm * msPerMinute) in
  m <= maxTime ->
  1990 < YearFromTime (LocalTime h m) ->
  parseDateTime h dateVal (VString s) = Some (DateOf m).
Proof.
  intros OK NB DP TP Hh Hm m R Y.
  pose proof Y as Y'. apply year_gate in Y'.
  pose proof (tza_bounded h OK) as B. pose proof (tza_whole_minutes h OK) as M.
  assert (Lm : LocalTime h m
               = Day (LocalTime h t) * msPerDay + hh * msPerHour + mm * msPerMinute)
    by (unfold m, UTC, LocalTime; lia).
  assert (T : 0 <= m <= maxTime)
    by (unfold LocalTime, msPerDay, maxTime in *; lia).
  apply parseDateTime_spec. exists m. split; [|split; [exact Y|]].
  - rewrite resolveDate_text_time by exact NB. rewrite TP, DP. cbn [isValidDate].
    unfold setHours. rewrite Hh, Hm.
    unfold MakeDate, MakeTime. rewrite !Z.mul_0_l, !Z.add_0_r.
    replace (Day (LocalTime h t) * msPerDay + (hh * msPerHour + mm * msPerMinute))
      with (Day (LocalTime h t) * msPerDay + hh * msPerHour + mm * msPerMinute) by lia.
    fold m. rewrite TimeClip_ok; [reflexivity|]. unfold maxTime in *. lia.
  - rewrite setSeconds0_floor by assumption. f_equal.
    unfold LocalTime in Lm. unfold msPerDay, msPerHour, msPerMinute in *. dlia.
Qed.



(** X3.  A time text with a colon whose hour or minute part does not begin
    with a number makes the resolver report absent, whatever the date
    cell. *)
Theorem time_text_without_numbers_is_absent
    (h : Host) (dateVal : value) (s : string) :
  isEmpty (trim s) = false ->
  (2 <= List.length (splitBy isColon (trim s)))%nat ->
  truncFinite (parseInt (part 0 (splitBy isColon (trim s)))) = None \/
  truncFinite (parseInt (part 1 (splitBy isColon (trim s)))) = None ->
  parseDateTime h dateVal (VString s) = None.
Proof.
  intros NB L Bad. unfold parseDateTime.
  rewrite resolveDate_text_time by exact NB.
  unfold timePart. cbn [ToString]. apply Nat.leb_le in L. rewrite L.
  destruct (isValidDate (datePart h dateVal)); [|reflexivity].
  assert (I : setHours h (datePart h dateVal)
                (parseInt (part 0 (splitBy isColon (trim s))))
                (parseInt (part 1 (splitBy isColon (trim s)))) = InvalidDate).
  { unfold setHours. destruct (datePart h dateVal); [reflexivity|].
    destruct Bad as [E | E]; rewrite E; [reflexivity|].
    destruct (truncFinite (parseInt (part 0 (splitBy isColon (trim s)))));
      reflexivity. }
  rewrite I. reflexivity.
Qed.

Lemma time_text_without_numbers_is_absent_witness :
  parseDateTime (ptHost 0) (VNumber 45000%float) (VString "14:h30") = None.
Proof.
  apply (time_text_without_numbers_is_absent (ptHost 0) (VNumber 45000%float) "14:h30").
  - reflexivity.
  - vm_compute. lia.
  - right. vm_compute. reflexivity.
Defined.



(** X5.  Without a time cell only a number or a text can resolve: a date
    cell that is empty, a boolean or a [Date] object is reported absent,
    although a [Date] object is accepted as soon as a time text
    accompanies it. *)
Theorem date_object_needs_a_time_cell (h : Host) :
  (forall dateVal timeVal,
     hasTimeCell h timeVal = false ->
     (forall x, dateVal <> VNumber x) -> (forall s, dateVal <> VString s) ->
     parseDateTime h dateVal timeVal = None) /\
  (HostOK h ->
   forall t, Z.abs t <= maxTime -> 1990 < YearFromTime (LocalTime h t) ->
     parseDateTime h (VDate (DateOf t)) (VString "00:00")
     = Some (DateOf (UTC h (Day (LocalTime h t) * msPerDay)))).
Proof.
  split.
  - intros dateVal timeVal NoTime Hn Hs. unfold parseDateTime, resolveDate.
    rewrite NoTime. destruct dateVal; try reflexivity.
    + exfalso. eapply Hn. reflexivity.
    + exfalso. eapply Hs. reflexivity.
  - intros OK t R Y.
    pose proof (tza_bounded h OK) as B.
    pose proof Y as Y'. apply year_gate in Y'.
    replace (UTC h (Day (LocalTime h t) * msPerDay))
      with (UTC h (Day (LocalTime h t) * msPerDay + 0 * msPerHour + 0 * msPerMinute))
      by (f_equal; lia).
    apply (date_part_at_time h (VDate (DateOf t)) "00:00" t 0 0 0%float 0%float OK);
      try reflexivity.
    + unfold UTC, LocalTime, Day, msPerDay, maxTime in *. dlia.
    + unfold UTC, LocalTime in *.
      replace (Day (t + LocalTZA h) * msPerDay + 0 * msPerHour + 0 * msPerMinute
               - LocalTZA h + LocalTZA h)
        with (Day (t + LocalTZA h) * msPerDay) by lia.
      rewrite YearFromTime_Day. exact Y.
Qed.

Lemma date_object_needs_a_time_cell_witness :
  parseDateTime (ptHost 0) (VDate (DateOf 1678890600000)) VUndefined = None /\
  parseDateTime (ptHost 0) (VDate (DateOf 1678890600000)) (VString "00:00")
  = Some (DateOf 1678838400000).
Proof.
  destruct (date_object_needs_a_time_cell (ptHost 0)) as [A P]. split.
  - apply A; [reflexivity | intros; discriminate | intros; discriminate].
  - apply (P (ptHost_ok 0 eq_refl eq_refl) 1678890600000).
    + vm_compute. discriminate.
    + vm_compute. reflexivity.
Defined.

(** ** More on the extraction *)

Lemma fileLoop_cpe_later (h : Host) (mapping : ColumnMapping) (files : list grid) :
  forall k allRows cpe,
    snd (fileLoop h files mapping (S k) allRows cpe) = cpe.
Proof.
  induction files as [|f files IH]; intros k allRows cpe; [reflexivity|].
  cbn [fileLoop]. rewrite IH. unfold readCpe. reflexivity.
Qed.

(** X6.  The CPE is read from the first file only: the files that follow
    never change it, and no file gives none.  When the mapped cell of
    the first file exists, the CPE is its trimmed text if the cell is
    truthy and none otherwise (a cell holding the number 0 or an empty
    text gives none).  The trimmed text is the text of the cell without
    the white space at its two ends: it neither begins nor ends with
    white space, and only white space was taken away. *)
Theorem cpe_comes_from_the_first_file
    (h : Host) (f : grid) (rest : list grid) (mapping : ColumnMapping) :
  snd (parseExcelFiles h (f :: rest) mapping) = snd (parseExcelFiles h [f] mapping) /\
  snd (parseExcelFiles h [] mapping) = None /\
  (forall cr cc row,
     cpeRow mapping = Some cr -> cpeCol mapping = Some cc -> rowAt f cr = Some row ->
     snd (parseExcelFiles h (f :: rest) mapping)
     = if truthy (cellAt row cc) then Some (trim (ToString h (cellAt row cc)))
       else None) /\
  (cpeRow mapping = None \/ cpeCol mapping = None ->
   snd (parseExcelFiles h (f :: rest) mapping) = None) /\
  (forall cpe,
     snd (parseExcelFiles h (f :: rest) mapping) = Some cpe ->
     exists cr cc row pre post,
       cpeRow mapping = Some cr /\ cpeCol mapping = Some cc /\ rowAt f cr = Some row /\
       ToString h (cellAt row cc) = (pre ++ cpe ++ post)%string /\
       allWhiteSpace pre = true /\ allWhiteSpace post = true /\
       trimStart cpe = cpe /\ trimEnd cpe = cpe).
Proof.
  assert (E : forall fs, snd (parseExcelFiles h (f :: fs) mapping)
                         = readCpe h f mapping 0 None).
  { intros fs. unfold parseExcelFiles.
    destruct (fileLoop h (f :: fs) mapping 0 [] None) as [a c] eqn:F.
    cbn [snd]. change c with (snd (a, c)). rewrite <- F.
    cbn [fileLoop]. apply fileLoop_cpe_later. }
  split; [rewrite !E; reflexivity|].
  split; [reflexivity|].
  split; [|split].
  - intros cr cc row Hr Hc Hrow. rewrite E. unfold readCpe. rewrite Hr, Hc, Hrow.
    reflexivity.
  - intros N. rewrite E. unfold readCpe.
    destruct N as [N | N]; rewrite N; [reflexivity|].
    destruct (cpeRow mapping); reflexivity.
  - intros cpe. rewrite E. unfold readCpe.
    destruct (cpeRow mapping) as [cr|] eqn:Hr; [|discriminate].
    destruct (cpeCol mapping) as [cc|] eqn:Hc; [|discriminate].
    destruct (rowAt f cr) as [row|] eqn:Hrow; [|discriminate].
    destruct (truthy (cellAt row cc)); [|discriminate].
    intros C. injection C as <-.
    destruct (trim_spec (ToString h (cellAt row cc))) as (pre & post & S & Ap & Aq & T1 & T2).
    exists cr, cc, row, pre, post. repeat split; assumption || reflexivity.
Qed.

Lemma cpe_comes_from_the_first_file_witness :
  snd (parseExcelFiles (ptHost 0) [cpeSheet; morningSheet] cpeMapping)
  = Some "PT0002000012345678XY".
Proof.
  destruct (cpe_comes_from_the_first_file (ptHost 0) cpeSheet [morningSheet] cpeMapping)
    as (_ & _ & C & _).
  rewrite (C 0 1 [VString "CPE"; VString ("  PT0002000012345678XY " ++ noBreakSpace)]);
    reflexivity.
Defined.





Section SortedUnique.

Context {A : Type} (key : A -> Z).

Lemma same_key_same_element (l : list A) (x y : A) :
  NoDup (map key l) -> In x l -> In y l -> key x = key y -> x = y.
Proof.
  induction l as [|a l IH]; intros ND Hx Hy E; [destruct Hx|].
  cbn [map] in ND. inversion ND as [|? ? Na ND']; subst.
  destruct Hx as [-> | Hx], Hy as [-> | Hy]; try reflexivity.
  - exfalso. apply Na. rewrite E. apply in_map. exact Hy.
  - exfalso. apply Na. rewrite <- E. apply in_map. exact Hx.
  - apply IH; assumption.
Qed.

Lemma sorted_perm_unique (l1 : list A) :
  forall l2,
    StronglySorted (keyLe key) l1 -> StronglySorted (keyLe key) l2 ->
    Permutation l1 l2 -> NoDup (map key l1) -> l1 = l2.
Proof.
  induction l1 as [|x l1 IH]; intros l2 S1 S2 P ND.
  - apply Permutation_nil in P. subst. reflexivity.
  - destruct l2 as [|y l2].
    { apply Permutation_sym, Permutation_nil in P. discriminate. }
    assert (E : x = y).
    { apply (same_key_same_element (x :: l1)); [exact ND | left; reflexivity | |].
      - eapply Permutation_in; [apply Permutation_sym; exact P | left; reflexivity].
      - inversion S1 as [|? ? _ F1]; subst. inversion S2 as [|? ? _ F2]; subst.
        assert (Iy : In y (x :: l1))
          by (eapply Permutation_in; [apply Permutation_sym; exact P | left; reflexivity]).
        assert (Ix : In x (y :: l2))
          by (eapply Permutation_in; [exact P | left; reflexivity]).
        rewrite Forall_forall in F1, F2.
        destruct Iy as [-> | Iy]; [reflexivity|].
        destruct Ix as [<- | Ix]; [reflexivity|].
        specialize (F1 _ Iy). specialize (F2 _ Ix). unfold keyLe in *. lia. }
    subst y. f_equal.
    apply IH.
    + inversion S1; assumption.
    + inversion S2; assumption.
    + eapply Permutation_cons_inv. exact P.
    + cbn [map] in ND. inversion ND; assumption.
Qed.

Lemma sorted_strict (l : list A) :
  StronglySorted (keyLe key) l -> NoDup (map key l) ->
  StronglySorted (fun a b => key a < key b) l.
Proof.
  induction l as [|x l IH]; intros S ND; [constructor|].
  inversion S as [|? ? S' F]; subst. cbn [map] in ND. inversion ND as [|? ? Nx ND']; subst.
  constructor; [apply IH; assumption|].
  rewrite Forall_forall in F |- *. intros y Hy. specialize (F y Hy). unfold keyLe in F.
  destruct (Z.eq_dec (key x) (key y)) as [E | E]; [|lia].
  exfalso. apply Nx. rewrite E. apply in_map. exact Hy.
Qed.

End SortedUnique.

(** X8.  When no two readings of the selected files share a timestamp, the
    order in which the files are given does not matter: the merged
    readings are the same. *)
Theorem merge_ignores_file_order_without_ties
    (h : Host) (files files' : list grid) (mapping : ColumnMapping) :
  HostOK h ->
  Permutation files files' ->
  NoDup (map TelemetryRow.timestamp
           (flat_map (fun jsonData => extractFile h jsonData mapping []) files)) ->
  fst (parseExcelFiles h files mapping) = fst (parseExcelFiles h files' mapping).
Proof.
  intros OK P ND.
  assert (E : forall fs, fst (parseExcelFiles h fs mapping)
                = sortBy byTimestamp
                    (flat_map (fun jsonData => extractFile h jsonData mapping []) fs)).
  { intros fs. unfold parseExcelFiles.
    destruct (fileLoop h fs mapping 0 [] None) as [a c] eqn:F. cbn [fst].
    change a with (fst (a, c)). rewrite <- F, fileLoop_concat. reflexivity. }
  rewrite !E.
  set (ex := fun jsonData => extractFile h jsonData mapping []) in *.
  pose proof (merged_valid h mapping files OK) as V.
  pose proof (merged_valid h mapping files' OK) as V'.
  fold ex in V, V'.
  assert (PF : Permutation (flat_map ex files) (flat_map ex files'))
    by (apply Permutation_flat_map; exact P).
  apply (sorted_perm_unique rowTime).
  - apply (sortBy_sorted byTimestamp rowTime validRow byTimestamp_key). exact V.
  - apply (sortBy_sorted byTimestamp rowTime validRow byTimestamp_key). exact V'.
  - eapply Permutation_trans; [apply sortBy_perm|].
    eapply Permutation_trans; [exact PF|]. apply Permutation_sym, sortBy_perm.
  - assert (NK : NoDup (map rowTime (flat_map ex files))).
    { clear - V ND. induction (flat_map ex files) as [|r l IH]; [constructor|].
      cbn [map] in *. inversion ND as [|? ? Nr ND']; subst.
      inversion V as [|? ? Vr V']; subst.
      constructor; [|apply IH; assumption].
      intros I. apply Nr. apply in_map_iff in I. destruct I as (r' & Er & Ir).
      apply in_map_iff. exists r'. split; [|exact Ir].
      rewrite Forall_forall in V'. specialize (V' r' Ir).
      unfold validRow, rowTime in *.
      destruct (TelemetryRow.timestamp r'), (TelemetryRow.timestamp r);
        try discriminate. congruence. }
    eapply Permutation_NoDup; [|exact NK].
    apply Permutation_map, Permutation_sym, sortBy_perm.
Qed.

Lemma merge_ignores_file_order_without_ties_witness :
  fst (parseExcelFiles (ptHost 0) [morningSheet; splitSheet] defaultMapping)
  = fst (parseExcelFiles (ptHost 0) [splitSheet; morningSheet] defaultMapping).
Proof.
  apply merge_ignores_file_order_without_ties.
  - apply ptHost_ok; reflexivity.
  - apply perm_swap.
  - vm_compute. repeat (constructor; [cbn; intuition discriminate|]). constructor.
Defined.

(** ** More on the hourly aggregation *)

Lemma hourKey_spec (h : Host) (r : TelemetryRow.t) (k : Z) :
  hourKey h r = Some k <->
  exists t, TelemetryRow.timestamp r = DateOf t /\
            k = msPerHour * (LocalTime h t / msPerHour) - LocalTZA h /\
            Z.abs k <= maxTime.
Proof.
  unfold hourKey, setMinutes0. destruct (TelemetryRow.timestamp r) as [|t].
  - cbn. split; [discriminate | intros (t & E & _); discriminate].
  - rewrite hour_decomposition. unfold UTC, TimeClip.
    destruct (Z.leb_spec (Z.abs (msPerHour * (LocalTime h t / msPerHour) - LocalTZA h))
                maxTime) as [L | L]; cbn [getTime].
    + split.
      * intros E. injection E as <-. exists t. auto.
      * intros (t' & E & -> & _). injection E as <-. reflexivity.
    + split; [discriminate|]. intros (t' & E & -> & B). injection E as <-. lia.
Qed.

Lemma hourKey_invalid (h : Host) (r : TelemetryRow.t) :
  TelemetryRow.timestamp r = InvalidDate -> hourKey h r = None.
Proof. intros E. unfold hourKey. rewrite E. reflexivity. Qed.

Lemma hourKey_in_range (h : Host) (r : TelemetryRow.t) (t : Z) :
  TelemetryRow.timestamp r = DateOf t -> Z.abs t <= maxTime - msPerHour ->
  exists k, hourKey h r = Some k.
Proof.
  intros E B. eexists. apply hourKey_spec. exists t. split; [exact E|].
  split; [reflexivity|]. unfold LocalTime, msPerHour, maxTime in *. dlia.
Qed.

Lemma groupRows_none (h : Host) (rows : list TelemetryRow.t) :
  forall grouped,
    groupRows h rows grouped = None <-> exists r, In r rows /\ hourKey h r = None.
Proof.
  induction rows as [|r rows IH]; intros grouped; cbn [groupRows].
  - split; [discriminate | intros (r & [] & _)].
  - destruct (hourKey h r) as [k|] eqn:K.
    + rewrite IH. split.
      * intros (r' & I & N). exists r'. split; [right; exact I | exact N].
      * intros (r' & [<- | I] & N); [congruence|]. exists r'. auto.
    + split; [|reflexivity]. intros _. exists r. split; [left; reflexivity | exact K].
Qed.

(** X9.  The aggregation throws exactly when some reading has an invalid
    timestamp (for readings at least an hour inside the range of time
    values); otherwise it returns its records. *)
Theorem aggregation_throws_exactly_on_invalid_timestamp
    (h : Host) (rows : list TelemetryRow.t) :
  Forall (fun r => forall t, TelemetryRow.timestamp r = DateOf t ->
                             Z.abs t <= maxTime - msPerHour) rows ->
  (aggregateToHourly h rows = None <->
   exists r, In r rows /\ TelemetryRow.timestamp r = InvalidDate).
Proof.
  intros R. unfold aggregateToHourly.
  destruct (groupRows h rows []) as [g|] eqn:G.
  - split; [discriminate|]. intros (r & I & E).
    assert (N : groupRows h rows [] = None)
      by (apply groupRows_none; exists r; split; [exact I | apply hourKey_invalid, E]).
    congruence.
  - split; [|reflexivity]. intros _.
    apply groupRows_none in G. destruct G as (r & I & N). exists r. split; [exact I|].
    rewrite Forall_forall in R. specialize (R r I).
    destruct (TelemetryRow.timestamp r) as [|t] eqn:E; [reflexivity|].
    destruct (hourKey_in_range h r t E (R t eq_refl)) as (k & K). congruence.
Qed.

Lemma aggregation_throws_exactly_on_invalid_timestamp_witness :
  aggregateToHourly (ptHost 0)
    [TelemetryRow.mk (DateOf 1704096000000) 1%float 0%float 0%float;
     TelemetryRow.mk InvalidDate 2%float 0%float 0%float] = None.
Proof.
  apply aggregation_throws_exactly_on_invalid_timestamp.
  - repeat constructor; cbn; intros t E; inversion E; subst; vm_compute; discriminate.
  - eexists. split; [right; left; reflexivity | reflexivity].
Defined.

Lemma pushGroup_keys (key : Z) (row : TelemetryRow.t) (grouped : hourGroups) :
  map fst (pushGroup key row grouped)
  = if existsb (Z.eqb key) (map fst grouped) then map fst grouped
    else map fst grouped ++ [key].
Proof.
  induction grouped as [|[k rs] g IH]; [reflexivity|].
  cbn [pushGroup map fst existsb]. rewrite (Z.eqb_sym key k).
  destruct (k =? key); cbn [orb map fst]; [reflexivity|].
  rewrite IH. destruct (existsb _ _); reflexivity.
Qed.

Lemma existsb_eqb_In (key : Z) (l : list Z) :
  existsb (Z.eqb key) l = true <-> In key l.
Proof.
  rewrite existsb_exists. split.
  - intros (x & I & E). apply Z.eqb_eq in E. subst. exact I.
  - intros I. exists key. split; [exact I | apply Z.eqb_refl].
Qed.

Lemma pushGroup_In_key (key : Z) (row : TelemetryRow.t) (grouped : hourGroups) (k : Z) :
  In k (map fst (pushGroup key row grouped)) <-> k = key \/ In k (map fst grouped).
Proof.
  rewrite pushGroup_keys. destruct (existsb _ _) eqn:E.
  - apply existsb_eqb_In in E. split; [auto|]. intros [-> | I]; assumption.
  - rewrite in_app_iff. cbn. intuition.
Qed.

Lemma pushGroup_NoDup (key : Z) (row : TelemetryRow.t) (grouped : hourGroups) :
  NoDup (map fst grouped) -> NoDup (map fst (pushGroup key row grouped)).
Proof.
  intros ND. rewrite pushGroup_keys. destruct (existsb _ _) eqn:E; [exact ND|].
  apply NoDup_app; [exact ND | repeat constructor; intros [] |].
  intros k I [<- | []].
  apply existsb_eqb_In in I. congruence.
Qed.

Lemma pushGroup_In (key : Z) (row : TelemetryRow.t) (grouped : hourGroups)
    (k : Z) (group : list TelemetryRow.t) :
  NoDup (map fst grouped) ->
  In (k, group) (pushGroup key row grouped) ->
  (k <> key /\ In (k, group) grouped) \/
  (k = key /\ ((exists g0, In (key, g0) grouped /\ group = g0 ++ [row]) \/
               (~ In key (map fst grouped) /\ group = [row]))).
Proof.
  induction grouped as [|[k0 rs] g IH]; intros ND I.
  - cbn in I. destruct I as [E | []]. injection E as <- <-.
    right. split; [reflexivity|]. right. split; [intros [] | reflexivity].
  - cbn [map fst] in ND. inversion ND as [|? ? N0 ND']; subst.
    cbn [pushGroup] in I. destruct (Z.eqb_spec k0 key) as [-> | Ne].
    + destruct I as [E | I].
      * injection E as <- <-. right. split; [reflexivity|]. left.
        exists rs. split; [left; reflexivity | reflexivity].
      * left. split; [|right; exact I].
        intros ->. apply N0. apply (in_map fst) in I. exact I.
    + destruct I as [E | I].
      * injection E as <- <-. left. split; [exact Ne | left; reflexivity].
      * destruct (IH ND' I) as [[Nk Ik] | [-> [(g0 & I0 & ->) | [Nk ->]]]].
        -- left. split; [exact Nk | right; exact Ik].
        -- right. split; [reflexivity|]. left. exists g0.
           split; [right; exact I0 | reflexivity].
        -- right. split; [reflexivity|]. right. split; [|reflexivity].
           cbn [map fst]. intros [E | I']; [congruence | exact (Nk I')].
Qed.

Lemma inHour_key (h : Host) (r : TelemetryRow.t) (key k : Z) :
  hourKey h r = Some key -> inHour h k r = (key =? k).
Proof. intros E. unfold inHour. rewrite E. reflexivity. Qed.

Lemma pushGroup_buckets (h : Host) (seen : list TelemetryRow.t) (grouped : hourGroups)
    (key : Z) (row : TelemetryRow.t) :
  bucketsOf h seen grouped -> hourKey h row = Some key ->
  bucketsOf h (seen ++ [row]) (pushGroup key row grouped).
Proof.
  intros (ND & G & C) K. split; [|split].
  - apply pushGroup_NoDup, ND.
  - intros k group I. rewrite filter_app. cbn [filter].
    rewrite (inHour_key h row key k K).
    destruct (pushGroup_In _ _ _ _ _ ND I)
      as [[Nk Ik] | [-> [(g0 & I0 & ->) | [Nk ->]]]].
    + destruct (G k group Ik) as [E Ne].
      destruct (Z.eqb_spec key k) as [-> | _]; [congruence|].
      rewrite app_nil_r. auto.
    + destruct (G key g0 I0) as [E Ne]. rewrite Z.eqb_refl, <- E.
      split; [reflexivity|]. destruct g0; discriminate.
    + rewrite Z.eqb_refl.
      assert (E : filter (inHour h key) seen = []).
      { clear - C Nk. induction seen as [|r seen IH]; [reflexivity|].
        cbn [filter]. destruct (C r (or_introl eq_refl)) as (k & Hk & Ik).
        rewrite (inHour_key h r k key Hk).
        destruct (Z.eqb_spec k key) as [-> | _]; [contradiction|].
        apply IH. intros r' I'. apply C. right. exact I'. }
      rewrite E. split; [reflexivity | discriminate].
  - intros r I. apply in_app_iff in I. destruct I as [I | [<- | []]].
    + destruct (C r I) as (k & Hk & Ik). exists k. split; [exact Hk|].
      apply pushGroup_In_key. right. exact Ik.
    + exists key. split; [exact K|]. apply pushGroup_In_key. left. reflexivity.
Qed.

Lemma groupRows_buckets (h : Host) (rows : list TelemetryRow.t) :
  forall seen grouped result,
    bucketsOf h seen grouped -> groupRows h rows grouped = Some result ->
    bucketsOf h (seen ++ rows) result.
Proof.
  induction rows as [|r rows IH]; intros seen grouped result B G.
  - cbn in G. injection G as <-. rewrite app_nil_r. exact B.
  - cbn [groupRows] in G. destruct (hourKey h r) as [k|] eqn:K; [|discriminate].
    replace (seen ++ r :: rows) with ((seen ++ [r]) ++ rows)
      by (rewrite <- app_assoc; reflexivity).
    eapply IH; [|exact G]. apply pushGroup_buckets; assumption.
Qed.

Lemma groupRows_from_empty (h : Host) (rows : list TelemetryRow.t) (result : hourGroups) :
  groupRows h rows [] = Some result -> bucketsOf h rows result.
Proof.
  intros G. apply (groupRows_buckets h rows [] [] result); [|exact G].
  split; [constructor|]. split; [intros k g [] | intros r []].
Qed.

(** X10.  Every record summarises exactly the readings of its hour, in the
    order given: it is built from the readings whose timestamp, with
    minutes and below zeroed, is the record's; and every reading is
    summarised by the record of its hour. *)
Theorem record_summarises_the_readings_of_its_hour
    (h : Host) (rows : list TelemetryRow.t) (recs : list HourlyData.t) :
  aggregateToHourly h rows = Some recs ->
  (forall rec, In rec recs ->
     exists key,
       HourlyData.timestamp rec = DateOf key /\
       filter (inHour h key) rows <> [] /\
       rec = hourlyRecord h key (filter (inHour h key) rows)) /\
  (forall r, In r rows ->
     exists rec, In rec recs /\
       HourlyData.timestamp rec = setMinutes0 h (TelemetryRow.timestamp r)).
Proof.
  unfold aggregateToHourly. destruct (groupRows h rows []) as [g|] eqn:G; [|discriminate].
  intros E. injection E as <-.
  destruct (groupRows_from_empty h rows g G) as (ND & Gr & C).
  split.
  - intros rec I.
    apply (Permutation_in _ (sortBy_perm byHour _)) in I.
    apply in_map_iff in I. destruct I as ([k grp] & <- & I). cbn [fst snd].
    destruct (Gr k grp I) as [E Ne]. subst grp.
    exists k. split; [reflexivity|]. split; [exact Ne | reflexivity].
  - intros r I. destruct (C r I) as (k & K & Ik).
    apply in_map_iff in Ik. destruct Ik as ([k' grp] & Ek & Ik). cbn [fst] in Ek. subst k'.
    exists (hourlyRecord h k grp). split.
    + apply (Permutation_in _ (Permutation_sym (sortBy_perm byHour _))).
      apply in_map_iff. exists (k, grp). split; [reflexivity | exact Ik].
    + cbn [hourlyRecord HourlyData.timestamp]. unfold hourKey in K.
      destruct (setMinutes0 h (TelemetryRow.timestamp r)); [discriminate|].
      cbn in K. congruence.
Qed.

Lemma record_summarises_the_readings_of_its_hour_witness :
  exists rec, In rec morningRecords /\
    HourlyData.timestamp rec = DateOf 1704096000000.
Proof.
  destruct (record_summarises_the_readings_of_its_hour (ptHost 0) morningReadings
              morningRecords) as [_ C].
  - vm_compute. reflexivity.
  - destruct (C (TelemetryRow.mk (DateOf 1704096900000) 0.1%float 0.004%float 0%float))
      as (rec & I & E).
    + vm_compute. right. left. reflexivity.
    + exists rec. split; [exact I|]. rewrite E. vm_compute. reflexivity.
Defined.

Lemma byHour_key (x y : HourlyData.t) :
  validRecord x -> validRecord y -> byHour x y = Some (recordTime x - recordTime y).
Proof.
  unfold validRecord, byHour, timeDiff, recordTime.
  destruct (HourlyData.timestamp x), (HourlyData.timestamp y); cbn;
    try discriminate; reflexivity.
Qed.

Lemma pushGroup_length (key : Z) (row : TelemetryRow.t) (grouped : hourGroups) :
  (List.length (pushGroup key row grouped) <= S (List.length grouped))%nat.
Proof.
  induction grouped as [|[k rs] g IH]; cbn [pushGroup List.length]; [lia|].
  destruct (k =? key); cbn [List.length]; lia.
Qed.

Lemma groupRows_length (h : Host) (rows : list TelemetryRow.t) :
  forall grouped result,
    groupRows h rows grouped = Some result ->
    (List.length result <= List.length grouped + List.length rows)%nat.
Proof.
  induction rows as [|r rows IH]; intros grouped result G; cbn [groupRows] in G.
  - injection G as <-. lia.
  - destruct (hourKey h r) as [k|]; [|discriminate].
    apply IH in G. pose proof (pushGroup_length k r grouped). cbn [List.length]. lia.
Qed.

(** X11.  The records come out in strictly increasing time order, each at the
    start of an hour of local time: no hour has two records, and there
    are at most as many records as readings. *)
Theorem records_strictly_increasing_on_the_hour
    (h : Host) (rows : list TelemetryRow.t) (recs : list HourlyData.t) :
  aggregateToHourly h rows = Some recs ->
  StronglySorted hourBefore recs /\
  Forall (fun rec => hourAligned h (HourlyData.timestamp rec)) recs /\
  (List.length recs <= List.length rows)%nat.
Proof.
  unfold aggregateToHourly. destruct (groupRows h rows []) as [g|] eqn:G; [|discriminate].
  intros E. injection E as <-.
  destruct (groupRows_from_empty h rows g G) as (ND & Gr & C).
  set (raw := map (fun kg => hourlyRecord h (fst kg) (snd kg)) g).
  assert (V : Forall validRecord raw).
  { apply Forall_forall. intros rec I. apply in_map_iff in I.
    destruct I as (kg & <- & _). reflexivity. }
  assert (K : map recordTime raw = map fst g).
  { unfold raw. rewrite map_map. apply map_ext. intros kg. reflexivity. }
  pose proof (sortBy_perm byHour raw) as P.
  split; [|split].
  - assert (S : StronglySorted (fun a b => recordTime a < recordTime b)
                  (sortBy byHour raw)).
    { apply sorted_strict.
      - apply (sortBy_sorted byHour recordTime validRecord byHour_key). exact V.
      - apply (Permutation_NoDup (l := map recordTime raw)).
        + apply Permutation_map, Permutation_sym, P.
        + rewrite K. exact ND. }
    pose proof (sortBy_Forall byHour validRecord raw V) as V'.
    clear - S V'. induction S as [|a l S IH F]; [constructor|].
    inversion V' as [|? ? Va Vl]; subst. constructor; [apply IH, Vl|].
    rewrite Forall_forall in F, Vl |- *. intros b Ib.
    specialize (F b Ib). specialize (Vl b Ib).
    unfold validRecord, recordTime, hourBefore in *.
    destruct (HourlyData.timestamp a) as [|x], (HourlyData.timestamp b) as [|y];
      try discriminate.
    exists x, y. auto.
  - apply sortBy_Forall. apply Forall_forall. intros rec I.
    apply in_map_iff in I. destruct I as ([k grp] & <- & I). cbn [fst snd].
    destruct (Gr k grp I) as [E Ne].
    destruct grp as [|r grp]; [congruence|].
    assert (Ir : In r (filter (inHour h k) rows)) by (rewrite <- E; left; reflexivity).
    apply filter_In in Ir. destruct Ir as [_ Ir]. unfold inHour in Ir.
    destruct (hourKey h r) as [k'|] eqn:Hk; [|discriminate].
    apply Z.eqb_eq in Ir. subst k'.
    apply hourKey_spec in Hk. destruct Hk as (t & Et & Ek & B).
    exists k. split; [reflexivity|]. split; [exact B|].
    unfold LocalTime in *. rewrite Ek.
    replace (msPerHour * ((t + LocalTZA h) / msPerHour) - LocalTZA h + LocalTZA h)
      with ((t + LocalTZA h) / msPerHour * msPerHour) by lia.
    apply Z_mod_mult.
  - rewrite sortBy_length. unfold raw. rewrite length_map.
    apply (groupRows_length h rows [] g G).
Qed.

Lemma records_strictly_increasing_on_the_hour_witness :
  StronglySorted hourBefore morningRecords /\
  Forall (fun rec => hourAligned (ptHost 0) (HourlyData.timestamp rec)) morningRecords /\
  (List.length morningRecords <= List.length morningReadings)%nat.
Proof.
  apply records_strictly_increasing_on_the_hour. vm_compute. reflexivity.
Defined.

Lemma records_nonempty (h : Host) (rows : list TelemetryRow.t) :
  aggregateToHourly h rows = Some [] -> rows = [].
Proof.
  unfold aggregateToHourly. destruct (groupRows h rows []) as [g|] eqn:G; [|discriminate].
  intros E. injection E as E.
  destruct (groupRows_from_empty h rows g G) as (_ & _ & C).
  destruct rows as [|r rows]; [reflexivity|]. exfalso.
  destruct (C r (or_introl eq_refl)) as (k & _ & I).
  apply (f_equal (@List.length _)) in E. rewrite sortBy_length, length_map in E.
  destruct g; [destruct I | discriminate].
Qed.

(** X12.  What was read from the files always aggregates: the aggregation of
    the merged readings returns (it does not throw), and gives at least
    one record when there is at least one reading. *)
Theorem imported_readings_always_aggregate
    (h : Host) (files : list grid) (mapping : ColumnMapping) :
  HostOK h ->
  exists recs,
    aggregateToHourly h (fst (parseExcelFiles h files mapping)) = Some recs /\
    (fst (parseExcelFiles h files mapping) <> [] -> recs <> []).
Proof.
  intros OK.
  set (data := fst (parseExcelFiles h files mapping)).
  assert (R : Forall (fun r => exists t, TelemetryRow.timestamp r = DateOf t /\
                                         0 <= t <= maxTime /\
                                         1990 < YearFromTime (LocalTime h t)) data).
  { unfold data, parseExcelFiles.
    destruct (fileLoop h files mapping 0 [] None) as [a c] eqn:F. cbn [fst].
    apply sortBy_Forall. change a with (fst (a, c)). rewrite <- F, fileLoop_concat.
    cbn [app]. apply Forall_flat_map. apply Forall_forall. intros f _.
    unfold extractFile.
    generalize (Z.to_nat (Z.of_nat (List.length f) - dateRow mapping)) as n.
    generalize (dateRow mapping) as i.
    intros i n. revert i. induction n as [|n IH]; intros i; [constructor|].
    cbn [rowLoop]. rewrite rowLoop_app. apply Forall_app. split; [|apply IH].
    unfold extractRow. destruct (rowAt f i) as [[|c0 row]|]; try constructor.
    destruct (parseDateTime h _ _) as [d|] eqn:P; [|constructor].
    cbn [app]. constructor; [|constructor]. cbn [TelemetryRow.timestamp].
    destruct (parseDateTime_whole_minute h _ _ _ OK P) as (t & -> & B & _ & Y).
    exists t. auto. }
  destruct (aggregateToHourly h data) as [recs|] eqn:A.
  - exists recs. split; [reflexivity|]. intros Ne ->.
    apply records_nonempty in A. apply Ne, A.
  - exfalso. unfold aggregateToHourly in A.
    destruct (groupRows h data []) as [g|] eqn:G; [discriminate|].
    apply groupRows_none in G. destruct G as (r & I & N).
    rewrite Forall_forall in R. destruct (R r I) as (t & E & B & Y).
    apply year_gate in Y. pose proof (tza_bounded h OK) as T.
    assert (K : exists k, hourKey h r = Some k).
    { eexists. apply hourKey_spec. exists t. split; [exact E|].
      split; [reflexivity|]. unfold LocalTime, msPerHour, msPerDay, maxTime in *. dlia. }
    destruct K as (k & K). congruence.
Qed.

Lemma imported_readings_always_aggregate_witness :
  exists recs,
    aggregateToHourly (ptHost 0)
      (fst (parseExcelFiles (ptHost 0) [morningSheet; overlapSheet] defaultMapping))
    = Some recs /\
    (fst (parseExcelFiles (ptHost 0) [morningSheet; overlapSheet] defaultMapping) <> [] ->
     recs <> []).
Proof.
  apply imported_readings_always_aggregate. apply ptHost_ok; reflexivity.
Defined.
(** ** The statistics of an hour *)

Lemma single_between (x : number) :
  isNaN x = false -> numLe x (average [x]) /\ numLe (average [x]) x.
Proof.
  intros N. destruct (average_single x) as [-> | [-> ->]].
  - split; apply numLe_refl; exact N.
  - split; reflexivity.
Qed.

Lemma isNaN_add_l (a b : number) : isNaN a = true -> isNaN (a + b)%float = true.
Proof.
  rewrite !isNaN_spec, add_spec. intros ->. reflexivity.
Qed.

Lemma isNaN_add_r (a b : number) : isNaN b = true -> isNaN (a + b)%float = true.
Proof.
  rewrite !isNaN_spec, add_spec. intros ->.
  destruct (Prim2SF a) as [s|s| |s m e]; reflexivity.
Qed.

Lemma isNaN_div_l (a b : number) : isNaN a = true -> isNaN (a / b)%float = true.
Proof.
  rewrite !isNaN_spec, div_spec. intros ->. reflexivity.
Qed.

Lemma sum_NaN (xs : list number) :
  forall acc, isNaN acc = true \/ existsb isNaN xs = true ->
  isNaN (fold_left (fun a b => (a + b)%float) xs acc) = true.
Proof.
  induction xs as [|x xs IH]; intros acc H; cbn [fold_left].
  - destruct H as [H|H]; [exact H | discriminate].
  - apply IH. cbn [existsb] in H.
    destruct H as [H|H]; [left; apply isNaN_add_l, H|].
    apply orb_true_iff in H. destruct H as [H|H]; [left; apply isNaN_add_r, H | right; exact H].
Qed.

Lemma statistics_hold (xs : list number) :
  xs <> [] -> statisticsOf xs (average xs) (Math_max xs) (Math_min xs).
Proof.
  intros Hne. unfold statisticsOf.
  split; [reflexivity|]. split; [reflexivity|]. split; [reflexivity|].
  split; [|split; [|split]].
  - intros N. split; [|split].
    + unfold average, sum. apply isNaN_div_l, sum_NaN. right. exact N.
    + unfold Math_max. rewrite N. reflexivity.
    + unfold Math_min. rewrite N. reflexivity.
  - intros N.
    pose proof (Math_max_attained xs Hne N) as Imax.
    pose proof (Math_min_attained xs Hne N) as Imin.
    assert (U : forall x, In x xs -> numLe x (Math_max xs)).
    { unfold Math_max. rewrite N.
      apply (fold_maxStep_bounds xs neg_infinity eq_refl N). }
    assert (L : forall x, In x xs -> numLe (Math_min xs) x).
    { unfold Math_min. rewrite N.
      apply (fold_minStep_bounds xs infinity eq_refl N). }
    split; [exact Imax|]. split; [exact Imin|]. split.
    + intros x I. split; [apply L | apply U]; exact I.
    + apply Math_min_le_max; assumption.
  - intros L N. destruct xs as [|x [|y ys]]; try discriminate.
    rewrite Math_min_single, Math_max_single.
    cbn [existsb] in N. rewrite orb_false_r in N.
    apply single_between. exact N.
  - intros L Fin Fs. destruct xs as [|a [|b [|c r]]]; try discriminate.
    cbn [forallb] in Fin. rewrite andb_true_r in Fin.
    apply andb_prop in Fin. destruct Fin as [Fa Fb].
    assert (N : existsb isNaN [a; b] = false).
    { cbn [existsb]. rewrite (isFinite_notNaN a Fa), (isFinite_notNaN b Fb). reflexivity. }
    pose proof (Math_max_attained [a; b] Hne N) as Imax.
    pose proof (Math_min_attained [a; b] Hne N) as Imin.
    assert (U : forall x, In x [a; b] -> numLe x (Math_max [a; b])).
    { unfold Math_max. rewrite N.
      apply (fold_maxStep_bounds [a; b] neg_infinity eq_refl N). }
    assert (Lw : forall x, In x [a; b] -> numLe (Math_min [a; b]) x).
    { unfold Math_min. rewrite N.
      apply (fold_minStep_bounds [a; b] infinity eq_refl N). }
    assert (Fmax : isFinite (Math_max [a; b]) = true)
      by (destruct Imax as [<- | [<- | []]]; assumption).
    assert (Fmin : isFinite (Math_min [a; b]) = true)
      by (destruct Imin as [<- | [<- | []]]; assumption).
    apply mean_of_two_between; try assumption;
      first [apply Lw | apply U]; cbn; auto.
Qed.

(** C2, as amended.  Every record stands for an hour and summarises the
    readings of that hour, all of them and in the order given (there is
    at least one).  For each quantity, its average is the binary64 sum
    of their values from 0 in reading order, divided by their count.
    With a NaN among the values the three statistics are NaN.  Without
    one, the maximum and the minimum are values of the hour that bound
    every value of the hour, so min <= max; and min <= avg <= max when
    the hour has a single reading, and when it has two readings with
    finite values whose sum does not overflow. *)
Theorem record_statistics (h : Host) (rows : list TelemetryRow.t)
    (recs : list HourlyData.t) (rec : HourlyData.t) :
  aggregateToHourly h rows = Some recs ->
  In rec recs ->
  exists key,
    HourlyData.timestamp rec = DateOf key /\
    let group := filter (inHour h key) rows in
    group <> [] /\
    statisticsOf (map TelemetryRow.activePower group)
      (HourlyData.activeAvg rec) (HourlyData.activeMax rec) (HourlyData.activeMin rec) /\
    statisticsOf (map TelemetryRow.inductivePower group)
      (HourlyData.inductiveAvg rec) (HourlyData.inductiveMax rec)
      (HourlyData.inductiveMin rec) /\
    statisticsOf (map TelemetryRow.capacitivePower group)
      (HourlyData.capacitiveAvg rec) (HourlyData.capacitiveMax rec)
      (HourlyData.capacitiveMin rec).
Proof.
  unfold aggregateToHourly. destruct (groupRows h rows []) as [g|] eqn:G; [|discriminate].
  intros E I. injection E as <-.
  destruct (groupRows_from_empty h rows g G) as (_ & Gr & _).
  apply (Permutation_in _ (sortBy_perm byHour _)) in I.
  apply in_map_iff in I. destruct I as ([k grp] & <- & I). cbn [fst snd].
  destruct (Gr k grp I) as [E Ne]. subst grp.
  exists k. split; [reflexivity|]. cbv zeta. split; [exact Ne|].
  assert (M : forall f : TelemetryRow.t -> number,
              map f (filter (inHour h k) rows) <> []).
  { intros f. destruct (filter (inHour h k) rows); [congruence | discriminate]. }
  cbn [hourlyRecord HourlyData.activeAvg HourlyData.activeMax HourlyData.activeMin
    HourlyData.inductiveAvg HourlyData.inductiveMax HourlyData.inductiveMin
    HourlyData.capacitiveAvg HourlyData.capacitiveMax HourlyData.capacitiveMin].
  split; [|split]; apply statistics_hold, M.
Qed.

Lemma record_statistics_witness :
  (In (HourlyData.activeMax nineOClock)
      (map TelemetryRow.activePower
         (filter (inHour (ptHost 0) 1704099600000) morningReadings)) /\
   numLe (HourlyData.activeMin nineOClock) (HourlyData.activeAvg nineOClock) /\
   numLe (HourlyData.activeAvg nineOClock) (HourlyData.activeMax nineOClock)) /\
  (numLe (HourlyData.activeMin tenOClock) (HourlyData.activeAvg tenOClock) /\
   numLe (HourlyData.activeAvg tenOClock) (HourlyData.activeMax tenOClock)).
Proof.
  split.
  - destruct (record_statistics (ptHost 0) morningReadings morningRecords nineOClock)
      as (key & T & Ne & S & _).
    + vm_compute. reflexivity.
    + vm_compute. right. left. reflexivity.
    + injection T as <-.
      destruct S as (_ & _ & _ & _ & Ex & One & _).
      destruct (Ex eq_refl) as (Imax & _).
      destruct (One eq_refl eq_refl) as (L & U).
      split; [exact Imax | split; [exact L | exact U]].
  - destruct (record_statistics (ptHost 0) tenOClockReadings [tenOClock] tenOClock)
      as (key & T & Ne & S & _).
    + vm_compute. reflexivity.
    + left. reflexivity.
    + injection T as <-.
      destruct S as (_ & _ & _ & _ & _ & _ & Two).
      exact (Two eq_refl eq_refl eq_refl).
Defined.

(** C2, as the specification states it, fails: three readings of 0.1 in
    one hour have the mean 0.10000000000000002, above their maximum
    0.1. *)
Lemma mean_above_maximum :
  exists rec rest,
    aggregateToHourly (ptHost 0) morningReadings = Some (rec :: rest) /\
    HourlyData.activeMax rec = 0.1%float /\
    HourlyData.activeAvg rec = 0.10000000000000002%float /\
    (HourlyData.activeAvg rec <=? HourlyData.activeMax rec)%float = false.
Proof.
  eexists. eexists. split; [vm_compute; reflexivity|].
  repeat split.
Qed.

(** The sum of an hour can also overflow: two readings of 1e308 have
    the mean infinity. *)
Lemma mean_overflows :
  aggregateToHourly (ptHost 0)
    [TelemetryRow.mk (DateOf 1704096000000) 1e308%float 0%float 0%float;
     TelemetryRow.mk (DateOf 1704096900000) 1e308%float 0%float 0%float]
  = Some [hourlyRecord (ptHost 0) 1704096000000
            [TelemetryRow.mk (DateOf 1704096000000) 1e308%float 0%float 0%float;
             TelemetryRow.mk (DateOf 1704096900000) 1e308%float 0%float 0%float]] /\
  average [1e308%float; 1e308%float] = infinity /\
  Math_max [1e308%float; 1e308%float] = 1e308%float.
Proof. repeat split. Qed.

(** ** More on the export *)

Lemma pushIf_length (c : bool) (x : string) (arr : list string) :
  List.length (pushIf c x arr) = (List.length arr + if c then 1 else 0)%nat.
Proof. destruct c; cbn [pushIf]; [rewrite length_app; reflexivity | lia]. Qed.

(** X13.  Every exported line has as many cells as the header line: one for
    the period (two, date and hour, for an hourly export with the date
    and the time split) and one per selected quantity.  An hourly export
    has one line per record, and without records only the header line is
    written. *)
Theorem every_line_has_the_width_of_the_header
    (h : Host) (data : list HourlyData.t) (config : ExportConfig) :
  List.length (headers config)
  = ((if splitDateTime config && isHourly config then 2 else 1)
     + selectedColumns config)%nat /\
  Forall (fun row => List.length row = List.length (headers config))
         (exportRows h data config) /\
  (isHourly config = true ->
   List.length (exportRows h data config) = List.length data) /\
  generateCSV h [] config = (BOM ++ join ";" (headers config))%string.
Proof.
  split; [|split; [|split]].
  - unfold headers, selectedColumns. rewrite !pushIf_length.
    destruct (splitDateTime config); cbn [andb].
    + rewrite pushIf_length. cbn [List.length]. destruct (isHourly config); lia.
    + cbn [List.length]. lia.
  - unfold exportRows. apply Forall_forall. intros row I.
    apply in_map_iff in I. destruct I as (d & <- & _).
    unfold buildRow, headers. rewrite !pushIf_length.
    destruct (splitDateTime config); [rewrite !pushIf_length|]; reflexivity.
  - intros H. unfold exportRows, processData, isHourly in *.
    destruct (resolution config); try discriminate. rewrite !length_map. reflexivity.
  - unfold generateCSV, exportRows, processData.
    destruct (resolution config); reflexivity.
Qed.

Lemma addToGroup_keys (key : string) (ts : Date) (d : HourlyData.t)
    (grouped : periodGroups) :
  map fst (addToGroup key ts d grouped)
  = if existsb (String.eqb key) (map fst grouped) then map fst grouped
    else map fst grouped ++ [key].
Proof.
  induction grouped as [|[k g] rest IH]; [reflexivity|].
  cbn [addToGroup map fst existsb]. rewrite (String.eqb_sym key k).
  destruct (String.eqb k key); cbn [orb map fst]; [reflexivity|].
  rewrite IH. destruct (existsb _ _); reflexivity.
Qed.

Lemma groupPeriods_keys_from (h : Host) (res : Resolution) (data : list HourlyData.t) :
  forall grouped,
    map fst (fold_left (fun grouped d =>
                          let (key, ts) := periodKey h res d in
                          addToGroup key ts d grouped) data grouped)
    = fold_left (fun acc k => if existsb (String.eqb k) acc then acc else acc ++ [k])
        (map (periodLabel h res) data) (map fst grouped).
Proof.
  induction data as [|d data IH]; intros grouped; [reflexivity|].
  cbn [fold_left map]. rewrite IH. f_equal.
  unfold periodLabel. destruct (periodKey h res d) as [key ts]. cbn [fst].
  apply addToGroup_keys.
Qed.

Lemma groupPeriods_keys (h : Host) (res : Resolution) (data : list HourlyData.t) :
  map fst (groupPeriods h res data) = firstSeen (map (periodLabel h res) data).
Proof. apply (groupPeriods_keys_from h res data []). Qed.

Lemma existsb_string_In (key : string) (l : list string) :
  existsb (String.eqb key) l = true <-> In key l.
Proof.
  rewrite existsb_exists. split.
  - intros (x & I & E). apply String.eqb_eq in E. subst. exact I.
  - intros I. exists key. split; [exact I | apply String.eqb_refl].
Qed.

Lemma firstSeen_from (labels : list string) :
  forall acc,
    NoDup acc ->
    let out := fold_left (fun acc k => if existsb (String.eqb k) acc then acc
                                       else acc ++ [k]) labels acc in
    NoDup out /\ (forall k, In k out <-> In k acc \/ In k labels) /\
    (List.length out <= List.length acc + List.length labels)%nat.
Proof.
  induction labels as [|l labels IH]; intros acc ND; cbn [fold_left].
  - split; [exact ND|]. split; [intros k; cbn; tauto | lia].
  - destruct (existsb (String.eqb l) acc) eqn:E.
    + destruct (IH acc ND) as (N & I & L). split; [exact N|]. split.
      * intros k. rewrite I. cbn [In]. apply existsb_string_In in E.
        split; [tauto|]. intros [H | [<- | H]]; auto.
      * cbn [List.length]. lia.
    + assert (ND' : NoDup (acc ++ [l])).
      { apply NoDup_app; [exact ND | repeat constructor; intros [] |].
        intros k Ik [<- | []]. apply existsb_string_In in Ik. congruence. }
      destruct (IH (acc ++ [l]) ND') as (N & I & L). split; [exact N|]. split.
      * intros k. rewrite I, in_app_iff. cbn [In]. tauto.
      * rewrite length_app in L. cbn [List.length] in *. lia.
Qed.

Lemma buildRow_first_cell (h : Host) (config : ExportConfig) (d : Processed.t) :
  hd "" (buildRow h config d)
  = if splitDateTime config then Processed.date d else Processed.dateTime d.
Proof.
  unfold buildRow.
  assert (P : forall c x arr, arr <> [] -> hd "" (pushIf c x arr) = hd "" arr).
  { intros c x [|a arr] Ne; [congruence|]. destruct c; reflexivity. }
  assert (Q : forall c x arr, arr <> [] -> pushIf c x arr <> []).
  { intros c x [|a arr] Ne; [congruence|]. destruct c; discriminate. }
  destruct (splitDateTime config).
  - rewrite !P; try reflexivity; repeat apply Q; discriminate.
  - rewrite !P; try reflexivity; repeat apply Q; discriminate.
Qed.

(** X14.  A daily or monthly export has one line per distinct day or month
    label, in order of first appearance among the records: no label
    twice, none missing, and never more lines than records. *)
Theorem one_line_per_period_in_order_of_first_appearance
    (h : Host) (data : list HourlyData.t) (config : ExportConfig) :
  isHourly config = false ->
  let labels := map (periodLabel h (resolution config)) data in
  let firstCells := map (hd "") (exportRows h data config) in
  firstCells = firstSeen labels /\
  NoDup firstCells /\
  (forall k, In k firstCells <-> In k labels) /\
  (List.length (exportRows h data config) <= List.length data)%nat.
Proof.
  intros NH labels firstCells.
  assert (E : firstCells = firstSeen labels).
  { unfold firstCells, labels, exportRows. rewrite map_map.
    rewrite <- groupPeriods_keys. unfold processData, isHourly in *.
    destruct (resolution config) eqn:R; try discriminate;
      rewrite map_map; apply map_ext; intros [k g];
      rewrite buildRow_first_cell; cbn; destruct (splitDateTime config); reflexivity. }
  pose proof (firstSeen_from labels [] (NoDup_nil _)) as FS. cbv zeta in FS.
  change (fold_left _ labels []) with (firstSeen labels) in FS.
  destruct FS as (N & I & L).
  split; [exact E|]. rewrite E. split; [exact N|]. split.
  - intros k. rewrite I. cbn [In]. tauto.
  - assert (Len : List.length (exportRows h data config)
                  = List.length (firstSeen labels))
      by (rewrite <- E; unfold firstCells; symmetry; apply length_map).
    rewrite Len. replace (List.length data) with (List.length labels)
      by (unfold labels; apply length_map).
    cbn [List.length] in L. lia.
Qed.

Lemma one_line_per_period_in_order_of_first_appearance_witness :
  map (hd "") (exportRows (ptHost 0) morningRecords (exportAll daily)) = ["01/01/2024"].
Proof.
  destruct (one_line_per_period_in_order_of_first_appearance (ptHost 0) morningRecords
              (exportAll daily) eq_refl) as [E _].
  rewrite E. vm_compute. reflexivity.
Defined.

Lemma allDigits_substring (s : string) :
  forall n m, allDigits s = true -> allDigits (substring n m s) = true.
Proof.
  induction s as [|c s IH]; intros n m D.
  - destruct n, m; reflexivity.
  - rewrite allDigits_cons in D. apply andb_true_iff in D. destruct D as [Dc Ds].
    destruct n as [|n]; cbn [substring].
    + destruct m as [|m]; [reflexivity|].
      rewrite allDigits_cons, Dc. apply IH, Ds.
    + apply IH, Ds.
Qed.

Lemma length_substring (s : string) :
  forall n m, (n + m <= String.length s)%nat -> String.length (substring n m s) = m.
Proof.
  induction s as [|c s IH]; intros n m L; cbn [String.length] in L.
  - destruct n, m; try reflexivity; lia.
  - destruct n as [|n]; cbn [substring].
    + destruct m as [|m]; [reflexivity|]. cbn [String.length]. rewrite IH; lia.
    + apply IH. lia.
Qed.

Lemma digit_is_no_dot (c : ascii) : isDigit c = true -> Ascii.eqb c "." = false.
Proof.
  destruct (Ascii.eqb_spec c ".") as [-> | _]; [|reflexivity]. cbv. discriminate.
Qed.

Lemma replaceFirst_after_digits (a rest : string) :
  allDigits a = true ->
  replaceFirst "." "," (a ++ String "." rest) = (a ++ String "," rest)%string.
Proof.
  induction a as [|c a IH]; intros D; [reflexivity|].
  rewrite allDigits_cons in D. apply andb_true_iff in D. destruct D as [Dc Da].
  cbn [String.append replaceFirst]. rewrite (digit_is_no_dot c Dc), IH by exact Da.
  reflexivity.
Qed.

(** X15.  A finite value below 1e21 in size is exported as an optional minus
    sign, one or more digits, a comma and exactly two digits: the text
    holds no dot and no semicolon, so it cannot break the line into more
    cells. *)
Theorem exported_value_has_a_comma_and_two_decimals (h : Host) (x : number) :
  isFinite x = true ->
  (1e21 <=? abs x)%float = false ->
  exists (neg : bool) (a b : string),
    formatValue h x = ((if neg then "-" else "") ++ a ++ "," ++ b)%string /\
    a <> "" /\ allDigits a = true /\ allDigits b = true /\ String.length b = 2%nat.
Proof.
  intros F Small. unfold formatValue, toFixed2. unfold isFinite in F.
  destruct (Prim2SF x) as [z|i| |s m e] eqn:P; try discriminate.
  - exists false, "0", "00". repeat split; try reflexivity. discriminate.
  - rewrite Small.
    set (n := if 0 <=? e then Z.pos m * 2 ^ e * 100
              else (2 * (Z.pos m * 100) + 2 ^ (- e)) / (2 * 2 ^ (- e))).
    destruct (decimalDigits_digits n) as [D L].
    set (ds := match String.length (decimalDigits n) with
               | 1%nat => ("00" ++ decimalDigits n)%string
               | 2%nat => ("0" ++ decimalDigits n)%string
               | _ => decimalDigits n
               end).
    assert (Dds : allDigits ds = true /\ (3 <= String.length ds)%nat).
    { unfold ds. destruct (String.length (decimalDigits n)) as [|[|[|k]]] eqn:Len.
      - lia.
      - split; [rewrite allDigits_app, D; reflexivity|].
        cbn [String.append String.length]. lia.
      - split; [rewrite allDigits_app, D; reflexivity|].
        cbn [String.append String.length]. lia.
      - split; [exact D | lia]. }
    destruct Dds as [Dd Ld].
    exists s, (substring 0 (String.length ds - 2) ds),
           (substring (String.length ds - 2) 2 ds).
    split; [|split; [|split; [|split]]].
    + destruct s.
      * cbn [String.append replaceFirst]. change (Ascii.eqb "-" ".") with false.
        cbv iota. f_equal.
        apply (replaceFirst_after_digits _ (substring (String.length ds - 2) 2 ds)).
        apply allDigits_substring, Dd.
      * cbn [String.append].
        apply (replaceFirst_after_digits _ (substring (String.length ds - 2) 2 ds)).
        apply allDigits_substring, Dd.
    + intros E. apply (f_equal String.length) in E.
      rewrite length_substring in E by lia. cbn in E. lia.
    + apply allDigits_substring, Dd.
    + apply allDigits_substring, Dd.
    + apply length_substring. lia.
Qed.

Lemma exported_value_has_a_comma_and_two_decimals_witness :
  exists (neg : bool) (a b : string),
    formatValue (ptHost 0) (-1234.565)%float
    = ((if neg then "-" else "") ++ a ++ "," ++ b)%string /\
    a <> "" /\ allDigits a = true /\ allDigits b = true /\ String.length b = 2%nat.
Proof.
  apply exported_value_has_a_comma_and_two_decimals; reflexivity.
Defined.

(* ================================================================== *)
(** * The summary of the data for the analysis *)
(* ================================================================== *)

Section Peak.

Context {A : Type} (key : A -> number).

Let step (prev curr : A) : A :=
  if (key curr <? key prev)%float then prev else curr.

Lemma fold_peak (rest : list A) :
  forall (full pre post : list A) (c : A),
    full = pre ++ c :: post ++ rest ->
    (forall d, In d post -> (key d <? key c)%float = true) ->
    (existsb (fun d => isNaN (key d)) full = false ->
     forall d, In d pre -> numLe (key d) (key c)) ->
    exists pre' post',
      full = pre' ++ fold_left step rest c :: post' /\
      (forall d, In d post' -> (key d <? key (fold_left step rest c))%float = true) /\
      (existsb (fun d => isNaN (key d)) full = false ->
       forall d, In d pre' -> numLe (key d) (key (fold_left step rest c))).
Proof.
  induction rest as [|r rest IH]; intros full pre post c E Lt Le.
  - exists pre, post. rewrite app_nil_r in E. cbn [fold_left]. auto.
  - cbn [fold_left]. destruct (key r <? key c)%float eqn:C.
    + replace (step c r) with c by (unfold step; rewrite C; reflexivity).
      apply (IH full pre (post ++ [r]) c).
      * rewrite E, <- app_assoc. reflexivity.
      * intros d I. apply in_app_iff in I. destruct I as [I | [<- | []]]; auto.
      * exact Le.
    + replace (step c r) with r by (unfold step; rewrite C; reflexivity).
      apply (IH full (pre ++ c :: post) [] r).
      * rewrite E, <- app_assoc. reflexivity.
      * intros d [].
      * intros NN d I.
        assert (N : forall x, In x full -> isNaN (key x) = false).
        { intros x Ix. destruct (isNaN (key x)) eqn:Nx; [|reflexivity].
          assert (T : existsb (fun d => isNaN (key d)) full = true)
            by (apply existsb_exists; exists x; auto).
          congruence. }
        assert (Nc : isNaN (key c) = false)
          by (apply N; rewrite E; apply in_app_iff; right; left; reflexivity).
        assert (Nr : isNaN (key r) = false).
        { apply N. rewrite E. apply in_app_iff. right. right.
          apply in_app_iff. right. left. reflexivity. }
        assert (Lcr : numLe (key c) (key r)) by (apply not_ltb_numLe; assumption).
        apply in_app_iff in I. destruct I as [I | [<- | I]].
        -- eapply numLe_trans; [apply (Le NN d I) | exact Lcr].
        -- exact Lcr.
        -- eapply numLe_trans; [apply ltb_numLe, Lt, I | exact Lcr].
Qed.

End Peak.

(** X16.  The peak of the summary is taken without a starting value: with no
    record the function throws.  Otherwise the peak is a record of the
    list; every record after it has a strictly smaller maximum (of
    several records with the largest maximum the last is taken), and
    when no maximum is NaN no record before it has a larger one. *)
Theorem peak_is_the_last_record_of_largest_maximum
    (hourlyData : list HourlyData.t) :
  (maxActive hourlyData = None <-> hourlyData = []) /\
  forall peak, maxActive hourlyData = Some peak ->
    exists before after,
      hourlyData = before ++ peak :: after /\
      (forall d, In d after ->
         (HourlyData.activeMax d <? HourlyData.activeMax peak)%float = true) /\
      (existsb (fun d => isNaN (HourlyData.activeMax d)) hourlyData = false ->
       forall d, In d before ->
         numLe (HourlyData.activeMax d) (HourlyData.activeMax peak)).
Proof.
  split.
  - destruct hourlyData; cbn; split; congruence.
  - intros peak E. destruct hourlyData as [|x rest]; [discriminate|].
    cbn [maxActive reduce1] in E. injection E as <-.
    apply (fold_peak HourlyData.activeMax rest (x :: rest) [] [] x).
    + reflexivity.
    + intros d [].
    + intros _ d [].
Qed.

Lemma peak_is_the_last_record_of_largest_maximum_witness :
  exists before after,
    morningRecords = before ++ nth 1 morningRecords nineOClock :: after.
Proof.
  destruct (peak_is_the_last_record_of_largest_maximum morningRecords) as [_ P].
  destruct (P (nth 1 morningRecords nineOClock)) as (b & a & E & _).
  - vm_compute. reflexivity.
  - exists b, a. exact E.
Defined.

Lemma addMonthStat_sums (key : string) (d : HourlyData.t) (stats : monthlyStatsMap) :
  map monthSums (addMonthStat key d stats)
  = addToDay key (HourlyData.activeAvg d) (HourlyData.inductiveAvg d)
      (HourlyData.capacitiveAvg d) (map monthSums stats).
Proof.
  induction stats as [|[k s] rest IH]; [reflexivity|].
  cbn [addMonthStat map addToDay monthSums fst snd].
  destruct (String.eqb k key); [reflexivity|].
  cbn [map]. rewrite IH. reflexivity.
Qed.

Lemma monthlyStats_sums (h : Host) (data : list HourlyData.t) :
  forall stats,
    map monthSums
      (fold_left (fun stats d =>
                    addMonthStat (toLocaleMonthString h (HourlyData.timestamp d)) d stats)
                 data stats)
    = fold_left (fun acc d =>
                   addToDay (toLocaleMonthString h (HourlyData.timestamp d))
                     (HourlyData.activeAvg d) (HourlyData.inductiveAvg d)
                     (HourlyData.capacitiveAvg d) acc)
                data (map monthSums stats).
Proof.
  induction data as [|d data IH]; intros stats; [reflexivity|].
  cbn [fold_left]. rewrite IH, addMonthStat_sums. reflexivity.
Qed.

Lemma monthlyGroups_sums (h : Host) (data : list HourlyData.t) :
  forall grouped,
    map daySumsOfGroup
      (fold_left (fun grouped d =>
                    let (key, ts) := periodKey h monthly d in addToGroup key ts d grouped)
                 data grouped)
    = fold_left (fun acc d =>
                   addToDay (toLocaleMonthString h (HourlyData.timestamp d))
                     (HourlyData.activeAvg d) (HourlyData.inductiveAvg d)
                     (HourlyData.capacitiveAvg d) acc)
                data (map daySumsOfGroup grouped).
Proof.
  induction data as [|d data IH]; intros grouped; [reflexivity|].
  cbn [fold_left]. cbn [periodKey]. rewrite IH, addToGroup_sums. reflexivity.
Qed.

Lemma countOf_add (key k : string) (d : HourlyData.t) (stats : monthlyStatsMap) :
  countOf k (addMonthStat key d stats)
  = countOf k stats + (if String.eqb key k then 1 else 0).
Proof.
  induction stats as [|[k0 s] rest IH].
  - cbn [addMonthStat countOf]. destruct (String.eqb key k); reflexivity.
  - cbn [addMonthStat countOf]. destruct (String.eqb_spec k0 key) as [-> | Ne].
    + cbn [countOf addHour MonthStat.count]. destruct (String.eqb key k); lia.
    + cbn [countOf]. destruct (String.eqb_spec k0 k) as [-> | Nk].
      * destruct (String.eqb_spec key k) as [-> | _]; [congruence | lia].
      * exact IH.
Qed.

Lemma countOf_fold (h : Host) (k : string) (data : list HourlyData.t) :
  forall stats,
    countOf k
      (fold_left (fun stats d =>
                    addMonthStat (toLocaleMonthString h (HourlyData.timestamp d)) d stats)
                 data stats)
    = countOf k stats
      + Z.of_nat (List.length
          (filter (fun d => String.eqb (toLocaleMonthString h (HourlyData.timestamp d)) k)
                  data)).
Proof.
  induction data as [|d data IH]; intros stats; cbn [fold_left filter].
  - cbn. lia.
  - rewrite IH, countOf_add.
    destruct (String.eqb _ k); cbn [List.length]; lia.
Qed.

(** X17.  The monthly sums behind the summary are the values of a monthly
    export of the same records: the same months in the same order, with
    the same sum for each quantity.  The summary divides each by the
    number of hourly records of the month. *)
Theorem summary_months_are_the_monthly_export
    (h : Host) (data : list HourlyData.t) (sd : bool) (cols : ExportColumns) :
  map monthSums (monthlyStats h data)
  = map periodValues
      (processData h data {| resolution := monthly; splitDateTime := sd; columns := cols |})
  /\
  forall month,
    countOf month (monthlyStats h data)
    = Z.of_nat (List.length
        (filter (fun d => String.eqb (toLocaleMonthString h (HourlyData.timestamp d)) month)
                data)).
Proof.
  split.
  - unfold monthlyStats, processData. cbn [resolution]. rewrite map_map.
    unfold groupPeriods.
    transitivity (map daySumsOfGroup
      (fold_left (fun grouped d =>
                    let (key, ts) := periodKey h monthly d in addToGroup key ts d grouped)
                 data [])); [|apply map_ext; intros [k g]; reflexivity].
    rewrite monthlyStats_sums, monthlyGroups_sums. reflexivity.
  - intros month. unfold monthlyStats. rewrite countOf_fold. cbn [countOf]. lia.
Qed.

(* ================================================================== *)
(** * The dashboard *)
(* ================================================================== *)

(** ** Statistics *)

Lemma ltb_asym (x y : number) : (x <? y)%float = true -> (y <? x)%float = false.
Proof.
  rewrite !ltb_spec. unfold SFltb.
  rewrite (SFcompare_antisym (Prim2SF x) (Prim2SF y)).
  destruct (SFcompare (Prim2SF x) (Prim2SF y)) as [[]|]; simpl; congruence.
Qed.

Lemma ltb_notNaN (x y : number) :
  (x <? y)%float = true -> isNaN x = false /\ isNaN y = false.
Proof.
  rewrite ltb_spec. unfold SFltb. intros L.
  split; apply notNaN_spec; intros E; rewrite E in L.
  - discriminate.
  - destruct (Prim2SF x); discriminate.
Qed.

Lemma ltb_above_neg_infinity (x y : number) :
  (x <? y)%float = true -> (neg_infinity <? y)%float = true.
Proof.
  rewrite !ltb_spec. unfold SFltb.
  change (Prim2SF neg_infinity) with (S754_infinity true).
  destruct (Prim2SF x) as [sx|sx| |sx mx ex], (Prim2SF y) as [sy|sy| |sy my ey];
    cbn; try congruence;
    try (destruct sx; cbn; try congruence); try (destruct sy; cbn; congruence).
Qed.

Lemma is_zero_spec (x : number) :
  is_zero x = true -> exists s, Prim2SF x = S754_zero s.
Proof.
  unfold is_zero. rewrite eqb_spec. unfold SFeqb.
  change (Prim2SF zero) with (S754_zero false).
  destruct (Prim2SF x) as [s|s| |s m e]; cbn; try discriminate.
  - intros _. exists s. reflexivity.
  - destruct s; discriminate.
  - destruct s; discriminate.
Qed.

Lemma ltb_not_both_zero (x y : number) :
  (x <? y)%float = true -> is_zero x && is_zero y = false.
Proof.
  intros L. destruct (is_zero x) eqn:Zx; [|reflexivity].
  destruct (is_zero y) eqn:Zy; [|reflexivity]. exfalso.
  apply is_zero_spec in Zx, Zy. destruct Zx as [sx Ex], Zy as [sy Ey].
  rewrite ltb_spec in L. unfold SFltb in L. rewrite Ex, Ey in L. discriminate.
Qed.

Lemma Math_max_pair_keeps (hi x : number) :
  (x <? hi)%float = true -> Math_max [hi; x] = hi.
Proof.
  intros L. destruct (ltb_notNaN _ _ L) as [Nx Nh].
  unfold Math_max. cbn [existsb]. rewrite Nh, Nx. cbn [orb fold_left].
  assert (S1 : maxStep neg_infinity hi = hi).
  { unfold maxStep. replace (isNegZero neg_infinity) with false by reflexivity.
    rewrite andb_false_r, (ltb_above_neg_infinity _ _ L). reflexivity. }
  rewrite S1. unfold maxStep, isPosZero, isNegZero.
  pose proof (ltb_not_both_zero _ _ L) as Z.
  rewrite (ltb_asym _ _ L).
  assert (Cnd : is_zero x && negb (get_sign x) && (is_zero hi && get_sign hi) = false).
  { destruct (is_zero x), (is_zero hi); cbn [andb] in *; try discriminate;
      rewrite ?andb_false_r; reflexivity. }
  rewrite Cnd. reflexivity.
Qed.

Lemma pair_notNaN (a b : number) :
  isNaN a = false -> isNaN b = false -> existsb isNaN [a; b] = false.
Proof. intros Na Nb. cbn [existsb]. rewrite Na, Nb. reflexivity. Qed.

Lemma Math_max_pair_bounds (hi x : number) :
  isNaN hi = false -> isNaN x = false ->
  isNaN (Math_max [hi; x]) = false /\
  numLe hi (Math_max [hi; x]) /\ numLe x (Math_max [hi; x]).
Proof.
  intros Nh Nx. unfold Math_max. rewrite (pair_notNaN _ _ Nh Nx).
  destruct (fold_maxStep_bounds [hi; x] neg_infinity eq_refl (pair_notNaN _ _ Nh Nx))
    as (N & _ & B).
  split; [exact N|]. split; apply B; cbn; auto.
Qed.

Lemma Math_min_pair_bounds (lo x : number) :
  isNaN lo = false -> isNaN x = false ->
  isNaN (Math_min [lo; x]) = false /\
  numLe (Math_min [lo; x]) lo /\ numLe (Math_min [lo; x]) x.
Proof.
  intros Nl Nx. unfold Math_min. rewrite (pair_notNaN _ _ Nl Nx).
  destruct (fold_minStep_bounds [lo; x] infinity eq_refl (pair_notNaN _ _ Nl Nx))
    as (N & _ & B).
  split; [exact N|]. split; apply B; cbn; auto.
Qed.

(** The scan of one quantity, as [globalStats] runs it. *)
Lemma scan_max (xs : list number) :
  forall hi,
    let out := fold_left (fun m x => Math_max [m; x]) xs hi in
    (isNaN hi = false -> existsb isNaN xs = false ->
     isNaN out = false /\ numLe hi out /\ forall x, In x xs -> numLe x out) /\
    ((forall x, In x xs -> (x <? hi)%float = true) -> out = hi).
Proof.
  induction xs as [|x xs IH]; intros hi; cbn [fold_left].
  - split; [|reflexivity]. intros N _. split; [exact N|].
    split; [apply numLe_refl, N | intros x []].
  - destruct (IH (Math_max [hi; x])) as [B K]. split.
    + intros Nh NN. cbn [existsb] in NN. apply orb_false_iff in NN.
      destruct NN as [Nx Nxs].
      destruct (Math_max_pair_bounds hi x Nh Nx) as (N1 & L1 & L2).
      destruct (B N1 Nxs) as (N2 & L3 & L4).
      split; [exact N2|]. split; [eapply numLe_trans; eassumption|].
      intros y [<- | I]; [eapply numLe_trans; eassumption | apply L4, I].
    + intros All. rewrite (Math_max_pair_keeps hi x) in * by (apply All; left; reflexivity).
      apply K. intros y I. apply All. right. exact I.
Qed.

Lemma scan_min (xs : list number) :
  forall lo,
    isNaN lo = false -> existsb isNaN xs = false ->
    let out := fold_left (fun m x => Math_min [m; x]) xs lo in
    isNaN out = false /\ numLe out lo /\ forall x, In x xs -> numLe out x.
Proof.
  induction xs as [|x xs IH]; intros lo Nl NN; cbn [fold_left].
  - split; [exact Nl|]. split; [apply numLe_refl, Nl | intros x []].
  - cbn [existsb] in NN. apply orb_false_iff in NN. destruct NN as [Nx Nxs].
    destruct (Math_min_pair_bounds lo x Nl Nx) as (N1 & L1 & L2).
    destruct (IH (Math_min [lo; x]) N1 Nxs) as (N2 & L3 & L4).
    split; [exact N2|]. split; [eapply numLe_trans; eassumption|].
    intros y [<- | I]; [eapply numLe_trans; eassumption | apply L4, I].
Qed.

Lemma statStep_fold (mx mn av : HourlyData.t -> number) (data : list HourlyData.t) :
  forall s,
    let out := fold_left (fun s d => statStep s (mx d) (mn d) (av d)) data s in
    Stat.max out = fold_left (fun m x => Math_max [m; x]) (map mx data) (Stat.max s) /\
    Stat.min out = fold_left (fun m x => Math_min [m; x]) (map mn data) (Stat.min s) /\
    Stat.sum out = fold_left (fun a b => (a + b)%float) (map av data) (Stat.sum s).
Proof.
  induction data as [|d data IH]; intros s; cbn [fold_left map].
  - auto.
  - apply (IH (statStep s (mx d) (mn d) (av d))).
Qed.

Lemma globalStatOf_scan (mx mn av : HourlyData.t -> number) (data : list HourlyData.t) :
  globalStatOf (map mx data) (map mn data) (map av data)
    (setAvg (fold_left (fun s d => statStep s (mx d) (mn d) (av d)) data
               (Stat.mk 0%float infinity 0%float 0%float))
            (Z.of_nat (List.length data))).
Proof.
  destruct (statStep_fold mx mn av data (Stat.mk 0%float infinity 0%float 0%float))
    as (Emax & Emin & Esum).
  cbn [Stat.max Stat.min Stat.sum] in Emax, Emin, Esum.
  unfold globalStatOf, setAvg. cbn [Stat.max Stat.min Stat.sum Stat.avg].
  rewrite Emax, Emin, Esum, length_map.
  destruct (scan_max (map mx data) 0%float) as [B K].
  split; [|split; [|split; [|split]]].
  - intros NN. destruct (B eq_refl NN) as (_ & L & A). split; assumption.
  - exact K.
  - intros NN. apply (scan_min (map mn data) infinity eq_refl NN).
  - reflexivity.
  - reflexivity.
Qed.

Lemma globalStats_fold (data : list HourlyData.t) :
  forall stats,
    let out :=
      fold_left
        (fun stats d =>
           GlobalStats.mk
             (statStep (GlobalStats.active stats) (HourlyData.activeMax d)
                (HourlyData.activeMin d) (HourlyData.activeAvg d))
             (statStep (GlobalStats.inductive stats) (HourlyData.inductiveMax d)
                (HourlyData.inductiveMin d) (HourlyData.inductiveAvg d))
             (statStep (GlobalStats.capacitive stats) (HourlyData.capacitiveMax d)
                (HourlyData.capacitiveMin d) (HourlyData.capacitiveAvg d))
             (GlobalStats.count stats))
        data stats in
    GlobalStats.active out
    = fold_left (fun s d => statStep s (HourlyData.activeMax d) (HourlyData.activeMin d)
                              (HourlyData.activeAvg d)) data (GlobalStats.active stats) /\
    GlobalStats.inductive out
    = fold_left (fun s d => statStep s (HourlyData.inductiveMax d)
                              (HourlyData.inductiveMin d) (HourlyData.inductiveAvg d))
        data (GlobalStats.inductive stats) /\
    GlobalStats.capacitive out
    = fold_left (fun s d => statStep s (HourlyData.capacitiveMax d)
                              (HourlyData.capacitiveMin d) (HourlyData.capacitiveAvg d))
        data (GlobalStats.capacitive stats) /\
    GlobalStats.count out = GlobalStats.count stats.
Proof.
  induction data as [|d data IH]; intros stats; cbn [fold_left].
  - auto.
  - apply (IH (GlobalStats.mk _ _ _ _)).
Qed.

(** X18.  The global statistics are null without records.  Otherwise, for
    each quantity, the maximum is scanned from 0 and the minimum from
    infinity: the maximum is at least 0 and at least every hourly
    maximum, and it is 0 when every hourly maximum is negative; the
    minimum is at most every hourly minimum; the sum adds the hourly
    averages from 0 in order, and the average divides it by the number
    of records. *)
Theorem global_maximum_is_never_below_zero (data : list HourlyData.t) :
  (globalStats data = None <-> data = []) /\
  forall stats, globalStats data = Some stats ->
    GlobalStats.count stats = Z.of_nat (List.length data) /\
    globalStatOf (map HourlyData.activeMax data) (map HourlyData.activeMin data)
      (map HourlyData.activeAvg data) (GlobalStats.active stats) /\
    globalStatOf (map HourlyData.inductiveMax data) (map HourlyData.inductiveMin data)
      (map HourlyData.inductiveAvg data) (GlobalStats.inductive stats) /\
    globalStatOf (map HourlyData.capacitiveMax data) (map HourlyData.capacitiveMin data)
      (map HourlyData.capacitiveAvg data) (GlobalStats.capacitive stats).
Proof.
  split.
  - destruct data; cbn; split; congruence.
  - intros stats E. destruct data as [|d0 data0] eqn:D; [discriminate|].
    rewrite <- D in *. unfold globalStats in E. rewrite D in E at 1.
    injection E as <-.
    match goal with
    | |- context [fold_left ?f data ?init] =>
        destruct (globalStats_fold data init) as (Ea & Ei & Ec & En)
    end.
    cbn [GlobalStats.active GlobalStats.inductive GlobalStats.capacitive
         GlobalStats.count] in *.
    rewrite Ea, Ei, Ec, En.
    split; [reflexivity|]. split; [|split]; apply globalStatOf_scan.
Qed.

Lemma global_maximum_is_never_below_zero_witness :
  exists stats,
    globalStats
      [HourlyData.mk (DateOf 1704096000000) "01/01 08:00"
         (-2)%float (-1)%float (-3)%float 0%float 0%float 0%float 0%float 0%float 0%float]
    = Some stats /\
    Stat.max (GlobalStats.active stats) = 0%float.
Proof.
  destruct (global_maximum_is_never_below_zero
              [HourlyData.mk (DateOf 1704096000000) "01/01 08:00"
                 (-2)%float (-1)%float (-3)%float 0%float 0%float 0%float
                 0%float 0%float 0%float]) as [N P].
  destruct (globalStats _) as [stats|] eqn:E.
  - exists stats. split; [reflexivity|].
    destruct (P stats eq_refl) as (_ & G & _). unfold globalStatOf in G.
    destruct G as (_ & K & _). apply K.
    intros x [<- | []]. reflexivity.
  - exfalso. destruct N as [N _]. specialize (N eq_refl). discriminate N.
Defined.

(** ** The points of the chart *)

Lemma filterIndexed_count {A : Type} (f : nat) (l : list A) :
  (0 < f)%nat ->
  forall i,
    (List.length (filterIndexed (fun _ i => (i mod f =? 0)%nat) i l) + (i + f - 1) / f
     = (i + List.length l + f - 1) / f)%nat.
Proof.
  intros Hf. induction l as [|x l IH]; intros i; cbn [filterIndexed List.length].
  - rewrite Nat.add_0_r. reflexivity.
  - specialize (IH (S i)).
    assert (D := Nat.div_mod_eq i f).
    assert (M := Nat.mod_upper_bound i f ltac:(lia)).
    destruct (Nat.eqb_spec (i mod f) 0) as [Z | NZ]; cbn [List.length].
    + assert (E1 : ((i + f - 1) / f = i / f)%nat).
      { symmetry. apply (Nat.div_unique _ _ _ (f - 1)); lia. }
      assert (E2 : ((S i + f - 1) / f = i / f + 1)%nat).
      { symmetry. apply (Nat.div_unique _ _ _ 0); lia. }
      replace (i + S (List.length l) + f - 1)%nat with (S i + List.length l + f - 1)%nat by lia.
      lia.
    + assert (E1 : ((i + f - 1) / f = i / f + 1)%nat).
      { symmetry. apply (Nat.div_unique _ _ _ (i mod f - 1)); lia. }
      assert (E2 : ((S i + f - 1) / f = i / f + 1)%nat).
      { symmetry. apply (Nat.div_unique _ _ _ (i mod f)); lia. }
      replace (i + S (List.length l) + f - 1)%nat with (S i + List.length l + f - 1)%nat by lia.
      lia.
Qed.

Lemma filterIndexed_nth {A : Type} (f : nat) (l : list A) :
  (0 < f)%nat ->
  forall i j,
    nth_error (filterIndexed (fun _ i => (i mod f =? 0)%nat) i l) j
    = nth_error l (((i + f - 1) / f + j) * f - i)%nat.
Proof.
  intros Hf. induction l as [|x l IH]; intros i j; cbn [filterIndexed].
  - rewrite !nth_error_nil. reflexivity.
  - assert (D := Nat.div_mod_eq i f).
    assert (M := Nat.mod_upper_bound i f ltac:(lia)).
    destruct (Nat.eqb_spec (i mod f) 0) as [Z | NZ].
    + assert (E1 : ((i + f - 1) / f = i / f)%nat).
      { symmetry. apply (Nat.div_unique _ _ _ (f - 1)); lia. }
      assert (E2 : ((S i + f - 1) / f = i / f + 1)%nat).
      { symmetry. apply (Nat.div_unique _ _ _ 0); lia. }
      rewrite E1. destruct j as [|j].
      * replace ((i / f + 0) * f - i)%nat with 0%nat by nia. reflexivity.
      * cbn [nth_error]. rewrite IH, E2.
        replace ((i / f + S j) * f - i)%nat with (S ((i / f + 1 + j) * f - S i))%nat by nia.
        reflexivity.
    + assert (E1 : ((i + f - 1) / f = i / f + 1)%nat).
      { symmetry. apply (Nat.div_unique _ _ _ (i mod f - 1)); lia. }
      assert (E2 : ((S i + f - 1) / f = i / f + 1)%nat).
      { symmetry. apply (Nat.div_unique _ _ _ (i mod f)); lia. }
      rewrite IH, E1, E2.
      replace ((i / f + 1 + j) * f - i)%nat with (S ((i / f + 1 + j) * f - S i))%nat by nia.
      reflexivity.
Qed.

(** X19.  The chart draws at most [MAX_POINTS] points: up to that many rows
    are drawn as they are; of more rows every [factor]-th is drawn,
    beginning with the first, where [factor] is the number of rows
    divided by [MAX_POINTS], rounded up, which leaves more than half
    of [MAX_POINTS] points. *)
Theorem chart_draws_at_most_max_points {A : Type} (filteredData : list A) :
  let n := List.length filteredData in
  let factor := ceilDiv n MAX_POINTS in
  (List.length (chartData filteredData) <= MAX_POINTS)%nat /\
  ((n <= MAX_POINTS)%nat -> chartData filteredData = filteredData) /\
  ((MAX_POINTS < n)%nat ->
   (forall j, nth_error (chartData filteredData) j
              = nth_error filteredData (j * factor)) /\
   List.length (chartData filteredData) = ceilDiv n factor /\
   (1000 < List.length (chartData filteredData))%nat).
Proof.
  intros n factor. unfold chartData. fold n. fold factor.
  assert (F : (MAX_POINTS < n -> 2 <= factor /\ n <= MAX_POINTS * factor
                                 /\ MAX_POINTS * factor <= n + 1999)%nat).
  { intros L. unfold factor, ceilDiv, MAX_POINTS in *.
    assert (D := Nat.div_mod_eq (n + 2000 - 1) 2000).
    assert (M := Nat.mod_upper_bound (n + 2000 - 1) 2000 ltac:(lia)).
    lia. }
  destruct (Nat.leb_spec n MAX_POINTS) as [L | L].
  - split; [exact L|]. split; [reflexivity | lia].
  - destruct (F L) as (F2 & Fn & Fu).
    assert (C := filterIndexed_count factor filteredData ltac:(lia) 0%nat).
    cbn [Nat.add] in C. fold n in C.
    assert (Z0 : ((factor - 1) / factor = 0)%nat) by (apply Nat.div_small; lia).
    rewrite Z0, Nat.add_0_r in C.
    assert (D := Nat.div_mod_eq (n + factor - 1) factor).
    assert (M := Nat.mod_upper_bound (n + factor - 1) factor ltac:(lia)).
    unfold MAX_POINTS in *.
    split; [rewrite C; nia|]. split; [lia|]. intros _.
    split; [|split].
    + intros j. rewrite filterIndexed_nth by lia. cbn [Nat.add].
      rewrite Z0. cbn [Nat.add]. rewrite Nat.sub_0_r. reflexivity.
    + rewrite C. reflexivity.
    + rewrite C. nia.
Qed.

(** ** The period shown *)

Ltac timeOfDay :=
  unfold MakeTime, msPerDay, msPerHour, msPerMinute, msPerSecond; lia.

Lemma MonthFromTime_range (t : Z) : 0 <= MonthFromTime t <= 11.
Proof.
  unfold MonthFromTime.
  match goal with
  | |- context [filter ?p ?l] => pose proof (filter_length_le p l) as L
  end.
  cbn [List.length] in L. lia.
Qed.

Lemma monthStart_range (leap : bool) (mn : Z) :
  0 <= mn <= 11 -> 0 <= monthStart leap mn <= 335.
Proof.
  intros R.
  assert (C : mn = 0 \/ mn = 1 \/ mn = 2 \/ mn = 3 \/ mn = 4 \/ mn = 5 \/ mn = 6 \/
              mn = 7 \/ mn = 8 \/ mn = 9 \/ mn = 10 \/ mn = 11) by lia.
  destruct leap;
    repeat (destruct C as [-> | C]; [cbv; split; discriminate|]);
    subst; cbv; split; discriminate.
Qed.

(** [MakeDay] on the year and month of a time: the day number of the
    given day of that month. *)
Lemma MakeDay_same_month (t dt : Z) :
  Z.abs t <= maxTime - 400 * msPerDay ->
  MakeDay (YearFromTime t) (MonthFromTime t) dt = Some (Day t - DateFromTime t + dt).
Proof.
  intros R. unfold MakeDay.
  pose proof (MonthFromTime_range t) as M.
  replace (MonthFromTime t / 12) with 0 by dlia.
  replace (MonthFromTime t mod 12) with (MonthFromTime t) by dlia.
  rewrite Z.add_0_r.
  pose proof (monthStart_range (isLeapYear (YearFromTime t)) (MonthFromTime t) M) as S.
  pose proof (YearFromDay_spec (Day t)) as Y. fold (YearFromTime t) in Y.
  pose proof (DayFromYear_step (YearFromTime t)) as St.
  unfold DateFromTime, DayWithinYear.
  set (y := DayFromYear (YearFromTime t)) in *.
  set (y' := DayFromYear (YearFromTime t + 1)) in *.
  set (ms := monthStart (isLeapYear (YearFromTime t)) (MonthFromTime t)) in *.
  assert (D : Z.abs ((y + ms) * msPerDay) <= maxTime).
  { unfold Day, msPerDay, maxTime in *. dlia. }
  apply Z.leb_le in D. rewrite D. f_equal. lia.
Qed.

Lemma setDate_shift (h : Host) (f dt : Z) :
  HostOK h -> Z.abs f <= maxTime - 500 * msPerDay ->
  Z.abs (dt - DateFromTime (LocalTime h f)) <= 40 ->
  setDate h (DateOf f) (Some dt)
  = DateOf (f + (dt - DateFromTime (LocalTime h f)) * msPerDay).
Proof.
  intros OK R B. pose proof (tza_bounded h OK) as T.
  unfold setDate. rewrite MakeDay_same_month
    by (unfold LocalTime, msPerDay, maxTime in *; lia).
  unfold MakeDate, TimeWithinDay, UTC.
  replace ((Day (LocalTime h f) - DateFromTime (LocalTime h f) + dt) * msPerDay
           + LocalTime h f mod msPerDay - LocalTZA h)
    with (f + (dt - DateFromTime (LocalTime h f)) * msPerDay)
    by (unfold LocalTime, Day, msPerDay; dlia).
  apply TimeClip_ok. unfold msPerDay, maxTime in *. lia.
Qed.

Lemma setHoursTo_at (h : Host) (f hh mm ss ms : Z) :
  HostOK h -> Z.abs f <= maxTime - 400 * msPerDay ->
  0 <= MakeTime hh mm ss ms < msPerDay ->
  setHoursTo h (DateOf f) hh mm ss ms
  = DateOf (Day (LocalTime h f) * msPerDay + MakeTime hh mm ss ms - LocalTZA h).
Proof.
  intros OK R B. pose proof (tza_bounded h OK) as T.
  unfold setHoursTo, MakeDate, UTC. apply TimeClip_ok.
  unfold LocalTime, Day, msPerDay, maxTime in *. dlia.
Qed.



Lemma newDateAt_same_day (h : Host) (f hh mm ss : Z) :
  HostOK h -> Z.abs f <= maxTime - 500 * msPerDay ->
  100 <= YearFromTime (LocalTime h f) ->
  0 <= MakeTime hh mm ss 0 < msPerDay ->
  newDateAt h (getFullYear h (DateOf f)) (getMonth h (DateOf f)) (getDate h (DateOf f))
    hh mm ss
  = DateOf (Day (LocalTime h f) * msPerDay + MakeTime hh mm ss 0 - LocalTZA h).
Proof.
  intros OK R Y B. pose proof (tza_bounded h OK) as T.
  cbn [getFullYear getMonth getDate]. unfold newDateAt.
  replace (YearFromTime (LocalTime h f) <=? 99) with false
    by (symmetry; apply Z.leb_gt; lia).
  rewrite andb_false_r.
  rewrite MakeDay_same_month by (unfold LocalTime, msPerDay, maxTime in *; lia).
  replace (Day (LocalTime h f) - DateFromTime (LocalTime h f)
           + DateFromTime (LocalTime h f)) with (Day (LocalTime h f)) by lia.
  unfold MakeDate, UTC. apply TimeClip_ok.
  unfold LocalTime, Day, msPerDay, maxTime in *. dlia.
Qed.

(** X21.  The daily view shows the records of the local day of the focus
    date, and no other (for timestamps without milliseconds, as those of
    hourly records are; the day's window ends at 23:59:59.000). *)
Theorem daily_view_shows_the_records_of_the_day
    (h : Host) (data : list HourlyData.t) (f : Z) (loadType : LoadType) :
  HostOK h -> wellInside f ->
  100 <= YearFromTime (LocalTime h f) ->
  Forall (fun d => onWholeSecond (HourlyData.timestamp d)) data ->
  filteredData h data DAILY (DateOf f) loadType
  = map (viewRow loadType)
        (filter (fun d => dayBetween h (Day (LocalTime h f)) (Day (LocalTime h f))
                            (HourlyData.timestamp d))
                data).
Proof.
  intros OK W Y S. unfold wellInside in W.
  pose proof (tza_bounded h OK) as T. pose proof (tza_whole_minutes h OK) as TM.
  assert (E : filteredData h data DAILY (DateOf f) loadType
              = map (viewRow loadType)
                  (filter (fun d => inWindow (periodWindow h DAILY (DateOf f))
                                      (HourlyData.timestamp d)) data))
    by (destruct data; reflexivity).
  rewrite E. f_equal. apply filter_ext_in. intros d I.
  rewrite Forall_forall in S. specialize (S d I).
  assert (R : Z.abs f <= maxTime - 500 * msPerDay)
    by (unfold msPerDay, maxTime in *; lia).
  assert (E0 := newDateAt_same_day h f 0 0 0 OK R Y ltac:(timeOfDay)).
  assert (E1 := newDateAt_same_day h f 23 59 59 OK R Y ltac:(timeOfDay)).
  unfold periodWindow, inWindow. cbn [fst snd]. rewrite E0, E1.
  unfold dayBetween, localDay, dateGe, dateLe.
  destruct (HourlyData.timestamp d) as [|t]; [reflexivity|]. cbn [getTime].
  specialize (S t eq_refl).
  unfold MakeTime, LocalTime, Day, msPerDay, msPerHour, msPerMinute, msPerSecond in *.
  apply eq_true_iff_eq. rewrite !andb_true_iff, !Z.leb_le. dlia.
Qed.

Lemma daily_view_shows_the_records_of_the_day_witness :
  filteredData (ptHost 0) [nineOClock] DAILY (DateOf 1704123456789) ACTIVE
  = [viewRow ACTIVE nineOClock].
Proof.
  rewrite (daily_view_shows_the_records_of_the_day (ptHost 0) [nineOClock]
             1704123456789 ACTIVE).
  - reflexivity.
  - apply ptHost_ok; reflexivity.
  - unfold wellInside. vm_compute. discriminate.
  - vm_compute. discriminate.
  - constructor; [|constructor]. intros t E. injection E as <-. reflexivity.
Defined.

(** X22.  The weekly view shows the records whose local day lies in the week
    of the focus date that runs from Monday to Sunday. *)
Theorem weekly_view_runs_from_monday_to_sunday
    (h : Host) (data : list HourlyData.t) (f : Z) (loadType : LoadType) :
  HostOK h -> wellInside f ->
  let monday := mondayOf (LocalTime h f) in
  filteredData h data WEEKLY (DateOf f) loadType
  = map (viewRow loadType)
        (filter (fun d => dayBetween h monday (monday + 6) (HourlyData.timestamp d))
                data) /\
  WeekDay (monday * msPerDay) = 1 /\
  monday <= Day (LocalTime h f) <= monday + 6.
Proof.
  intros OK W monday. unfold wellInside in W.
  pose proof (tza_bounded h OK) as T.
  assert (Mon : monday <= Day (LocalTime h f) <= monday + 6 /\
                (monday + 4) mod 7 = 1).
  { unfold monday, mondayOf, WeekDay. dlia. }
  split; [|split; [|apply Mon]].
  2:{ unfold WeekDay, Day. rewrite Z.div_mul by (unfold msPerDay; lia). apply Mon. }
  assert (E : filteredData h data WEEKLY (DateOf f) loadType
              = map (viewRow loadType)
                  (filter (fun d => inWindow (periodWindow h WEEKLY (DateOf f))
                                      (HourlyData.timestamp d)) data))
    by (destruct data; reflexivity).
  rewrite E. f_equal.
  assert (D : (if WeekDay (LocalTime h f) =? 0 then -6 else 1) - WeekDay (LocalTime h f)
              = monday - Day (LocalTime h f)).
  { unfold monday, mondayOf, WeekDay.
    destruct (Z.eqb_spec ((Day (LocalTime h f) + 4) mod 7) 0); dlia. }
  assert (Wd : 0 <= WeekDay (LocalTime h f) < 7) by (unfold WeekDay; dlia).
  assert (St : setHoursTo h
                 (setDate h (DateOf f)
                    (Some (DateFromTime (LocalTime h f) - WeekDay (LocalTime h f)
                           + (if WeekDay (LocalTime h f) =? 0 then -6 else 1))))
                 0 0 0 0
               = DateOf (monday * msPerDay - LocalTZA h)).
  { rewrite setDate_shift;
      [|exact OK | unfold msPerDay, maxTime in *; lia
       | destruct (WeekDay (LocalTime h f) =? 0); lia].
    rewrite setHoursTo_at;
      [|exact OK | unfold msPerDay, maxTime in *;
                   destruct (WeekDay (LocalTime h f) =? 0); lia
       | timeOfDay].
    f_equal. unfold MakeTime. rewrite !Z.mul_0_l, !Z.add_0_r. f_equal. f_equal.
    replace (DateFromTime (LocalTime h f) - WeekDay (LocalTime h f)
             + (if WeekDay (LocalTime h f) =? 0 then -6 else 1)
             - DateFromTime (LocalTime h f))
      with (monday - Day (LocalTime h f)) by lia.
    unfold LocalTime, Day, msPerDay in *. dlia. }
  assert (Bm : Z.abs (monday * msPerDay - LocalTZA h) <= maxTime - 700 * msPerDay).
  { unfold LocalTime, Day, msPerDay, maxTime in *. dlia. }
  assert (En : setHoursTo h
                 (setDate h (DateOf (monday * msPerDay - LocalTZA h))
                    (plus (getDate h (DateOf (monday * msPerDay - LocalTZA h))) 6))
                 23 59 59 999
               = DateOf ((monday + 6) * msPerDay + 86399999 - LocalTZA h)).
  { cbn [getDate plus]. rewrite setDate_shift;
      [|exact OK | unfold msPerDay, maxTime in *; lia | lia].
    rewrite setHoursTo_at;
      [|exact OK | unfold msPerDay, maxTime in *; lia
       | timeOfDay].
    f_equal. unfold MakeTime, LocalTime, Day, msPerDay, msPerHour, msPerMinute,
               msPerSecond in *. dlia. }
  apply filter_ext. intros d.
  unfold periodWindow, inWindow. cbn [fst snd getDate getDay].
  rewrite St, En.
  unfold dayBetween, localDay, dateGe, dateLe.
  destruct (HourlyData.timestamp d) as [|t]; [reflexivity|]. cbn [getTime].
  unfold LocalTime, Day, msPerDay in *.
  apply eq_true_iff_eq. rewrite !andb_true_iff, !Z.leb_le. dlia.
Qed.

Lemma weekly_view_runs_from_monday_to_sunday_witness :
  mondayOf (LocalTime (ptHost 0) 1704123456789) = 19723 /\
  WeekDay (19723 * msPerDay) = 1.
Proof.
  destruct (weekly_view_runs_from_monday_to_sunday (ptHost 0) [] 1704123456789 ACTIVE)
    as (_ & Wd & _).
  - apply ptHost_ok; reflexivity.
  - unfold wellInside. vm_compute. discriminate.
  - split; [reflexivity | exact Wd].
Defined.

(** ** The detailed export *)

Lemma add_NaN (x : number) : (x + NaN)%float = NaN.
Proof.
  apply Prim2SF_inj. rewrite add_spec. change (Prim2SF NaN) with S754_nan.
  destruct (Prim2SF x); reflexivity.
Qed.

Lemma addToGroup_NaN (key : string) (ts : Date) (r : TelemetryRow.t)
    (grouped : periodGroups) :
  Forall (fun kg => daySumsOfGroup kg = (fst kg, (NaN, NaN, NaN))) grouped ->
  Forall (fun kg => daySumsOfGroup kg = (fst kg, (NaN, NaN, NaN)))
         (addToGroup key ts (readingAsRecord r) grouped).
Proof.
  induction grouped as [|[k g] rest IH]; intros F; cbn [addToGroup].
  - constructor; [|constructor]. reflexivity.
  - inversion F as [|? ? Fg Fr]; subst. destruct (String.eqb k key).
    + constructor; [|exact Fr].
      unfold daySumsOfGroup, accumulate, readingAsRecord. cbn. rewrite !add_NaN.
      reflexivity.
    + constructor; [exact Fg | apply IH, Fr].
Qed.

Lemma groupPeriods_NaN (h : Host) (rows : list TelemetryRow.t) :
  Forall (fun kg => daySumsOfGroup kg = (fst kg, (NaN, NaN, NaN)))
         (groupPeriods h monthly (map readingAsRecord rows)).
Proof.
  unfold groupPeriods. generalize (Forall_nil
    (fun kg : string * DayGroup.t => daySumsOfGroup kg = (fst kg, (NaN, NaN, NaN)))).
  generalize (@nil (string * DayGroup.t)) as grouped.
  induction rows as [|r rows IH]; intros grouped F; [exact F|].
  cbn [map fold_left]. apply IH. cbn [periodKey]. apply addToGroup_NaN, F.
Qed.

Lemma buildRow_NaN (h : Host) (split : bool) (cols : ExportColumns)
    (ts : Date) (k : string) :
  buildRow h {| resolution := monthly; splitDateTime := split; columns := cols |}
    (Processed.mk ts k "" k NaN NaN NaN)
  = k :: repeat "NaN" (selectedColumns {| resolution := monthly; splitDateTime := split;
                                          columns := cols |}).
Proof.
  destruct cols as [[] [] []], split; reflexivity.
Qed.

(** X23.  The detailed export (resolution ['raw']) does not write the
    readings: it writes one line per month label of the selected
    readings, in order of first appearance, with [NaN] for every selected
    quantity. *)
Theorem detailed_export_writes_months_of_NaN
    (h : Host) (data : list HourlyData.t) (rawData : list TelemetryRow.t)
    (split : bool) (cols : ExportColumns) (exportRange : ExportRange)
    (period : Period) (focusDate : Date) :
  let config := {| resolution := monthly; splitDateTime := split; columns := cols |} in
  let rows := selectRange h TelemetryRow.timestamp exportRange period focusDate rawData in
  let months :=
    firstSeen (map (fun r => toLocaleMonthString h (TelemetryRow.timestamp r)) rows) in
  handleExport h data rawData raw split cols exportRange period focusDate
  = (BOM ++ join newline
       (join ";" (headers config)
        :: map (fun month => join ";" (month :: repeat "NaN" (selectedColumns config)))
             months))%string.
Proof.
  intros config rows months. unfold handleExport, generateCSV. fold rows. fold config.
  f_equal. f_equal. f_equal.
  unfold exportRows, processData. cbn [resolution config].
  rewrite !map_map. unfold months.
  replace (map (fun r => toLocaleMonthString h (TelemetryRow.timestamp r)) rows)
    with (map (periodLabel h monthly) (map readingAsRecord rows))
    by (rewrite map_map; reflexivity).
  rewrite <- groupPeriods_keys, map_map.
  apply map_ext_in. intros [k g] I.
  pose proof (groupPeriods_NaN h rows) as F. rewrite Forall_forall in F.
  specialize (F _ I). unfold daySumsOfGroup in F. cbn [fst snd] in *.
  injection F as -> -> ->. fold config.
  unfold config. rewrite buildRow_NaN. reflexivity.
Qed.

(* ================================================================== *)
(** * The statistics of the report *)
(* ================================================================== *)

Lemma find_first {A : Type} (p : A -> bool) (l : list A) (x : A) :
  find p l = Some x ->
  exists before after,
    l = before ++ x :: after /\ p x = true /\ forall y, In y before -> p y = false.
Proof.
  induction l as [|a l IH]; [discriminate|]. cbn [find].
  destruct (p a) eqn:Pa.
  - intros E. injection E as <-. exists [], l. split; [reflexivity|].
    split; [exact Pa | intros y []].
  - intros E. destruct (IH E) as (b & c & -> & Px & N).
    exists (a :: b), c. split; [reflexivity|]. split; [exact Px|].
    intros y [<- | I]; [exact Pa | apply N, I].
Qed.

Lemma nameOf_first (data : list (string * number)) (x : number) :
  In x (map snd data) -> isNaN x = false ->
  exists before name v after,
    data = before ++ (name, v) :: after /\
    nameOf data x = name /\ numEq v x = true /\
    forall d, In d before -> numEq (snd d) x = false.
Proof.
  intros I N. unfold nameOf.
  destruct (find (fun d => numEq (snd d) x) data) as [[name v]|] eqn:F.
  - destruct (find_first _ _ _ F) as (b & a & E & P & B).
    exists b, name, v, a. auto.
  - exfalso. apply in_map_iff in I. destruct I as (d & <- & I).
    pose proof (find_none _ _ F d I) as Q. cbn in Q.
    rewrite numEq_refl in Q by exact N. discriminate.
Qed.

(** X24.  Without items every statistic is 0, the months are empty and the
    trend is stable.  With items none of which is NaN, the maximum is at
    least every value and the month of the maximum is the name of the
    first item whose value equals it; likewise for the minimum. *)
Theorem extreme_months_are_the_first_to_reach_them
    (data : list (string * number)) :
  getStats [] = Stats.mk 0%float 0%float 0%float 0%float 0%float "" "" "Estável" /\
  (data <> [] -> existsb isNaN (map snd data) = false ->
   let s := getStats data in
   (forall d, In d data -> numLe (Stats.min s) (snd d) /\ numLe (snd d) (Stats.max s)) /\
   (exists before name v after,
      data = before ++ (name, v) :: after /\
      Stats.maxMonth s = name /\ numEq v (Stats.max s) = true /\
      forall d, In d before -> numEq (snd d) (Stats.max s) = false) /\
   (exists before name v after,
      data = before ++ (name, v) :: after /\
      Stats.minMonth s = name /\ numEq v (Stats.min s) = true /\
      forall d, In d before -> numEq (snd d) (Stats.min s) = false)).
Proof.
  split; [reflexivity|]. intros Ne NN s.
  assert (Nv : map snd data <> []) by (destruct data; [congruence | discriminate]).
  assert (E : Stats.max s = Math_max (map snd data) /\
              Stats.min s = Math_min (map snd data) /\
              Stats.maxMonth s = nameOf data (Math_max (map snd data)) /\
              Stats.minMonth s = nameOf data (Math_min (map snd data))).
  { unfold s, getStats. destruct (map snd data) eqn:V; [congruence|].
    cbn [Stats.max Stats.min Stats.maxMonth Stats.minMonth]. auto. }
  destruct E as (Emax & Emin & Emm & Emn). rewrite Emax, Emin, Emm, Emn.
  pose proof (Math_max_attained _ Nv NN) as Imax.
  pose proof (Math_min_attained _ Nv NN) as Imin.
  assert (Nn : forall x, In x (map snd data) -> isNaN x = false).
  { intros x I. destruct (isNaN x) eqn:N; [|reflexivity].
    assert (existsb isNaN (map snd data) = true)
      by (apply existsb_exists; exists x; auto).
    congruence. }
  split; [|split].
  - intros d I. apply (in_map snd) in I.
    unfold Math_min, Math_max. rewrite NN.
    destruct (fold_maxStep_bounds (map snd data) neg_infinity eq_refl NN) as (_ & _ & B).
    destruct (fold_minStep_bounds (map snd data) infinity eq_refl NN) as (_ & _ & C).
    split; [apply C, I | apply B, I].
  - apply nameOf_first; [exact Imax | apply Nn, Imax].
  - apply nameOf_first; [exact Imin | apply Nn, Imin].
Qed.

Lemma extreme_months_are_the_first_to_reach_them_witness :
  Stats.maxMonth (getStats [("jan", 2%float); ("fev", 5%float); ("mar", 5%float)])
  = "fev".
Proof.
  destruct (extreme_months_are_the_first_to_reach_them
              [("jan", 2%float); ("fev", 5%float); ("mar", 5%float)]) as [_ P].
  destruct P as (_ & _ & _); [discriminate | reflexivity |].
  reflexivity.
Defined.

(** X25.  With a single item the trend compares its value with 0: a positive
    value is reported as rising, a negative one as falling. *)
Theorem single_month_trend_follows_the_sign (name : string) (v : number) :
  Stats.trend (getStats [(name, v)])
  = if (0 <? v)%float then "Crescente"
    else if (v <? 0)%float then "Decrescente" else "Estável".
Proof.
  unfold getStats. cbn [map snd List.length Stats.trend].
  change (1 / 2)%nat with 0%nat.
  cbn [firstn skipn orOne Nat.sub].
  change (ofZ 1) with 1%float. change (ofZ (Z.of_nat 1)) with 1%float.
  rewrite !div_one. unfold sum. cbn [fold_left].
  change (0 * 1.05)%float with 0%float. change (0 * 0.95)%float with 0%float.
  destruct (zero_plus v) as [-> | [-> ->]]; [|reflexivity].
  destruct (0 <? v)%float eqn:P.
  - rewrite (ltb_asym _ _ P). reflexivity.
  - destruct (v <? 0)%float; reflexivity.
Qed.

(** ** Months and years of the calendar *)

Lemma DayFromYear_next (y : Z) :
  DayFromYear (y + 1) = DayFromYear y + 365 + (if isLeapYear y then 1 else 0).
Proof.
  unfold DayFromYear, isLeapYear.
  destruct (Z.eqb_spec (y mod 4) 0), (Z.eqb_spec (y mod 100) 0),
    (Z.eqb_spec (y mod 400) 0); cbn [negb andb orb]; dlia.
Qed.

Lemma YearFromDay_unique (d y : Z) :
  DayFromYear y <= d < DayFromYear (y + 1) -> YearFromDay d = y.
Proof.
  intros B. pose proof (YearFromDay_spec d) as S.
  destruct (Z.lt_trichotomy (YearFromDay d) y) as [L | [E | L]]; [|exact E|].
  - pose proof (DayFromYear_mono (YearFromDay d + 1) y ltac:(lia)). lia.
  - pose proof (DayFromYear_mono (y + 1) (YearFromDay d) ltac:(lia)). lia.
Qed.

Lemma DayWithinYear_range (t : Z) :
  0 <= DayWithinYear t < 365 + (if isLeapYear (YearFromTime t) then 1 else 0).
Proof.
  unfold DayWithinYear. pose proof (YearFromDay_spec (Day t)) as S.
  fold (YearFromTime t) in S. rewrite DayFromYear_next in S. lia.
Qed.

Ltac monthStartValues :=
  repeat match goal with
         | |- context [monthStart ?l ?c] =>
             let v := eval vm_compute in (monthStart l c) in
             change (monthStart l c) with v
         | H : context [monthStart ?l ?c] |- _ =>
             let v := eval vm_compute in (monthStart l c) in
             change (monthStart l c) with v in H
         end.

Ltac decideTests d :=
  repeat match goal with
         | |- context [?a <=? d] =>
             first [ replace (a <=? d) with true by (symmetry; apply Z.leb_le; lia)
                   | replace (a <=? d) with false by (symmetry; apply Z.leb_gt; lia) ]
         end.

Lemma length_filter_map {A B : Type} (f : A -> B) (p : B -> bool) (l : list A) :
  List.length (filter p (map f l)) = List.length (filter (fun x => p (f x)) l).
Proof.
  induction l as [|a l IH]; [reflexivity|]. cbn [map filter].
  destruct (p (f a)); cbn [List.length]; rewrite IH; reflexivity.
Qed.

Lemma MonthFromTime_count (t : Z) :
  MonthFromTime t = monthCount (isLeapYear (YearFromTime t)) (DayWithinYear t).
Proof.
  unfold MonthFromTime, monthCount. f_equal.
  rewrite <- (length_filter_map (monthStart (isLeapYear (YearFromTime t)))
                (fun s => s <=? DayWithinYear t)).
  destruct (isLeapYear (YearFromTime t)); reflexivity.
Qed.

Lemma monthCount_unique (leap : bool) (d m : Z) :
  0 <= m <= 11 ->
  monthStart leap m <= d ->
  (m < 11 -> d < monthStart leap (m + 1)) ->
  monthCount leap d = m.
Proof.
  intros R Lo Hi.
  assert (C : m = 0 \/ m = 1 \/ m = 2 \/ m = 3 \/ m = 4 \/ m = 5 \/ m = 6 \/
              m = 7 \/ m = 8 \/ m = 9 \/ m = 10 \/ m = 11) by lia.
  unfold monthCount.
  destruct leap;
    repeat (destruct C as [-> | C];
            [cbn [Z.add] in Hi; monthStartValues; cbn [filter]; decideTests d;
             reflexivity|]);
    subst m; monthStartValues; cbn [filter]; decideTests d; reflexivity.
Qed.

Lemma monthCount_bounds (leap : bool) (d : Z) :
  0 <= d ->
  0 <= monthCount leap d <= 11 /\
  monthStart leap (monthCount leap d) <= d /\
  (monthCount leap d < 11 -> d < monthStart leap (monthCount leap d + 1)).
Proof.
  intros P.
  assert (C : exists m, 0 <= m <= 11 /\ monthStart leap m <= d /\
                        (m < 11 -> d < monthStart leap (m + 1))).
  { destruct leap.
    - destruct (Z.lt_ge_cases d 31); [exists 0; monthStartValues; cbn; lia|].
      destruct (Z.lt_ge_cases d 60); [exists 1; monthStartValues; cbn; lia|].
      destruct (Z.lt_ge_cases d 91); [exists 2; monthStartValues; cbn; lia|].
      destruct (Z.lt_ge_cases d 121); [exists 3; monthStartValues; cbn; lia|].
      destruct (Z.lt_ge_cases d 152); [exists 4; monthStartValues; cbn; lia|].
      destruct (Z.lt_ge_cases d 182); [exists 5; monthStartValues; cbn; lia|].
      destruct (Z.lt_ge_cases d 213); [exists 6; monthStartValues; cbn; lia|].
      destruct (Z.lt_ge_cases d 244); [exists 7; monthStartValues; cbn; lia|].
      destruct (Z.lt_ge_cases d 274); [exists 8; monthStartValues; cbn; lia|].
      destruct (Z.lt_ge_cases d 305); [exists 9; monthStartValues; cbn; lia|].
      destruct (Z.lt_ge_cases d 335); [exists 10; monthStartValues; cbn; lia|].
      exists 11. monthStartValues. cbn. lia.
    - destruct (Z.lt_ge_cases d 31); [exists 0; monthStartValues; cbn; lia|].
      destruct (Z.lt_ge_cases d 59); [exists 1; monthStartValues; cbn; lia|].
      destruct (Z.lt_ge_cases d 90); [exists 2; monthStartValues; cbn; lia|].
      destruct (Z.lt_ge_cases d 120); [exists 3; monthStartValues; cbn; lia|].
      destruct (Z.lt_ge_cases d 151); [exists 4; monthStartValues; cbn; lia|].
      destruct (Z.lt_ge_cases d 181); [exists 5; monthStartValues; cbn; lia|].
      destruct (Z.lt_ge_cases d 212); [exists 6; monthStartValues; cbn; lia|].
      destruct (Z.lt_ge_cases d 243); [exists 7; monthStartValues; cbn; lia|].
      destruct (Z.lt_ge_cases d 273); [exists 8; monthStartValues; cbn; lia|].
      destruct (Z.lt_ge_cases d 304); [exists 9; monthStartValues; cbn; lia|].
      destruct (Z.lt_ge_cases d 334); [exists 10; monthStartValues; cbn; lia|].
      exists 11. monthStartValues. cbn. lia. }
  destruct C as (m & R & Lo & Hi).
  rewrite (monthCount_unique leap d m R Lo Hi). auto.
Qed.

Lemma monthStart_zero (leap : bool) : monthStart leap 0 = 0.
Proof. destruct leap; reflexivity. Qed.

Lemma monthStart_december (leap : bool) :
  monthStart leap 11 = 334 + (if leap then 1 else 0).
Proof. destruct leap; reflexivity. Qed.

Lemma nextMonthBegin_bounds (y m : Z) :
  0 <= m <= 11 ->
  DayFromYear y <= monthBegin y m < nextMonthBegin y m /\
  nextMonthBegin y m <= DayFromYear (y + 1).
Proof.
  intros R. unfold nextMonthBegin, monthBegin. rewrite DayFromYear_next.
  assert (C : m = 0 \/ m = 1 \/ m = 2 \/ m = 3 \/ m = 4 \/ m = 5 \/ m = 6 \/
              m = 7 \/ m = 8 \/ m = 9 \/ m = 10 \/ m = 11) by lia.
  destruct (isLeapYear y);
    repeat (destruct C as [-> | C]; [cbn [Z.eqb Z.add Pos.add Pos.succ Pos.eqb];
                                     monthStartValues; lia|]);
    subst m; cbn [Z.eqb Pos.eqb]; monthStartValues; lia.
Qed.

(** The days of month [m] of year [y] are those from its beginning to
    the day before the next month begins. *)
Lemma days_of_month (y m d : Z) :
  0 <= m <= 11 ->
  (monthBegin y m <= d < nextMonthBegin y m <->
   YearFromDay d = y /\ monthCount (isLeapYear y) (d - DayFromYear y) = m).
Proof.
  intros R. pose proof (nextMonthBegin_bounds y m R) as B. split.
  - intros W.
    assert (Y : YearFromDay d = y) by (apply YearFromDay_unique; lia).
    split; [exact Y|]. apply monthCount_unique; [exact R | |].
    + unfold monthBegin in W. lia.
    + intros L. unfold nextMonthBegin, monthBegin in W.
      replace (m =? 11) with false in W by (symmetry; apply Z.eqb_neq; lia). lia.
  - intros [Y C]. pose proof (YearFromDay_spec d) as S. rewrite Y in S.
    destruct (monthCount_bounds (isLeapYear y) (d - DayFromYear y) ltac:(lia))
      as (_ & Lo & Hi).
    rewrite C in Lo, Hi. unfold nextMonthBegin, monthBegin.
    destruct (Z.eqb_spec m 11) as [-> | Ne]; [lia|].
    specialize (Hi ltac:(lia)). lia.
Qed.

Lemma month_of_time (t : Z) :
  monthBegin (YearFromTime t) (MonthFromTime t) <= Day t
  < nextMonthBegin (YearFromTime t) (MonthFromTime t).
Proof.
  apply days_of_month; [apply MonthFromTime_range|].
  split; [reflexivity|]. rewrite MonthFromTime_count. reflexivity.
Qed.

Lemma same_month_iff (t f : Z) :
  (YearFromTime t = YearFromTime f /\ MonthFromTime t = MonthFromTime f) <->
  monthBegin (YearFromTime f) (MonthFromTime f) <= Day t
  < nextMonthBegin (YearFromTime f) (MonthFromTime f).
Proof.
  split.
  - intros [<- <-]. apply month_of_time.
  - intros W. apply days_of_month in W; [|apply MonthFromTime_range].
    destruct W as [Y C]. fold (YearFromTime t) in Y. split; [exact Y|].
    rewrite MonthFromTime_count. unfold DayWithinYear. rewrite Y. exact C.
Qed.

Lemma same_year_iff (t f : Z) :
  YearFromTime t = YearFromTime f <->
  DayFromYear (YearFromTime f) <= Day t < DayFromYear (YearFromTime f + 1).
Proof.
  split.
  - intros <-. apply YearFromDay_spec.
  - intros W. apply YearFromDay_unique, W.
Qed.

Lemma MakeDay_in_year (y m dt : Z) :
  0 <= m <= 11 -> Z.abs (DayFromYear y) <= 99999600 ->
  MakeDay y m dt = Some (monthBegin y m + dt - 1).
Proof.
  intros R B. unfold MakeDay, monthBegin.
  replace (m / 12) with 0 by dlia. replace (m mod 12) with m by dlia.
  rewrite Z.add_0_r.
  pose proof (monthStart_range (isLeapYear y) m R) as S.
  replace (Z.abs ((DayFromYear y + monthStart (isLeapYear y) m) * msPerDay) <=? maxTime)
    with true by (symmetry; apply Z.leb_le; unfold msPerDay, maxTime; lia).
  reflexivity.
Qed.

Lemma MakeDay_next_month (y m : Z) :
  0 <= m <= 11 -> Z.abs (DayFromYear y) <= 99999600 ->
  MakeDay y (m + 1) 0 = Some (nextMonthBegin y m - 1).
Proof.
  intros R B. unfold nextMonthBegin. destruct (Z.eqb_spec m 11) as [-> | Ne].
  - unfold MakeDay. change ((11 + 1) / 12) with 1. change ((11 + 1) mod 12) with 0.
    rewrite monthStart_zero, Z.add_0_r. pose proof (DayFromYear_step y) as S.
    replace (Z.abs (DayFromYear (y + 1) * msPerDay) <=? maxTime)
      with true by (symmetry; apply Z.leb_le; unfold msPerDay, maxTime; lia).
    f_equal. lia.
  - rewrite MakeDay_in_year by lia. f_equal. lia.
Qed.

Lemma DayFromYear_of_time (t : Z) :
  Z.abs t <= maxTime - 770 * msPerDay ->
  Z.abs (DayFromYear (YearFromTime t)) <= 99999600.
Proof.
  intros R. pose proof (YearFromDay_spec (Day t)) as S. fold (YearFromTime t) in S.
  pose proof (DayFromYear_step (YearFromTime t)) as St.
  unfold Day, msPerDay, maxTime in *. dlia.
Qed.

Lemma newDateAt_value (h : Host) (y m dt day hh mm ss : Z) :
  HostOK h -> 100 <= y ->
  MakeDay y m dt = Some day ->
  Z.abs day <= 99999990 ->
  0 <= MakeTime hh mm ss 0 < msPerDay ->
  newDateAt h (Some y) (Some m) (Some dt) hh mm ss
  = DateOf (day * msPerDay + MakeTime hh mm ss 0 - LocalTZA h).
Proof.
  intros OK Y E B T. pose proof (tza_bounded h OK) as Tz.
  unfold newDateAt.
  replace (y <=? 99) with false by (symmetry; apply Z.leb_gt; lia).
  rewrite andb_false_r, E. unfold MakeDate, UTC. apply TimeClip_ok.
  unfold msPerDay, maxTime in *. lia.
Qed.

(** X26.  The yearly view shows exactly the records of the local year of the
    focus date, and the monthly view those of its local month (for
    timestamps without milliseconds, as those of hourly records are;
    the windows end at 23:59:59.000 of their last day). *)
Theorem monthly_and_yearly_views_show_the_period_of_the_focus
    (h : Host) (data : list HourlyData.t) (f : Z) (loadType : LoadType) :
  HostOK h -> wellInside f ->
  100 <= YearFromTime (LocalTime h f) ->
  Forall (fun d => onWholeSecond (HourlyData.timestamp d)) data ->
  filteredData h data MONTHLY (DateOf f) loadType
  = map (viewRow loadType)
        (filter (fun d => sameLocalMonth h f (HourlyData.timestamp d)) data) /\
  filteredData h data YEARLY (DateOf f) loadType
  = map (viewRow loadType)
        (filter (fun d => sameLocalYear h f (HourlyData.timestamp d)) data).
Proof.
  intros OK W Y S. unfold wellInside in W.
  pose proof (tza_bounded h OK) as T. pose proof (tza_whole_minutes h OK) as TM.
  set (lf := LocalTime h f) in *.
  assert (Rl : Z.abs lf <= maxTime - 770 * msPerDay)
    by (unfold lf, LocalTime, msPerDay, maxTime in *; lia).
  pose proof (DayFromYear_of_time lf Rl) as By.
  pose proof (MonthFromTime_range lf) as Rm.
  pose proof (nextMonthBegin_bounds (YearFromTime lf) (MonthFromTime lf) Rm) as Bm.
  pose proof (DayFromYear_step (YearFromTime lf)) as St.
  assert (E : forall period,
              filteredData h data period (DateOf f) loadType
              = map (viewRow loadType)
                  (filter (fun d => inWindow (periodWindow h period (DateOf f))
                                      (HourlyData.timestamp d)) data))
    by (intros period; destruct data; reflexivity).
  rewrite !E. rewrite Forall_forall in S.
  split; f_equal; apply filter_ext_in; intros d I; specialize (S d I);
    unfold periodWindow, inWindow; cbn [fst snd getFullYear getMonth getDate plus];
    fold lf.
  - rewrite (newDateAt_value h _ _ 1 (monthBegin (YearFromTime lf) (MonthFromTime lf))
               0 0 0 OK Y);
      [|rewrite MakeDay_in_year by assumption; f_equal; lia | lia | timeOfDay].
    rewrite (newDateAt_value h _ _ 0
               (nextMonthBegin (YearFromTime lf) (MonthFromTime lf) - 1) 23 59 59 OK Y);
      [|apply MakeDay_next_month; assumption | lia | timeOfDay].
    unfold sameLocalMonth, dateGe, dateLe.
    destruct (HourlyData.timestamp d) as [|t]; [reflexivity|]. cbn [getTime].
    specialize (S t eq_refl). fold lf.
    pose proof (same_month_iff (LocalTime h t) lf) as M.
    apply eq_true_iff_eq. rewrite !andb_true_iff, !Z.leb_le, !Z.eqb_eq, M.
    set (a := monthBegin (YearFromTime lf) (MonthFromTime lf)) in *.
    set (b := nextMonthBegin (YearFromTime lf) (MonthFromTime lf)) in *.
    clearbody a b. clear M E I.
    unfold MakeTime, LocalTime, Day, msPerDay, msPerHour, msPerMinute, msPerSecond in *.
    dlia.
  - rewrite (newDateAt_value h _ 0 1 (DayFromYear (YearFromTime lf)) 0 0 0 OK Y);
      [|rewrite MakeDay_in_year by (assumption || lia); unfold monthBegin;
        rewrite monthStart_zero; f_equal; lia | lia | timeOfDay].
    rewrite (newDateAt_value h _ 11 31 (DayFromYear (YearFromTime lf + 1) - 1)
               23 59 59 OK Y);
      [|rewrite MakeDay_in_year by (assumption || lia); unfold monthBegin;
        rewrite monthStart_december, DayFromYear_next; f_equal; lia | lia | timeOfDay].
    unfold sameLocalYear, dateGe, dateLe.
    destruct (HourlyData.timestamp d) as [|t]; [reflexivity|]. cbn [getTime].
    specialize (S t eq_refl). fold lf.
    pose proof (same_year_iff (LocalTime h t) lf) as M.
    apply eq_true_iff_eq. rewrite !andb_true_iff, !Z.leb_le, !Z.eqb_eq, M.
    set (a := DayFromYear (YearFromTime lf)) in *.
    set (b := DayFromYear (YearFromTime lf + 1)) in *.
    clearbody a b. clear M E I.
    unfold MakeTime, LocalTime, Day, msPerDay, msPerHour, msPerMinute, msPerSecond in *.
    dlia.
Qed.

Lemma monthly_and_yearly_views_show_the_period_of_the_focus_witness :
  filteredData (ptHost 0) [nineOClock] MONTHLY (DateOf 1706659200000) ACTIVE
  = [viewRow ACTIVE nineOClock].
Proof.
  destruct (monthly_and_yearly_views_show_the_period_of_the_focus (ptHost 0)
              [nineOClock] 1706659200000 ACTIVE) as [M _].
  - apply ptHost_ok; reflexivity.
  - unfold wellInside. vm_compute. discriminate.
  - vm_compute. discriminate.
  - constructor; [|constructor]. intros t E. injection E as <-. reflexivity.
  - rewrite M. vm_compute. reflexivity.
Defined.




